(* ===== verification/_CoqProject ===== *)
-Q . S2P
Prelude.v
Values.v
Datetime.v
Frame.v
Statement.v
Ddl.v
Store.v
PandasSqlite.v
Race.v
