(* ===== verification/Prelude.v ===== *)
(** * A verification of soundwave's pandas/SQLite persistence helper

    The program is [src/experimental/soundwave/soundwave/pandas_sqlite.py]
    (67 lines).  It has three parts, which talk to an embedded SQLite store
    through pandas' [SQLiteDatabase]/[SQLiteTable] helpers:

    - [_EmptyFrame] and [CreateTableIfNotExists] (lines 11-31): the schema
      provisioner.  It builds an empty DataFrame from (column, dtype) pairs,
      derives a CREATE TABLE from it and issues it unless the table exists.
    - [_InsertOrReplaceStatement] (lines 34-37): the one pure function; it
      prints the text of an [INSERT OR REPLACE] statement.
    - [InsertOrReplaceRecords] (lines 40-67): the upsert writer.  If the
      table exists it runs that statement once per row of the frame, inside
      one transaction; otherwise (legacy path) it creates the table keyed
      by the frame's index and does a plain insert.

    ** Files

    - [Prelude] (this file): the state-and-error monad [SE] with its
      notation scope [se_scope], the tactics and the hint database
      [sqlite] shared by all files, and generic lemmas on association
      lists ([assoc_get], [assoc_set]), filters and strings.
    - [Values]: the data the program moves: Python/SQLite scalar values
      and numpy's NaN, NaT and datetime64, pandas dtypes, SQLite column
      types and the exceptions raised.
    - [Datetime]: the way of a datetime64[ns] value to SQLite and back:
      the proleptic Gregorian calendar on day numbers, numpy's cast to
      microseconds and to [datetime.datetime], [isoformat] as sqlite3's
      default adapter prints it, and sqlite3's [convert_timestamp].
    - [Frame]: the pandas side used by the code: a DataFrame as index
      levels plus named series, [__setitem__], [_EmptyFrame], the type
      inference behind [SQLiteTable._sql_type_name], the index labels of
      [SQLiteTable._index_name], [insert_data] with the conversion of
      each block's values (NaN and NaT to [None], datetime64 to the text
      sqlite3 binds) and [zip] over the columns.
    - [Statement]: [_InsertOrReplaceStatement] as a string function, a
      lexer (bare words, symbols, double-quoted identifiers with doubled
      quotes) and parser for the INSERT statements SQLite receives, and
      the round trip between them.
    - [Ddl]: the text pandas prints: [_get_valid_sqlite_name] (the
      quoting, and the ValueError for an empty name or a NUL),
      [SQLiteTable._create_table_setup] (CREATE TABLE with its
      [<name>_pk] constraint, then CREATE INDEX [ix_<name>_<cols>] for the
      index columns) and [SQLiteTable.insert_statement]; the parser of the
      two CREATE statements; and the lexing lemmas that show what pandas
      prints is read back as written.
    - [Store]: the SQLite store: the catalog as a [gmap] from table names
      to tables, CREATE TABLE, CREATE INDEX and [cursor.execute] of a
      CREATE text ([execute_ddl]), the row semantics of INSERT and INSERT OR
      REPLACE (primary-key conflicts, NULL keys), [executemany] and
      [run_transaction] (commit or roll back).  Python's sqlite3 opens a
      transaction only before DML, so a CREATE commits as it runs: the
      model runs CREATE statements outside [run_transaction], and the
      rollback of pandas' [_execute_create] undoes nothing.  The per-row
      type check of the engine is the typeclass [Engine]; the theorems
      hold for every instance.
    - [PandasSqlite]: the three functions of the source composed from the
      above, and the end-to-end theorems.
    - [Race]: callers sharing one store.  Each call is split at the
      store operations the code issues (the catalog query of line 54,
      [table.create()]'s [exists()], each of its CREATE statements, the
      transaction of lines 59-60, [table.insert()]); a [thread] is a call at one of
      these program points, [op] its next operation, and [step] runs the
      next operation of any caller on the shared store, recording it in
      a trace.

    ** What is proved

    Statement ([Statement.Statement]):
    - printing then parsing [_InsertOrReplaceStatement] gives back an
      INSERT OR REPLACE into the table, on the columns in order, with one
      placeholder per column, whenever the names are plain identifiers
      ([_InsertOrReplaceStatement_roundtrip]);
    - a column named [a,b] is read as two columns with one placeholder,
      so the statement is rejected: the code does not quote names, while
      pandas does when it creates the table
      ([_InsertOrReplaceStatement_comma_name]).

    Frame ([Frame.FrameFacts]):
    - [_EmptyFrame] keeps one column per name, at its first position,
      with the dtype of its last occurrence ([_EmptyFrame_duplicates]);
    - [insert_data] returns the index labels then the column names
      ([insert_data_ok]), or raises when a label clashes with a column
      ([insert_data_clash]);
    - a datetime64[ns] value is bound as a text that sqlite3's converter
      reads back as the value's count of microseconds
      ([insert_data_timestamp_roundtrip]); two values of a datetime
      index are written as the same key exactly when they fall in the
      same microsecond ([insert_data_timestamp_same_key]).

    Datetime ([Datetime.Datetime]): the calendar round trip
    [days_from_civil (civil_from_days z) = z] and the validity of every
    civil date, for every integer [z] ([days_from_civil_from_days],
    [civil_from_days_valid]), proved from one 400-year era of 146097 days
    checked by evaluation ([era_check], about ten seconds of the check);
    the microsecond cast loses nothing ([us_of_datetime_of_us]); every
    datetime64[ns] value falls between the years 1600 and 2400
    ([datetime_of_ns_year]); and sqlite3 reads back exactly what its
    adapter printed ([convert_timestamp_adapt]).

    Store ([Store.Store]): the well-formedness of tables (distinct
    columns, key columns among them, rows of the right width, unique
    non-NULL keys) is kept by CREATE TABLE and by every executed row; a
    failing transaction leaves the store as it was; executing a batch with
    INSERT OR REPLACE leaves, for each key, the last row of the batch with
    that key; a NULL rowid alias gets a rowid above every one in use.
    These lemmas are stated for every [Engine] instance.

    PandasSqlite ([PandasSqlite.PandasSqlite]):
    - upsert: on an existing keyed table every key ends with the last
      record of the frame carrying it, other keys untouched
      ([InsertOrReplaceRecords_upsert]); a batch of new, distinct keys is
      appended ([InsertOrReplaceRecords_disjoint_union]); a replaced row loses the columns
      the frame lacks ([InsertOrReplaceRecords_replaces_whole_row]);
      without a key, or with a NULL key that is not the rowid alias,
      records are only appended ([InsertOrReplaceRecords_unkeyed_appends]);
      a NULL rowid alias gets the next rowid
      ([InsertOrReplaceRecords_rowid]);
    - errors: a rejected record rolls the whole batch back
      ([InsertOrReplaceRecords_atomic]); an unknown column fails before
      any write ([InsertOrReplaceRecords_unknown_column]);
    - provisioning creates exactly the requested empty table
      ([CreateTableIfNotExists_creates]) and is idempotent
      ([CreateTableIfNotExists_idempotent]);
    - legacy path: for a named index, distinct keys and columns typed by
      their dtypes it equals provisioning followed by the upsert
      ([InsertOrReplaceRecords_legacy_equivalence]); with a repeated key
      it raises but leaves the created empty table
      ([InsertOrReplaceRecords_legacy_duplicate_keys]); with an unnamed
      index the CREATE TABLE fails, because the key is written "None"
      while the column is "index"
      ([InsertOrReplaceRecords_legacy_unnamed_index]);
    - names: what pandas prints for a frame's schema and for its insert
      is parsed back by SQLite as exactly that table, those columns and
      that key, whatever characters the names hold
      ([Ddl.table_setup_roundtrip], [legacy_insert_statement_roundtrip]);
      but a table name with a blank cannot be provisioned with a key,
      since the constraint name [<name>_pk] is written bare
      ([CreateTableIfNotExists_blank_name]); an empty column name raises
      even when the table exists ([CreateTableIfNotExists_empty_column]);
      on the legacy path a table named like the index pandas adds makes
      the CREATE INDEX, and the call, fail after the CREATE TABLE has
      committed, so the empty table stays
      ([InsertOrReplaceRecords_legacy_index_clash]); and a frame with a
      column [a b] (a blank between two words) is written once by the
      legacy path, then never again by the existing-table path
      ([spaced_column_written_once]).

    Race ([Race.Race]):
    - a writer about to run the transaction of lines 59-60 finds its
      table, whatever ran since its check of line 54: no operation drops
      a table ([existing_path_table_present]);
    - two provisioners of an absent table that both pass the [exists()]
      check: the loser raises "table already exists"
      ([CreateTableIfNotExists_race]);
    - two legacy writers of an absent table that both pass the
      [exists()] check: the first creates and writes the table as it
      would alone, the loser's CREATE TABLE raises "table already
      exists" ([legacy_race_conflict]).

    Every theorem with hypotheses has a witness lemma applying it to the
    scores table of the scenario (or a variant of it with a blank in a
    column or table name), or to two callers racing on it.

    ** Engines

    [affinity_engine] (the global instance) accepts every value, as
    SQLite's type affinity does; [rowid_engine] rejects a non-integer in
    a table whose primary key is one INTEGER column, which is how SQLite
    raises "datatype mismatch".  The witnesses of the rollback and rowid
    theorems use the latter.

    ** Findings

    The statement printer does not quote names
    ([_InsertOrReplaceStatement_comma_name]); the legacy path leaves an
    empty table behind when its insert fails
    ([InsertOrReplaceRecords_legacy_duplicate_keys]); provisioning raises
    when two callers race ([CreateTableIfNotExists_race]); a NULL key of
    the scores table is not kept but replaced by a new rowid
    ([InsertOrReplaceRecords_rowid]); a table name with a blank cannot be
    given a primary key ([CreateTableIfNotExists_blank_name]), so the
    legacy path, which always keys the table, cannot create it; an empty
    column name raises even where provisioning should be a no-op
    ([CreateTableIfNotExists_empty_column]); a name a table already has
    makes the legacy CREATE INDEX fail after its CREATE TABLE has
    committed, leaving the empty table
    ([InsertOrReplaceRecords_legacy_index_clash]); racing legacy writers
    raise sqlite3's "table already exists", not pandas' ValueError
    ([legacy_race_conflict]); a frame whose column
    names need quoting is written once and then refused
    ([spaced_column_written_once]); datetime keys that differ by less
    than a microsecond are written as one key, so the upsert replaces one
    record by the other ([insert_data_timestamp_same_key]).

    ** Not modelled

    Opening and failure of the connection, SQLite's case-insensitive
    identifiers and keywords, its type affinity conversions, the random
    rowids it tries once the largest is 2^63-1, the index catalog (an
    index is checked against tables and columns, not against other
    indexes, and stores nothing), SQLite's acceptance of any word
    sequence as a type name (the parser reads the five names pandas
    prints), chunked inserts (the code uses pandas'
    default of one chunk), timezone-aware datetime blocks, datetime or
    float objects inside [object] columns (passed through as they are),
    float infinities (a float is a rational), and the forms Python's
    [int] accepts beyond plain digits (signs, blanks, underscores, which
    the texts read back never hold) are outside the model.  In [Race] every store operation is
    atomic, as SQLite serializes statements and transactions on one
    database; lock waits and timeouts are not modelled.  No fuel is
    used: every function is structurally recursive, so every definition
    computes and terminates; a schedule ([run_schedule]) is a finite
    list of steps. *)

From stdpp Require Export base list strings gmap.
From Stdlib Require Import Ascii.

(** ** The state-and-error monad

    Python code that mutates a store and may raise is a function from the
    store to a result (an exception or a value) and the store after the
    call.  On an exception the store is whatever the code left behind,
    which is what the legacy path of [InsertOrReplaceRecords] needs. *)

Definition SE (S E A : Type) : Type := S -> (E + A) * S.

Definition se_ret {S E A} (a : A) : SE S E A := fun s => (inr a, s).

Definition se_bind {S E A B} (m : SE S E A) (k : A -> SE S E B) : SE S E B :=
  fun s => match m s with
           | (inl e, s') => (inl e, s')
           | (inr a, s') => k a s'
           end.

Definition se_throw {S E A} (e : E) : SE S E A := fun s => (inl e, s).

Definition se_get {S E} : SE S E S := fun s => (inr s, s).

Definition se_put {S E} (s : S) : SE S E unit := fun _ => (inr tt, s).

Definition se_lift {S E A} (r : E + A) : SE S E A := fun s => (r, s).

(** A monadic left fold: [for x in xs: acc = f(acc, x)], stopping at the
    first exception. *)
Fixpoint se_iter {S E A} (f : A -> SE S E unit) (xs : list A) : SE S E unit :=
  match xs with
  | [] => se_ret tt
  | x :: xs' => se_bind (f x) (fun _ => se_iter f xs')
  end.

Declare Scope se_scope.
Delimit Scope se_scope with se.
Notation "'do' x <- m ; k" := (se_bind m (fun x => k))
  (at level 10, x name, m at level 100, k at level 200) : se_scope.
Notation "'ret' a" := (se_ret a) (at level 10) : se_scope.
Notation "'throw' e" := (se_throw e) (at level 10) : se_scope.

Create HintDb sqlite.
Create Rewrite HintDb sqlite_rw.

Section SE_laws.
  Context {S E : Type}.

Lemma se_bind_ok {A B} (m : SE S E A) (k : A -> SE S E B) s a s' :
    m s = (inr a, s') -> se_bind m k s = k a s'.
  Proof. intros H. unfold se_bind. by rewrite H. Qed.

Lemma se_bind_err {A B} (m : SE S E A) (k : A -> SE S E B) s e s' :
    m s = (inl e, s') -> se_bind m k s = (inl e, s').
  Proof. intros H. unfold se_bind. by rewrite H. Qed.

  (** Inversion of a bind that succeeded. *)
Lemma se_bind_inr_inv {A B} (m : SE S E A) (k : A -> SE S E B) s b s'' :
    se_bind m k s = (inr b, s'') ->
    exists a s', m s = (inr a, s') /\ k a s' = (inr b, s'').
  Proof.
    unfold se_bind. destruct (m s) as [[e|a] s'] eqn:Hm; [congruence|eauto].
  Qed.

Lemma se_iter_app {A} (f : A -> SE S E unit) xs ys s :
    se_iter f (xs ++ ys) s = se_bind (se_iter f xs) (fun _ => se_iter f ys) s.
  Proof.
    revert s. induction xs as [|x xs IH]; intros s; [done|].
    simpl. unfold se_bind. destruct (f x s) as [[e|[]] s']; [done|].
    apply IH.
  Qed.

  (** Generic invariant of a fold: a property of the state preserved by
      every successful step holds at the end, whatever the outcome. *)
Lemma se_iter_preserve {A} (P : S -> Prop) (f : A -> SE S E unit) xs s r s' :
    (forall x s0 r0 s1, P s0 -> f x s0 = (r0, s1) -> P s1) ->
    P s -> se_iter f xs s = (r, s') -> P s'.
  Proof.
    intros Hf. revert s. induction xs as [|x xs IH]; intros s Hs Hrun.
    - simpl in Hrun. unfold se_ret in Hrun. congruence.
    - simpl in Hrun. unfold se_bind in Hrun.
      destruct (f x s) as [[e|[]] s1] eqn:Hx.
      + inversion Hrun; subst. eauto.
      + eapply IH; [eapply Hf; eauto|exact Hrun].
  Qed.
End SE_laws.

#[export] Hint Resolve se_bind_ok se_bind_err : sqlite.

(** [se_unfold] unfolds the monad's operations in the goal and the hypotheses. *)
Ltac se_unfold :=
  unfold se_bind, se_ret, se_throw, se_get, se_put, se_lift in *.

(** [decide_concrete] proves a decidable proposition about closed data by
    evaluating its decision procedure. *)
Ltac decide_concrete := apply (bool_decide_unpack _); vm_compute; exact I.

(** ** Association lists keyed by strings

    The code keys columns by name; the SQLite store stores a row as the
    list of its values in column order, and reads column [c] of a row by
    the position of [c] among the column names. *)

Section Assoc.
  Context {K : Type} `{!EqDecision K} {A : Type}.

  (** Value at the first position of [k] among [ks]; [d] when absent. *)
Fixpoint assoc_get (d : A) (ks : list K) (vs : list A) (k : K) : A :=
    match ks, vs with
    | k' :: ks', v :: vs' => if decide (k' = k) then v else assoc_get d ks' vs' k
    | _, _ => d
    end.

  (** Replace the value bound to [k] in place, or append the binding:
      Python's [d[k] = v] on an insertion-ordered mapping. *)
Fixpoint assoc_set (k : K) (v : A) (l : list (K * A)) : list (K * A) :=
    match l with
    | [] => [(k, v)]
    | (k', v') :: l' => if decide (k' = k) then (k, v) :: l' else (k', v') :: assoc_set k v l'
    end.

Lemma assoc_set_keys_in k v l :
    k ∈ l.*1 -> (assoc_set k v l).*1 = l.*1.
  Proof.
    induction l as [|[k' v'] l IH]; csimpl; [set_solver|].
    intros Hin. case_decide; subst; csimpl; [done|].
    rewrite IH; [done|]. rewrite elem_of_cons in Hin; destruct Hin; congruence.
  Qed.

Lemma assoc_set_keys_notin k v l :
    k ∉ l.*1 -> (assoc_set k v l).*1 = l.*1 ++ [k].
  Proof.
    induction l as [|[k' v'] l IH]; csimpl; [done|].
    intros Hin. case_decide; subst; [set_solver|]. csimpl. rewrite IH; set_solver.
  Qed.

Lemma assoc_set_notin k v l :
    k ∉ l.*1 -> assoc_set k v l = l ++ [(k, v)].
  Proof.
    induction l as [|[k' v'] l IH]; csimpl; [done|].
    intros Hin. case_decide; subst; [set_solver|]. rewrite IH; set_solver.
  Qed.

  (** The value bound to [k], first binding first. *)
Fixpoint assoc_find (k : K) (l : list (K * A)) : option A :=
    match l with
    | [] => None
    | (k', v') :: l' => if decide (k' = k) then Some v' else assoc_find k l'
    end.

Lemma assoc_find_set k v l k' :
    assoc_find k' (assoc_set k v l) = if decide (k = k') then Some v else assoc_find k' l.
  Proof.
    induction l as [|[k1 v1] l IH]; simpl; [done|].
    repeat case_decide; subst; simpl; try case_decide; congruence.
  Qed.

Lemma assoc_set_NoDup k v l :
    NoDup l.*1 -> NoDup (assoc_set k v l).*1.
  Proof.
    intros Hnd. destruct (decide (k ∈ l.*1)).
    - by rewrite assoc_set_keys_in.
    - rewrite assoc_set_keys_notin by done.
      apply NoDup_app. split_and!; [done| |apply NoDup_singleton]. set_solver.
  Qed.
  (** Reading every key of a duplicate-free key list gives the values back. *)
Lemma assoc_get_self d ks vs :
    NoDup ks -> length vs = length ks -> (assoc_get d ks vs <$> ks) = vs.
  Proof.
    revert vs. induction ks as [|k ks IH]; intros [|v vs] Hnd Hlen; try done.
    apply NoDup_cons in Hnd as [Hk Hnd]. csimpl. rewrite decide_True by done. f_equal.
    transitivity (assoc_get d ks vs <$> ks); [|apply IH; [done|by injection Hlen]].
    apply list_fmap_ext. intros i k' Hk'. simpl. rewrite decide_False; [done|].
    intros ->. apply Hk. by eapply list_elem_of_lookup_2.
  Qed.
End Assoc.

Lemma zip_fmap_same {A B C} (f : A -> B) (g : A -> C) (l : list A) :
  zip (f <$> l) (g <$> l) = (fun x => (f x, g x)) <$> l.
Proof. induction l as [|x l IH]; csimpl; [done|by rewrite IH]. Qed.

(** An indexed map that ignores the index on the list it is applied to. *)
Lemma imap_on {A B} (f : nat -> A -> B) (g : A -> B) (l : list A) :
  (forall i x, x ∈ l -> f i x = g x) -> imap f l = g <$> l.
Proof.
  revert f. induction l as [|x l IH]; intros f Hf; [done|].
  rewrite imap_cons. csimpl. rewrite Hf by set_solver. f_equal.
  apply IH. intros i y Hy. apply Hf. set_solver.
Qed.

(** The first element of a list that fails a decidable test. *)
Lemma not_Forall_first {A} (P : A -> Prop) `{!forall x, Decision (P x)} (l : list A) :
  ~ Forall P l -> exists pre x post, l = pre ++ x :: post /\ Forall P pre /\ ~ P x.
Proof.
  induction l as [|x l IH]; intros Hl; [by destruct Hl|].
  destruct (decide (P x)) as [Hx|Hx].
  - destruct IH as (pre & y & post & -> & Hpre & Hy).
    { intros Hall. apply Hl. by constructor. }
    exists (x :: pre), y, post. split_and!; [done|by constructor|done].
  - by exists [], x, l.
Qed.

#[export] Hint Resolve assoc_set_NoDup : sqlite.

(** Renaming the values of an association list keeps its keys. *)
Lemma fst_map_pair {K A B} (g : A -> B) (l : list (K * A)) :
  ((fun p => (p.1, g p.2)) <$> l).*1 = l.*1.
Proof. induction l as [|[k a] l IH]; csimpl; [done|by rewrite IH]. Qed.

Lemma fst_map_pair_dep {K A B} (g : K * A -> B) (l : list (K * A)) :
  ((fun p => (p.1, g p)) <$> l).*1 = l.*1.
Proof. induction l as [|[k a] l IH]; csimpl; [done|by rewrite IH]. Qed.

#[export] Hint Rewrite @fst_map_pair @fst_map_pair_dep : sqlite_rw.

(** A filter that keeps nothing, and one that keeps what another keeps. *)
Lemma filter_none {A} (P : A -> Prop) `{!forall x, Decision (P x)} (l : list A) :
  (forall x, x ∈ l -> ~ P x) -> filter P l = [].
Proof.
  induction l as [|x l IH]; intros Hl; [done|].
  rewrite filter_cons_False by set_solver. apply IH. set_solver.
Qed.

Lemma filter_ext_in {A} (P Q : A -> Prop) `{!forall x, Decision (P x), !forall x, Decision (Q x)}
    (l : list A) :
  (forall x, x ∈ l -> P x <-> Q x) -> filter P l = filter Q l.
Proof.
  induction l as [|x l IH]; intros Hl; [done|]. rewrite !filter_cons.
  rewrite IH by set_solver. destruct (decide (P x)), (decide (Q x)); set_solver.
Qed.

Lemma filter_all {A} (P : A -> Prop) `{!forall x, Decision (P x)} (l : list A) :
  (forall x, x ∈ l -> P x) -> filter P l = l.
Proof.
  induction l as [|x l IH]; intros Hl; [done|].
  rewrite filter_cons_True by set_solver. f_equal. apply IH. set_solver.
Qed.

Lemma Forall_filter_l {A} (P : A -> Prop) (Q : A -> Prop) `{!forall x, Decision (Q x)} l :
  Forall P l -> Forall P (filter Q l).
Proof. intros Hl. apply Forall_forall. intros x (_ & Hx)%list_elem_of_filter. by eapply Forall_forall. Qed.

Lemma existsb_false_Forall {A} (f : A -> bool) l : existsb f l = false <-> Forall (fun x => f x = false) l.
Proof. induction l as [|x l IH]; simpl; [split; [constructor|done]|]. by rewrite orb_false_iff, Forall_cons, IH. Qed.

(** Two elements a filter keeps, when it keeps at most one, are equal. *)
Lemma filter_at_most_one {A} (P : A -> Prop) `{!forall x, Decision (P x)} (l : list A) x y :
  length (filter P l) <= 1 -> x ∈ l -> y ∈ l -> P x -> P y -> x = y.
Proof.
  intros Hlen Hx Hy Px Py.
  assert (x ∈ filter P l) as Hx' by (apply list_elem_of_filter; done).
  assert (y ∈ filter P l) as Hy' by (apply list_elem_of_filter; done).
  destruct (filter P l) as [|a [|b l']]; simpl in *; [set_solver|set_solver|lia].
Qed.

(** The sum of a list after one element is replaced. *)
Lemma sum_list_insert (l : list nat) i x y :
  l !! i = Some x -> sum_list (<[i := y]> l) + x = sum_list l + y.
Proof.
  revert i. induction l as [|a l IH]; intros [|i] Hi; simplify_eq/=; [lia|].
  specialize (IH i Hi). lia.
Qed.

(** ** Strings *)

(** A decimal digit, as Python's [str.isdigit] and SQLite's tokenizer
    read ASCII text. *)
Definition is_digit (c : ascii) : bool :=
  let n := nat_of_ascii c in (48 <=? n) && (n <=? 57).

Lemma string_app_cons x (a b : string) : String x a +:+ b = String x (a +:+ b).
Proof. reflexivity. Qed.

Lemma string_app_assoc (a b c : string) : (a +:+ b) +:+ c = a +:+ (b +:+ c).
Proof. induction a as [|x a IH]; [done|]. rewrite !string_app_cons. by rewrite IH. Qed.

Lemma string_app_nil_r (a : string) : a +:+ "" = a.
Proof. induction a as [|x a IH]; [done|]. rewrite string_app_cons. by rewrite IH. Qed.

Lemma string_length_app (a b : string) : String.length (a +:+ b) = String.length a + String.length b.
Proof. induction a as [|x a IH]; [done|]. rewrite string_app_cons. simpl. by rewrite IH. Qed.

#[export] Hint Rewrite string_app_cons string_app_assoc string_app_nil_r : sqlite_rw.

(** ** The error monad of pure Python code

    A pure function that may raise returns [inl e] or [inr v]; stdpp's
    [x ← m; k] and [mapM] then read like the Python that raises at the
    first failing call. *)

#[export] Instance sum_mret {E} : MRet (sum E) := fun _ a => inr a.
#[export] Instance sum_mbind {E} : MBind (sum E) :=
  fun _ _ f m => match m with inl e => inl e | inr a => f a end.

Section SumMonad.
Context {E A B : Type}.

Lemma sum_bind_inr (m : E + A) (k : A -> E + B) a : m = inr a -> (x ← m; k x) = k a.
Proof. by intros ->. Qed.

Lemma sum_bind_inl (m : E + A) (k : A -> E + B) e : m = inl e -> (x ← m; k x) = inl e.
Proof. by intros ->. Qed.

(** [mapM] over a list on which [f] never raises. *)
Lemma mapM_sum_ok (f : A -> E + B) (g : A -> B) (l : list A) :
  Forall (fun x => f x = inr (g x)) l -> mapM f l = inr (g <$> l).
Proof. induction 1 as [|x l Hx _ IH]; [done|]. simpl. by rewrite Hx, IH. Qed.

(** What [mapM] returns when [f] can only return [g x]. *)
Lemma mapM_sum_inr_eq (f : A -> E + B) (g : A -> B) (l : list A) l' :
  (forall x y, f x = inr y -> y = g x) -> mapM f l = inr l' -> l' = g <$> l.
Proof.
  intros Hf. revert l'. induction l as [|x l IH]; intros l'; simpl; [by intros [= <-]|].
  destruct (f x) as [e|b] eqn:Hx; simpl; [done|].
  destruct (mapM f l) as [e|bs] eqn:Hl; simpl; [done|]. intros [= <-].
  by rewrite (Hf _ _ Hx), (IH bs).
Qed.

(** [mapM] raises the exception of the first element that raises. *)
Lemma mapM_sum_first_inl (f : A -> E + B) l1 x l2 e :
  Forall (fun y => exists b, f y = inr b) l1 -> f x = inl e -> mapM f (l1 ++ x :: l2) = inl e.
Proof. intros Hl Hx. induction Hl as [|y l1 [b Hy] _ IH]; simpl; [by rewrite Hx|]. by rewrite Hy; simpl; rewrite IH. Qed.

(** [mapM] raises the exception of an element of the list. *)
Lemma mapM_sum_inl (f : A -> E + B) (l : list A) e :
  mapM f l = inl e -> Exists (fun x => f x = inl e) l.
Proof.
  induction l as [|x l IH]; [done|]. simpl.
  destruct (f x) as [e'|b] eqn:Hx; simpl; [intros [= ->]; by left|].
  destruct (mapM f l) as [e'|bs]; simpl; [intros [= ->]; right; by apply IH|done].
Qed.
End SumMonad.
