(* ===== verification/Values.v ===== *)
(** Values, types and exceptions shared by the pandas and SQLite models.

    A cell holds what Python's sqlite3 module hands to SQLite: [None]
    (NULL), an [int], a [float] (a rational here) or a [str].  pandas
    dtypes are the semantic types of the spec (integer, floating, text,
    boolean, datetime); SQLite column types are the names pandas writes in
    CREATE TABLE.  Exceptions are the Python exceptions the code can
    raise: pandas' [ValueError]s and sqlite3's errors. *)

From Stdlib Require Import ZArith QArith.
From S2P Require Import Prelude.

(** A value a frame holds (numpy's NaN, NaT and datetime64 included) or
    sqlite3 binds. *)
Inductive value :=
  | VNull
  | VInt (z : Z)
  | VReal (q : Q)
  | VText (s : string)
  | VNaN             (* numpy's float NaN: pandas' missing value in float and object columns *)
  | VNaT             (* numpy's NaT: the missing datetime64 *)
  | VStamp (ns : Z). (* a numpy datetime64[ns]: nanoseconds since 1970-01-01 *)

#[export] Instance Q_eq_dec : EqDecision Q.
Proof. intros [n1 d1] [n2 d2]. solve_decision. Defined.

#[export] Instance value_eq_dec : EqDecision value.
Proof. solve_decision. Defined.

Definition is_null (v : value) : bool :=
  match v with VNull => true | _ => false end.

(** [pandas.isna]: [None], [NaN] and [NaT]. *)
Definition is_na (v : value) : bool :=
  match v with VNull | VNaN | VNaT => true | _ => false end.

(** numpy dtypes of the series the code builds ([int64], [float64],
    [object] for strings, [bool], [datetime64[ns]]). *)
Inductive dtype := Int64 | Float64 | Object | Bool | Datetime64.

#[export] Instance dtype_eq_dec : EqDecision dtype.
Proof. solve_decision. Defined.

(** The column types pandas' SQLite backend writes ([_SQL_TYPES]). *)
Inductive sql_type := TEXT | REAL | INTEGER | TIMESTAMP.

#[export] Instance sql_type_eq_dec : EqDecision sql_type.
Proof. solve_decision. Defined.

(** The errors SQLite reports, with the arguments of its messages. *)
Inductive sqlite_error :=
  | SyntaxError                               (* near "...": syntax error *)
  | NoSuchTable (t : string)                  (* no such table: t *)
  | TableAlreadyExists (t : string)           (* table t already exists *)
  | DuplicateColumnName (c : string)          (* duplicate column name: c *)
  | NoColumnNamed (t c : string)              (* table t has no column named c *)
  | ValuesForColumns (nvals ncols : nat)      (* nvals values for ncols columns *)
  | UniqueFailed (t : string)                 (* UNIQUE constraint failed *)
  | DatatypeMismatch                          (* datatype mismatch *)
  | Full                                      (* database or disk is full *)
  | NoSuchColumn (c : string)                 (* no such column: c *)
  | TableNamed (t : string)                   (* there is already a table named t *)
  | IncorrectBindings (used supplied : nat).  (* Incorrect number of bindings *)

#[export] Instance sqlite_error_eq_dec : EqDecision sqlite_error.
Proof. solve_decision. Defined.

(** Exceptions reaching the caller of the helper. *)
Inductive exn :=
  | SqliteError (e : sqlite_error)
  | TableExistsError (t : string)      (* ValueError: Table 't' already exists. *)
  | CannotInsertError (c : string)     (* ValueError: cannot insert c, already exists *)
  | EmptyNameError                     (* ValueError: Empty table or column name specified *)
  | NulNameError.                      (* ValueError: SQLite identifier cannot contain NULs *)

#[export] Instance exn_eq_dec : EqDecision exn.
Proof. solve_decision. Defined.
