(* ===== verification/Datetime.v ===== *)
(** Timestamps on their way from a datetime64 column to SQLite.

    [SQLiteTable.insert_data()] casts a datetime64[ns] block to
    microseconds and to Python [datetime.datetime] objects; sqlite3's
    default adapter binds each of them as [isoformat(' ')], the text
    [YYYY-MM-DD HH:MM:SS] followed by [.ffffff] when the microseconds are
    not zero; sqlite3's [TIMESTAMP] converter reads such a text back.
    This file models the three steps on integers and strings:

    - the proleptic Gregorian calendar of [datetime], as days counted from
      1970-01-01 ([civil_from_days], [days_from_civil]);
    - a [datetime.datetime] as a record of its seven fields, the range
      checks of its constructor ([valid_datetime]), the conversion from
      microseconds since the epoch ([datetime_of_us], numpy's cast) and
      back ([us_of_datetime], [datetime - epoch]);
    - [isoformat] with its zero-padded fields, and [convert_timestamp],
      the converter of [sqlite3/dbapi2.py], over Python's [bytes.split]
      and [int].

    The calendar is proved by splitting a day number into 400-year eras
    of 146097 days and checking one era by evaluation ([era_check]); the
    theorems then hold for every integer.  The round trips show that a
    valid datetime is printed and read back as itself, and that the
    microsecond count survives the trip. *)

From Stdlib Require Import ZArith Ascii.
From S2P Require Import Prelude.

Module Datetime.

Local Open Scope Z_scope.

(** ** The calendar *)

Definition is_leap (y : Z) : bool :=
  ((y mod 4 =? 0) && negb (y mod 100 =? 0)) || (y mod 400 =? 0).

Definition days_in_month (y m : Z) : Z :=
  if m =? 2 then (if is_leap y then 29 else 28)
  else if (m =? 4) || (m =? 6) || (m =? 9) || (m =? 11) then 30 else 31.

(** The civil date of a day number: the day is split into a 400-year
    era and its day of era [doe]; the year of era, day of year and month
    follow, counting years from March so that the leap day comes last. *)
Definition civil_from_days (z : Z) : Z * Z * Z :=
  let z := z + 719468 in
  let era := z / 146097 in
  let doe := z - era * 146097 in
  let yoe := (doe - doe / 1460 + doe / 36524 - doe / 146096) / 365 in
  let doy := doe - (365 * yoe + yoe / 4 - yoe / 100) in
  let mp := (5 * doy + 2) / 153 in
  let d := doy - (153 * mp + 2) / 5 + 1 in
  let m := if mp <? 10 then mp + 3 else mp - 9 in
  ((if m <=? 2 then yoe + era * 400 + 1 else yoe + era * 400), m, d).

(** The day number of a civil date. *)
Definition days_from_civil (y m d : Z) : Z :=
  let y := if m <=? 2 then y - 1 else y in
  let era := y / 400 in
  let yoe := y - era * 400 in
  let mp := if 2 <? m then m - 3 else m + 9 in
  let doy := (153 * mp + 2) / 5 + d - 1 in
  let doe := yoe * 365 + yoe / 4 - yoe / 100 + doy in
  era * 146097 + doe - 719468.

(** What [civil_from_days] must satisfy on each day of an era: the year
    of era is one of 400, the day of year one of 366, and the day is a
    day of its month. *)
Definition era_day_ok (doe : Z) : bool :=
  let yoe := (doe - doe / 1460 + doe / 36524 - doe / 146096) / 365 in
  let doy := doe - (365 * yoe + yoe / 4 - yoe / 100) in
  let mp := (5 * doy + 2) / 153 in
  let d := doy - (153 * mp + 2) / 5 + 1 in
  let m := if mp <? 10 then mp + 3 else mp - 9 in
  (0 <=? yoe) && (yoe <=? 399) && (0 <=? doy) && (doy <=? 365) &&
  (1 <=? d) && (d <=? days_in_month (if m <=? 2 then yoe + 1 else yoe) m).

(** [f] holds on [x .. x+n-1]: the day is carried as a [Z] next to the
    fuel, and the recursive call is a tail call, so that the check runs
    in linear time and constant stack. *)
Fixpoint check_from (n : nat) (x : Z) (f : Z -> bool) : bool :=
  match n with
  | O => true
  | S n' => if f x then check_from n' (x + 1) f else false
  end.

Section Calendar.

Lemma check_from_spec n x f : check_from n x f = true -> forall y, x <= y < x + Z.of_nat n -> f y = true.
Proof.
  revert x. induction n as [|n IH]; intros x; simpl; [lia|]. destruct (f x) eqn:Hf; [|done].
  intros Hn y Hy. destruct (decide (y = x)) as [->|]; [done|]. apply (IH (x + 1)); [done|lia].
Qed.

(** The one era, checked by evaluation. *)
Lemma era_check : check_from (Z.to_nat 146097) 0 era_day_ok = true.
Proof. vm_compute. reflexivity. Qed.

Lemma era_day_ok_all doe : 0 <= doe < 146097 -> era_day_ok doe = true.
Proof. intros Hd. apply (check_from_spec _ _ _ era_check). lia. Qed.

Lemma is_leap_era y k : is_leap (y + k * 400) = is_leap y.
Proof.
  unfold is_leap.
  replace (y + k * 400) with (y + (k * 100) * 4) by lia. rewrite Z.mod_add by lia.
  replace (y + k * 100 * 4) with (y + (k * 4) * 100) by lia. rewrite Z.mod_add by lia.
  replace (y + k * 4 * 100) with (y + k * 400) by lia. by rewrite Z.mod_add by lia.
Qed.

Lemma days_in_month_le y m : days_in_month y m <= 31.
Proof. unfold days_in_month. repeat case_match; lia. Qed.

Lemma days_in_month_era y k m : days_in_month (y + k * 400) m = days_in_month y m.
Proof. unfold days_in_month. by rewrite is_leap_era. Qed.

(** The decomposition of a day number into its era and day of era. *)
Lemma era_split z :
  let era := (z + 719468) / 146097 in
  0 <= z + 719468 - era * 146097 < 146097.
Proof. simpl. pose proof (Z.mod_pos_bound (z + 719468) 146097). rewrite Zmod_eq_full in *; lia. Qed.

Lemma month_index_range doy : 0 <= doy <= 365 -> 0 <= (5 * doy + 2) / 153 <= 11.
Proof. intros. split; [apply Z.div_pos; lia|]. apply Z.lt_succ_r, Z.div_lt_upper_bound; lia. Qed.

(** What the check gives on one day of an era. *)
Lemma era_day_ok_spec doe :
  era_day_ok doe = true ->
  let yoe := (doe - doe / 1460 + doe / 36524 - doe / 146096) / 365 in
  let doy := doe - (365 * yoe + yoe / 4 - yoe / 100) in
  let mp := (5 * doy + 2) / 153 in
  let d := doy - (153 * mp + 2) / 5 + 1 in
  let m := if mp <? 10 then mp + 3 else mp - 9 in
  0 <= yoe <= 399 /\ 0 <= doy <= 365 /\ 0 <= mp <= 11 /\
  1 <= d <= days_in_month (if m <=? 2 then yoe + 1 else yoe) m.
Proof.
  unfold era_day_ok. cbv zeta.
  set (yoe := (doe - doe / 1460 + doe / 36524 - doe / 146096) / 365).
  set (doy := doe - (365 * yoe + yoe / 4 - yoe / 100)).
  intros Hok. rewrite !andb_true_iff, !Z.leb_le in Hok. destruct Hok as (((((? & ?) & ?) & ?) & ?) & ?).
  pose proof (month_index_range doy). split_and!; lia.
Qed.

(** Unfolds [civil_from_days z] into its era, day of era, year of era,
    day of year and month index, with their ranges. *)
Ltac civil_split z :=
  unfold civil_from_days; cbv zeta;
  let era := fresh "era" in let doe := fresh "doe" in
  let yoe := fresh "yoe" in let doy := fresh "doy" in let mp := fresh "mp" in
  set (era := (z + 719468) / 146097);
  set (doe := z + 719468 - era * 146097);
  pose proof (era_split z) as ?Hdoe; fold era doe in Hdoe;
  pose proof (era_day_ok_spec doe (era_day_ok_all doe Hdoe)) as ?Hspec; cbv zeta in Hspec;
  set (yoe := (doe - doe / 1460 + doe / 36524 - doe / 146096) / 365) in *;
  set (doy := doe - (365 * yoe + yoe / 4 - yoe / 100)) in *;
  set (mp := (5 * doy + 2) / 153) in *;
  destruct (Z.ltb_spec mp 10).

(** The calendar round trip: every day number is the day number of its
    civil date. *)
Lemma days_from_civil_from_days z :
  let '(y, m, d) := civil_from_days z in days_from_civil y m d = z.
Proof.
  civil_split z; destruct Hspec as (Hyoe & Hdoy & Hmp & _); unfold days_from_civil; cbv zeta.
  - rewrite (proj2 (Z.leb_gt (mp + 3) 2)), (proj2 (Z.ltb_lt 2 (mp + 3))) by lia.
    rewrite Z.div_add, (Z.div_small yoe 400), Z.add_0_l by lia.
    replace (yoe + era * 400 - era * 400) with yoe by lia. replace (mp + 3 - 3) with mp by lia. lia.
  - rewrite (proj2 (Z.leb_le (mp - 9) 2)), (proj2 (Z.ltb_ge 2 (mp - 9))) by lia.
    replace (yoe + era * 400 + 1 - 1) with (yoe + era * 400) by lia.
    rewrite Z.div_add, (Z.div_small yoe 400), Z.add_0_l by lia.
    replace (yoe + era * 400 - era * 400) with yoe by lia. replace (mp - 9 + 9) with mp by lia. lia.
Qed.

(** The civil date is a date: a month of the year and a day of that
    month. *)
Lemma civil_from_days_valid z :
  let '(y, m, d) := civil_from_days z in 1 <= m <= 12 /\ 1 <= d <= days_in_month y m.
Proof.
  civil_split z; destruct Hspec as (Hyoe & Hdoy & Hmp & Hd).
  - rewrite (proj2 (Z.leb_gt (mp + 3) 2)) in * by lia. rewrite days_in_month_era. lia.
  - rewrite (proj2 (Z.leb_le (mp - 9) 2)) in * by lia.
    replace (yoe + era * 400 + 1) with (yoe + 1 + era * 400) by lia. rewrite days_in_month_era. lia.
Qed.

(** The year lies in the era of the day. *)
Lemma civil_from_days_year z :
  let '(y, _, _) := civil_from_days z in
  (z + 719468) / 146097 * 400 <= y <= (z + 719468) / 146097 * 400 + 400.
Proof. civil_split z; destruct Hspec as (Hyoe & _); case_match; lia. Qed.

End Calendar.

(** ** [datetime.datetime] *)

Record pydatetime := PyDatetime {
  year : Z; month : Z; day : Z; hour : Z; minute : Z; second : Z; microsecond : Z
}.

#[export] Instance pydatetime_eq_dec : EqDecision pydatetime.
Proof. solve_decision. Defined.

(** The checks of the constructor [datetime.datetime(...)], which raises
    [ValueError] when one fails. *)
Definition valid_datetime (d : pydatetime) : bool :=
  (1 <=? year d) && (year d <=? 9999) && (1 <=? month d) && (month d <=? 12) &&
  (1 <=? day d) && (day d <=? days_in_month (year d) (month d)) &&
  (0 <=? hour d) && (hour d <? 24) && (0 <=? minute d) && (minute d <? 60) &&
  (0 <=? second d) && (second d <? 60) && (0 <=? microsecond d) && (microsecond d <? 1000000).

Definition us_per_day : Z := 86400000000.

(** A count of microseconds since 1970-01-01 00:00 as a
    [datetime.datetime]: numpy's cast of a datetime64[us] value to
    [object]. *)
Definition datetime_of_us (us : Z) : pydatetime :=
  let '(y, m, d) := civil_from_days (us / us_per_day) in
  let r := us mod us_per_day in
  PyDatetime y m d (r / 3600000000) (r / 60000000 mod 60) (r / 1000000 mod 60) (r mod 1000000).

(** [(d - datetime(1970, 1, 1)) // timedelta(microseconds=1)]. *)
Definition us_of_datetime (d : pydatetime) : Z :=
  days_from_civil (year d) (month d) (day d) * us_per_day
  + hour d * 3600000000 + minute d * 60000000 + second d * 1000000 + microsecond d.

Section Conversion.

(** The cast loses nothing: the datetime is [us] microseconds after the
    epoch. *)
Lemma us_of_datetime_of_us u : us_of_datetime (datetime_of_us u) = u.
Proof.
  unfold datetime_of_us, us_of_datetime. pose proof (days_from_civil_from_days (u / us_per_day)) as Hc.
  destruct (civil_from_days (u / us_per_day)) as [[y m] d]. cbn [year month day hour minute second microsecond].
  rewrite Hc. unfold us_per_day. Z.to_euclidean_division_equations. lia.
Qed.

(** Its fields are in range, so [datetime.datetime] accepts them, as soon
    as the year is one Python has. *)
Lemma datetime_of_us_valid u :
  1 <= year (datetime_of_us u) <= 9999 -> valid_datetime (datetime_of_us u) = true.
Proof.
  unfold datetime_of_us. pose proof (civil_from_days_valid (u / us_per_day)) as Hv.
  destruct (civil_from_days (u / us_per_day)) as [[y m] d]. cbn [year month day hour minute second microsecond].
  intros Hy. unfold valid_datetime. cbn [year month day hour minute second microsecond].
  unfold us_per_day. repeat rewrite ?andb_true_iff, ?Z.leb_le, ?Z.ltb_lt.
  Z.to_euclidean_division_equations. split_and!; lia.
Qed.

(** A datetime64[ns] value (an int64, [NaT] excepted) cast to
    microseconds falls between 1600 and 2400. *)
Lemma datetime_of_ns_year ns :
  - 2 ^ 63 < ns < 2 ^ 63 -> 1600 <= year (datetime_of_us (ns / 1000)) <= 2400.
Proof.
  intros Hns. unfold datetime_of_us. pose proof (civil_from_days_year (ns / 1000 / us_per_day)) as Hy.
  destruct (civil_from_days (ns / 1000 / us_per_day)) as [[y m] d]. cbn [year].
  assert (4 <= (ns / 1000 / us_per_day + 719468) / 146097 <= 5); [|lia].
  unfold us_per_day. Z.to_euclidean_division_equations. lia.
Qed.

End Conversion.

(** ** The text: [isoformat] and sqlite3's converter *)

Definition digit_char (n : Z) : ascii := ascii_of_nat (48 + Z.to_nat n).
Definition digit_val (c : ascii) : Z := Z.of_nat (nat_of_ascii c) - 48.

Fixpoint pad_go (w : nat) (n : Z) (acc : string) : string :=
  match w with
  | O => acc
  | S w' => pad_go w' (n / 10) (String (digit_char (n mod 10)) acc)
  end.

(** ['%0<w>d' % n] for [0 <= n < 10 ^ w]: the [w] last decimal digits
    of [n]. *)
Definition pad (w : nat) (n : Z) : string := pad_go w n EmptyString.

(** [d.isoformat(sep)]: the date, the separator, the time, and the
    microseconds only when they are not zero. *)
Definition isoformat (sep : ascii) (d : pydatetime) : string :=
  let date := pad 4 (year d) +:+ String "-" (pad 2 (month d) +:+ String "-" (pad 2 (day d))) in
  let time := pad 2 (hour d) +:+ String ":" (pad 2 (minute d) +:+ String ":" (pad 2 (second d))) in
  date +:+ String sep (time +:+ if microsecond d =? 0 then EmptyString
                                else String "." (pad 6 (microsecond d))).

(** sqlite3's default adapter: [adapt_datetime(val) = val.isoformat(' ')]. *)
Definition adapt_datetime (d : pydatetime) : string := isoformat " " d.

(** [s.split(c)]: the pieces between the separators, empty ones
    included. *)
Fixpoint split_on (c : ascii) (s : string) : list string :=
  match s with
  | EmptyString => [EmptyString]
  | String x s' =>
      let rest := split_on c s' in
      if bool_decide (x = c) then EmptyString :: rest
      else match rest with
           | p :: ps => String x p :: ps
           | [] => [String x EmptyString]
           end
  end.

Fixpoint digits_go (s : string) (acc : Z) : option Z :=
  match s with
  | EmptyString => Some acc
  | String c s' => if is_digit c then digits_go s' (acc * 10 + digit_val c) else None
  end.

(** [int(s)] on a non-empty string of decimal digits; the signs, blanks
    and underscores [int] also accepts are refused (they never occur in
    the texts read here). *)
Definition py_int (s : string) : option Z :=
  match s with EmptyString => None | _ => digits_go s 0 end.

Fixpoint zeros (n : nat) : string :=
  match n with O => EmptyString | S n' => String "0" (zeros n') end.

(** ['{:0<6.6}'.format(s)]: the first six characters, padded on the right
    with zeros. *)
Definition frac6 (s : string) : string :=
  let t := String.substring 0 6 s in t +:+ zeros (6 - String.length t)%nat.

(** [convert_timestamp(val)] of [sqlite3/dbapi2.py]: [None] where the
    Python raises [ValueError]. *)
Definition convert_timestamp (val : string) : option pydatetime :=
  match split_on " " val with
  | [datepart; timepart] =>
      match split_on "-" datepart with
      | [ys; mos; ds] =>
          y ← py_int ys; mo ← py_int mos; d ← py_int ds;
          match split_on "." timepart with
          | [] => None
          | hms :: frac =>
              match split_on ":" hms with
              | [hs; mis; ss] =>
                  h ← py_int hs; mi ← py_int mis; sec ← py_int ss;
                  us ← (match frac with [f] => py_int (frac6 f) | _ => Some 0 end);
                  let dt := PyDatetime y mo d h mi sec us in
                  if valid_datetime dt then Some dt else None
              | _ => None
              end
          end
      | _ => None
      end
  | _ => None
  end.

(** Whether a character occurs in a string. *)
Fixpoint has_char (c : ascii) (s : string) : bool :=
  match s with
  | EmptyString => false
  | String x s' => bool_decide (x = c) || has_char c s'
  end.

Section Text.

Lemma digit_char_val k : 0 <= k < 10 -> is_digit (digit_char k) = true /\ digit_val (digit_char k) = k.
Proof.
  intros Hk. assert (k = 0 \/ k = 1 \/ k = 2 \/ k = 3 \/ k = 4 \/ k = 5 \/ k = 6 \/ k = 7 \/ k = 8 \/ k = 9)
    as Hk' by lia.
  repeat (destruct Hk' as [->|Hk']; [done|]). by subst.
Qed.

Lemma pad_go_app w n acc : pad_go w n acc = pad w n +:+ acc.
Proof.
  unfold pad. revert n acc. induction w as [|w IH]; intros n acc; [done|]. simpl.
  rewrite (IH _ (String _ acc)), (IH _ (String _ EmptyString)). by rewrite string_app_assoc.
Qed.

Lemma pad_go_length w n acc : String.length (pad_go w n acc) = (w + String.length acc)%nat.
Proof. revert n acc. induction w as [|w IH]; intros n acc; [done|]. simpl. rewrite IH. simpl. lia. Qed.

Lemma pad_length w n : String.length (pad w n) = w.
Proof. unfold pad. rewrite pad_go_length. simpl. lia. Qed.

Lemma has_char_app c a b : has_char c (a +:+ b) = has_char c a || has_char c b.
Proof. induction a as [|x a IH]; [done|]. rewrite string_app_cons. cbn [has_char]. by rewrite IH, orb_assoc. Qed.

(** A field is digits only, so it holds no separator. *)
Lemma has_char_pad c w n : is_digit c = false -> has_char c (pad w n) = false.
Proof.
  intros Hc. revert n. induction w as [|w IH]; intros n; [done|].
  unfold pad. cbn [pad_go]. rewrite pad_go_app, has_char_app, IH. cbn [has_char orb].
  apply orb_false_iff. split; [|done]. apply bool_decide_eq_false_2. intros Heq.
  destruct (digit_char_val (n mod 10)) as [Hd _]; [apply Z.mod_pos_bound; lia|]. congruence.
Qed.

Lemma split_on_free c s : has_char c s = false -> split_on c s = [s].
Proof.
  induction s as [|x s IH]; [done|]. cbn [has_char split_on]. intros [Hx Hs]%orb_false_iff.
  by rewrite IH, Hx by done.
Qed.

Lemma split_on_app c a b : has_char c a = false -> split_on c (a +:+ String c b) = a :: split_on c b.
Proof.
  induction a as [|x a IH].
  - cbn [split_on]. change (EmptyString +:+ String c b) with (String c b). cbn [split_on].
    by rewrite bool_decide_eq_true_2.
  - rewrite string_app_cons. cbn [has_char split_on]. intros [Hx Ha]%orb_false_iff. by rewrite IH, Hx.
Qed.

Lemma digits_go_pad w n s a :
  digits_go (pad w n +:+ s) a = digits_go s (a * 10 ^ Z.of_nat w + n mod 10 ^ Z.of_nat w).
Proof.
  revert n s a. induction w as [|w IH]; intros n s a.
  - change (pad 0 n +:+ s) with s. rewrite Z.pow_0_r. by rewrite Z.mul_1_r, Z.mod_1_r, Z.add_0_r.
  - unfold pad. cbn [pad_go]. rewrite pad_go_app, string_app_assoc, IH.
    change (String (digit_char (n mod 10)) EmptyString +:+ s) with (String (digit_char (n mod 10)) s).
    cbn [digits_go].
    destruct (digit_char_val (n mod 10)) as [-> ->]; [apply Z.mod_pos_bound; lia|]. f_equal.
    rewrite Nat2Z.inj_succ, Z.pow_succ_r, Z.rem_mul_r by (lia || apply Z.pow_pos_nonneg; lia). ring.
Qed.

Lemma py_int_pad w n : (0 < w)%nat -> 0 <= n < 10 ^ Z.of_nat w -> py_int (pad w n) = Some n.
Proof.
  intros Hw Hn. assert (Hne : pad w n <> EmptyString).
  { intros Hp. apply (f_equal String.length) in Hp. rewrite pad_length in Hp. cbn in Hp. lia. }
  unfold py_int. destruct (pad w n) as [|x s] eqn:Hp; [done|]. rewrite <-Hp, <-(string_app_nil_r (pad w n)).
  rewrite digits_go_pad. by rewrite Z.mod_small.
Qed.

Lemma substring_all (s : string) m : (String.length s <= m)%nat -> String.substring 0 m s = s.
Proof.
  revert m. induction s as [|x s IH]; intros [|m] Hm; cbn [String.length String.substring] in *; try done; [lia|].
  f_equal. apply IH. lia.
Qed.

Lemma frac6_pad n : frac6 (pad 6 n) = pad 6 n.
Proof. unfold frac6. rewrite substring_all, pad_length by (rewrite pad_length; lia). apply string_app_nil_r. Qed.

End Text.

Lemma has_char_cons c x s : has_char c (String x s) = bool_decide (x = c) || has_char c s.
Proof. reflexivity. Qed.

(** A text made of fields and other separators holds no [c]. *)
Ltac no_char :=
  repeat (rewrite has_char_app || rewrite has_char_cons || rewrite has_char_pad by reflexivity);
  reflexivity.


(** Reads the fields of a printed datetime back, one bind at a time. *)
Ltac fields := repeat (rewrite py_int_pad by (cbn; lia); cbn [mbind option_bind]).

Section Roundtrip.

(** sqlite3's converter reads what its adapter printed: a valid datetime
    comes back as itself, with or without microseconds. *)
Lemma convert_timestamp_adapt d : valid_datetime d = true -> convert_timestamp (adapt_datetime d) = Some d.
Proof.
  destruct d as [y mo dd h mi sec us]. intros Hv.
  pose proof Hv as Hb. unfold valid_datetime in Hb. cbn [year month day hour minute second microsecond] in Hb.
  repeat rewrite ?andb_true_iff, ?Z.leb_le, ?Z.ltb_lt in Hb. pose proof (days_in_month_le y mo).
  unfold adapt_datetime, isoformat. cbv zeta. cbn [year month day hour minute second microsecond].
  unfold convert_timestamp.
  rewrite split_on_app, (split_on_free " ") by (repeat case_match; no_char). cbv beta iota.
  rewrite (split_on_app "-" (pad 4 y)), (split_on_app "-" (pad 2 mo)), (split_on_free "-" (pad 2 dd)) by no_char.
  cbv beta iota. fields.
  destruct (Z.eqb_spec us 0) as [->|Hus].
  - rewrite string_app_nil_r, (split_on_free "."%char) by no_char. cbv beta iota.
    rewrite (split_on_app ":" (pad 2 h)), (split_on_app ":" (pad 2 mi)), (split_on_free ":" (pad 2 sec)) by no_char.
    cbv beta iota. fields. by rewrite Hv.
  - rewrite (split_on_app "."%char), (split_on_free "."%char (pad 6 us)) by no_char. cbv beta iota.
    rewrite (split_on_app ":" (pad 2 h)), (split_on_app ":" (pad 2 mi)), (split_on_free ":" (pad 2 sec)) by no_char.
    cbv beta iota. rewrite frac6_pad. fields. by rewrite Hv.
Qed.

(** The datetime of a datetime64[ns] value is one [datetime] accepts. *)
Lemma datetime_of_ns_valid ns : - 2 ^ 63 < ns < 2 ^ 63 -> valid_datetime (datetime_of_us (ns / 1000)) = true.
Proof. intros Hns. apply datetime_of_us_valid. pose proof (datetime_of_ns_year ns Hns). lia. Qed.

(** The text of a datetime64[ns] value is read back as its count of
    microseconds. *)
Lemma stamp_text_roundtrip ns :
  - 2 ^ 63 < ns < 2 ^ 63 ->
  option_map us_of_datetime (convert_timestamp (adapt_datetime (datetime_of_us (ns / 1000)))) = Some (ns / 1000).
Proof.
  intros Hns. rewrite convert_timestamp_adapt by (by apply datetime_of_ns_valid).
  cbn [option_map]. by rewrite us_of_datetime_of_us.
Qed.

(** Two datetime64[ns] values print alike exactly when they have the
    same microsecond. *)
Lemma stamp_text_eq a b :
  - 2 ^ 63 < a < 2 ^ 63 -> - 2 ^ 63 < b < 2 ^ 63 ->
  adapt_datetime (datetime_of_us (a / 1000)) = adapt_datetime (datetime_of_us (b / 1000)) <-> a / 1000 = b / 1000.
Proof.
  intros Ha Hb. split; [|by intros ->]. intros Heq.
  pose proof (stamp_text_roundtrip a Ha) as Ra. rewrite Heq, stamp_text_roundtrip in Ra by done. congruence.
Qed.

End Roundtrip.

End Datetime.
