(* ===== verification/Frame.v ===== *)
(** The pandas side of [pandas_sqlite.py]: DataFrames as the code builds
    and reads them.

    A frame is its index (one or more named or unnamed levels) and its
    columns, an insertion-ordered mapping from names to series.  The file
    models [DataFrame()], [df[column] = Series(dtype=dtype)] and
    [_EmptyFrame] (source lines 11-15), and the parts of [SQLiteTable]
    the code relies on: the index labels [_index_name], the type mapping
    [_sql_type_name], the column list [_get_column_names_and_types], and
    [insert_data] with the conversion of each block's values
    ([convert_value]: NaN and NaT to [None], datetime64 to the text
    sqlite3 binds for a [datetime.datetime]) and the transposition of its
    result by [zip]. *)

From stdpp Require Import pretty.
From S2P Require Import Prelude Values Datetime.
Import Datetime.

Module Frame.

(** A pandas Series: its dtype and its values. *)
Record series := Series { s_dtype : dtype; s_values : list value }.

(** A DataFrame: index levels (name, values) and columns (name, values). *)
Record frame := DataFrame {
  f_index : list (option string * series);
  f_columns : list (string * series)
}.

(** [pandas.DataFrame()]: an empty unnamed index of dtype [object] and
    no column. *)
Definition empty_DataFrame : frame :=
  DataFrame [(None, Series Object [])] [].

(** [df[column] = s]: replaces the column in place, or appends it. *)
Definition frame_setitem (df : frame) (column : string) (s : series) : frame :=
  DataFrame (f_index df) (assoc_set column s (f_columns df)).

(** [_EmptyFrame(column_types)], lines 11-15. *)
Definition _EmptyFrame (column_types : list (string * dtype)) : frame :=
  fold_left (fun df '(column, dt) => frame_setitem df column (Series dt []))
    column_types empty_DataFrame.

(** [len(frame)]: the length of the index. *)
Definition frame_nrows (df : frame) : nat :=
  match f_index df with
  | (_, s) :: _ => length (s_values s)
  | [] => 0
  end.

(** A DataFrame is rectangular and has at least one index level. *)
Definition frame_wf (df : frame) : Prop :=
  f_index df <> [] /\
  Forall (fun p => length (s_values p.2) = frame_nrows df) (f_index df) /\
  Forall (fun p => length (s_values p.2) = frame_nrows df) (f_columns df).

(** ** Type mapping: [lib.infer_dtype(col, skipna=True)] then [_SQL_TYPES] *)

Inductive inferred := IInteger | IFloating | IString | IBoolean | IDatetime | IEmpty | IMixed.

Definition is_int (v : value) : bool := match v with VInt _ => true | _ => false end.
Definition is_real (v : value) : bool := match v with VReal _ => true | _ => false end.
Definition is_text (v : value) : bool := match v with VText _ => true | _ => false end.

(** Inference on an [object] array looks at the non-missing values
    ([skipna=True]: [None], [NaN] and [NaT] are skipped). *)
Definition infer_object (vs : list value) : inferred :=
  match filter (fun v => is_na v = false) vs with
  | [] => IEmpty
  | nn => if forallb is_text nn then IString
          else if forallb is_int nn then IInteger
          else if forallb is_real nn then IFloating
          else IMixed
  end.

Definition infer_dtype (s : series) : inferred :=
  match s_dtype s with
  | Int64 => IInteger
  | Float64 => IFloating
  | Bool => IBoolean
  | Datetime64 => IDatetime
  | Object => infer_object (s_values s)
  end.

(** [SQLiteTable._sql_type_name]: "empty" and unknown kinds map to TEXT. *)
Definition _sql_type_name (s : series) : sql_type :=
  match infer_dtype s with
  | IInteger | IBoolean => INTEGER
  | IFloating => REAL
  | IDatetime => TIMESTAMP
  | IString | IEmpty | IMixed => TEXT
  end.

(** ** Index labels and the columns of the SQL table *)

Definition level_label (i : nat) (name : option string) : string :=
  match name with
  | Some n => n
  | None => "level_" +:+ pretty i
  end.

(** [SQLiteTable._index_name(index=True, index_label=None)]. *)
Definition _index_name (df : frame) : list string :=
  match f_index df with
  | [(None, _)] =>
      if decide ("index" ∈ (f_columns df).*1) then ["level_0"] else ["index"]
  | levels => imap (fun i p => level_label i p.1) levels
  end.

(** [SQLiteTable._get_column_names_and_types(_sql_type_name)]: the
    index columns first when [index=True], then the data columns. *)
Definition column_names_and_types (index : bool) (df : frame) : list (string * sql_type) :=
  (if index then zip (_index_name df) ((fun p => _sql_type_name p.2) <$> f_index df)
   else [])
  ++ ((fun p => (p.1, _sql_type_name p.2)) <$> f_columns df).

(** ** [insert_data] and the transposition by [zip] *)

(** [temp.reset_index(inplace=True)]: the index levels are inserted at
    position 0, last level first; inserting a name already present
    raises [ValueError("cannot insert <name>, already exists")]. *)
Definition reset_index_names (labels cols : list string) : exn + list string :=
  fold_right
    (fun lab acc =>
       match acc with
       | inl e => inl e
       | inr cs => if decide (lab ∈ cs) then inl (CannotInsertError lab) else inr (lab :: cs)
       end)
    (inr cols) labels.

(** A value of a block of dtype [dt] as [insert_data] returns it and
    sqlite3 binds it.  A datetime64 block is cast to microseconds
    ([astype('M8[us]')], numpy's floor division) and to
    [datetime.datetime] objects, which sqlite3's default adapter binds as
    their [isoformat(' ')]; then, in a block that can hold missing values
    (float, object, datetime), [NaN] and [NaT] become [None].  Integer
    and boolean blocks are passed as they are. *)
Definition convert_value (dt : dtype) (v : value) : value :=
  match dt, v with
  | Datetime64, VStamp ns => VText (adapt_datetime (datetime_of_us (ns / 1000)))
  | (Float64 | Object | Datetime64), (VNaN | VNaT) => VNull
  | _, _ => v
  end.

(** The values [insert_data] returns for one column. *)
Definition block_values (s : series) : list value := convert_value (s_dtype s) <$> s_values s.

(** [SQLiteTable.insert_data()] for a table built with [index=True]:
    the column names of the reset frame and one value list per column. *)
Definition insert_data (df : frame) : exn + (list string * list (list value)) :=
  match reset_index_names (_index_name df) (f_columns df).*1 with
  | inl e => inl e
  | inr names =>
      inr (names, ((fun p => block_values p.2) <$> f_index df)
                  ++ ((fun p => block_values p.2) <$> f_columns df))
  end.

(** The length of the shortest list: how far [zip] runs. *)
Fixpoint min_length (cols : list (list value)) : nat :=
  match cols with
  | [] => 0
  | [c] => length c
  | c :: cs => Nat.min (length c) (min_length cs)
  end.

(** [zip( *data)]: the i-th tuple holds the i-th value of every column. *)
Definition zip_columns (cols : list (list value)) : list (list value) :=
  (fun i => (fun c => nth i c VNull) <$> cols) <$> seq 0 (min_length cols).

End Frame.

Module FrameFacts.
Import Frame.

(** A frame indexed by two instants one nanosecond apart, with a
    datetime column holding the epoch and a missing value, and the
    columns [insert_data] returns for it. *)
Definition ts_frame : frame :=
  DataFrame [(Some "t", Series Datetime64 [VStamp 1234567890123456789%Z; VStamp 1234567890123456001%Z])]
    [("seen", Series Datetime64 [VStamp 0%Z; VNaT])].

Definition ts_cols : list (list value) :=
  [[VText (adapt_datetime (datetime_of_us (1234567890123456789 / 1000)%Z));
    VText (adapt_datetime (datetime_of_us (1234567890123456001 / 1000)%Z))];
   [VText (adapt_datetime (datetime_of_us (0 / 1000)%Z)); VNull]].


(** ** [_EmptyFrame] *)

Lemma _EmptyFrame_snoc ct c dt :
  _EmptyFrame (ct ++ [(c, dt)]) = frame_setitem (_EmptyFrame ct) c (Series dt []).
Proof. unfold _EmptyFrame. by rewrite fold_left_app. Qed.

Lemma _EmptyFrame_index ct : f_index (_EmptyFrame ct) = [(None, Series Object [])].
Proof.
  induction ct as [|[c dt] ct IH] using rev_ind; [done|].
  by rewrite _EmptyFrame_snoc.
Qed.

(** Every column of [_EmptyFrame column_types] is one of the requested
    names (a repeated name is set twice, not added twice). *)
Lemma _EmptyFrame_names ct : Forall (fun c => c ∈ ct.*1) (f_columns (_EmptyFrame ct)).*1.
Proof.
  induction ct as [|[c dt] ct IH] using rev_ind; [done|].
  rewrite _EmptyFrame_snoc. cbn [f_columns frame_setitem]. rewrite fmap_app.
  destruct (decide (c ∈ (f_columns (_EmptyFrame ct)).*1)).
  - rewrite assoc_set_keys_in by done. eapply Forall_impl; [done|]. set_solver.
  - rewrite assoc_set_keys_notin by done. apply Forall_app. split.
    + eapply Forall_impl; [done|]. set_solver.
    + constructor; [set_solver|done].
Qed.

Lemma _EmptyFrame_nonempty ct : ct <> [] -> f_columns (_EmptyFrame ct) <> [].
Proof.
  induction ct as [|[c dt] ct _] using rev_ind; [done|]. intros _.
  rewrite _EmptyFrame_snoc. cbn [f_columns frame_setitem].
  destruct (decide (c ∈ (f_columns (_EmptyFrame ct)).*1)) as [Hin|Hnin].
  - intros Hnil. apply (f_equal (fmap fst)) in Hnil. rewrite assoc_set_keys_in in Hnil by done.
    rewrite Hnil in Hin. set_solver.
  - intros Hnil. apply (f_equal (fmap fst)) in Hnil. rewrite assoc_set_keys_notin in Hnil by done.
    by destruct ((f_columns (_EmptyFrame ct)).*1).
Qed.

(** with distinct column names, [_EmptyFrame] has exactly the requested
    columns, in the requested order, each an empty series of the requested
    dtype, under an empty unnamed index. *)
Theorem _EmptyFrame_columns (column_types : list (string * dtype)) :
  NoDup column_types.*1 ->
  f_index (_EmptyFrame column_types) = [(None, Series Object [])] /\
  f_columns (_EmptyFrame column_types) =
    (fun p => (p.1, Series p.2 [])) <$> column_types.
Proof.
  split; [apply _EmptyFrame_index|].
  induction column_types as [|[c dt] ct IH] using rev_ind; [done|].
  rewrite fmap_app in H. apply NoDup_app in H as (Hnd & Hdisj & _).
  rewrite _EmptyFrame_snoc. simpl. rewrite IH by done.
  assert (Hc : c ∉ ct.*1) by (intros Hin; apply (Hdisj c Hin); set_solver).
  rewrite assoc_set_notin; [by rewrite fmap_app|].
  by rewrite (fst_map_pair (fun dt => Series dt [])).
Qed.

(** C13: when a name repeats, [_EmptyFrame] keeps one column per name, at
    the position of its first occurrence, with the dtype of its last
    occurrence: [df[column] = ...] overwrites in place and raises nothing. *)
Theorem _EmptyFrame_duplicates (column_types : list (string * dtype)) :
  (f_columns (_EmptyFrame column_types)).*1 = reverse (remove_dups (reverse column_types.*1)) /\
  forall c, assoc_find c (f_columns (_EmptyFrame column_types)) =
            (fun dt => Series dt []) <$> assoc_find c (reverse column_types).
Proof.
  induction column_types as [|[c dt] ct [IHk IHf]] using rev_ind; [done|].
  rewrite _EmptyFrame_snoc. cbn [f_columns frame_setitem].
  rewrite fmap_app, !reverse_app. cbn [reverse fmap list_fmap fst remove_dups]. split.
  - rewrite reverse_singleton. change ([c] ++ ?l) with (c :: l). cbn [remove_dups].
    case_decide as Hc.
    + rewrite assoc_set_keys_in; [done|].
      by rewrite IHk, elem_of_reverse, elem_of_remove_dups.
    + rewrite assoc_set_keys_notin, IHk, reverse_cons; [done|].
      by rewrite IHk, elem_of_reverse, elem_of_remove_dups.
  - intros c'. rewrite assoc_find_set, IHf, reverse_singleton. simpl.
    by case_decide.
Qed.

(** ** The transposition by [zip] *)

Lemma min_length_rect (cols : list (list value)) n :
  cols <> [] -> Forall (fun c => length c = n) cols -> min_length cols = n.
Proof.
  induction cols as [|c [|c' cs] IH]; intros Hne Hall; [done| |].
  - by inversion Hall.
  - inversion Hall as [|? ? Hc Hrest]; subst.
    change (Nat.min (length c) (min_length (c' :: cs)) = length c).
    rewrite IH by done. lia.
Qed.

Lemma zip_columns_shape (cols : list (list value)) n :
  cols <> [] -> Forall (fun c => length c = n) cols ->
  length (zip_columns cols) = n /\ Forall (fun row => length row = length cols) (zip_columns cols).
Proof.
  intros Hne Hrect. unfold zip_columns. rewrite (min_length_rect _ n) by done.
  split; [by rewrite length_fmap, length_seq|].
  apply Forall_fmap, Forall_forall. intros i _. simpl. by rewrite length_fmap.
Qed.

(** ** [insert_data] *)

Lemma reset_index_names_cons l ls cols :
  reset_index_names (l :: ls) cols =
    match reset_index_names ls cols with
    | inl e => inl e
    | inr cs => if decide (l ∈ cs) then inl (CannotInsertError l) else inr (l :: cs)
    end.
Proof. reflexivity. Qed.

Lemma reset_index_names_spec labels cols names :
  NoDup cols ->
  reset_index_names labels cols = inr names <-> names = labels ++ cols /\ NoDup (labels ++ cols).
Proof.
  intros Hcols. revert names. induction labels as [|l ls IH]; intros names.
  - split; [intros [= <-]; auto|intros [-> _]; done].
  - rewrite reset_index_names_cons.
    destruct (reset_index_names ls cols) as [e|cs] eqn:Hr.
    + split; [done|]. intros [-> Hnd]. apply NoDup_cons in Hnd as [_ Hnd].
      pose proof (proj2 (IH (ls ++ cols)) (conj eq_refl Hnd)). congruence.
    + destruct (proj1 (IH cs) eq_refl) as [-> Hnd].
      change ((l :: ls) ++ cols) with (l :: (ls ++ cols)).
      rewrite NoDup_cons. case_decide; split; try naive_solver.
Qed.

(** The conversion keeps the length of every column. *)
Lemma block_values_rect {K} (l : list (K * series)) n :
  Forall (fun p => length (s_values p.2) = n) l ->
  Forall (fun c => length c = n) ((fun p => block_values p.2) <$> l).
Proof.
  intros Hl. apply Forall_fmap. eapply Forall_impl; [exact Hl|]. intros p Hp. cbn.
  unfold block_values. by rewrite length_fmap.
Qed.

Lemma _index_name_length df : length (_index_name df) = length (f_index df).
Proof.
  unfold _index_name. destruct (f_index df) as [|[[n|] s] [|]]; simpl;
    rewrite ?length_imap; try case_decide; done.
Qed.

(** C14: [insert_data] on a rectangular frame whose index labels and column
    names are all distinct returns the labels followed by the column names,
    and one value list per name, each as long as the frame. *)
Theorem insert_data_ok (df : frame) :
  frame_wf df -> NoDup (_index_name df ++ (f_columns df).*1) ->
  exists data,
    insert_data df = inr (_index_name df ++ (f_columns df).*1, data) /\
    length data = length (_index_name df ++ (f_columns df).*1) /\
    Forall (fun c => length c = frame_nrows df) data.
Proof.
  intros (_ & Hidx & Hcol) Hnd. unfold insert_data.
  pose proof (proj2 (proj2 (proj1 (NoDup_app _ _) Hnd))) as Hcols.
  rewrite (proj2 (reset_index_names_spec _ _ _ Hcols) (conj eq_refl Hnd)).
  eexists. split; [done|]. split.
  - by rewrite !length_app, !length_fmap, _index_name_length.
  - apply Forall_app. split; by apply block_values_rect.
Qed.

(** C15: when an index label equals a column name (or two labels are equal),
    [insert_data] raises [ValueError("cannot insert ...")]. *)
Theorem insert_data_clash (df : frame) :
  NoDup (f_columns df).*1 -> ~ NoDup (_index_name df ++ (f_columns df).*1) ->
  exists c, insert_data df = inl (CannotInsertError c).
Proof.
  intros Hcols Hnd. unfold insert_data.
  destruct (reset_index_names _ _) as [e|names] eqn:Hr.
  - enough (forall labels cols e, reset_index_names labels cols = inl e -> exists c, e = CannotInsertError c)
      as Hinl by (destruct (Hinl _ _ _ Hr) as [c ->]; eauto).
    clear. intros labels cols. induction labels as [|l ls IH]; intros e; [done|].
    rewrite reset_index_names_cons.
    destruct (reset_index_names ls cols); [apply IH|]. case_decide; naive_solver.
  - by apply reset_index_names_spec in Hr as [_ ?].
Qed.

(** ** The values [insert_data] binds *)

Lemma insert_data_index df names cols i o s :
  insert_data df = inr (names, cols) -> f_index df !! i = Some (o, s) -> cols !! i = Some (block_values s).
Proof.
  unfold insert_data. destruct (reset_index_names _ _); intros [= _ <-] Hi; [].
  rewrite lookup_app_l by (rewrite length_fmap; by eapply lookup_lt_Some).
  by rewrite list_lookup_fmap, Hi.
Qed.

Lemma insert_data_column df names cols i c s :
  insert_data df = inr (names, cols) -> f_columns df !! i = Some (c, s) ->
  cols !! (length (f_index df) + i)%nat = Some (block_values s).
Proof.
  unfold insert_data. destruct (reset_index_names _ _); intros [= _ <-] Hi; [].
  rewrite lookup_app_r by (rewrite length_fmap; lia). rewrite length_fmap.
  replace (length (f_index df) + i - length (f_index df))%nat with i by lia.
  by rewrite list_lookup_fmap, Hi.
Qed.

Lemma block_values_stamp s k ns :
  s_dtype s = Datetime64 -> s_values s !! k = Some (VStamp ns) ->
  block_values s !! k = Some (VText (adapt_datetime (datetime_of_us (ns / 1000)))).
Proof. intros Hd Hk. unfold block_values. by rewrite list_lookup_fmap, Hk, Hd. Qed.

(** C27: round trip of a datetime column.  For a datetime64[ns] value of
    a data column of the frame (any int64 but [NaT]), the value
    [insert_data] returns, as sqlite3 binds it, is a text that sqlite3's
    [TIMESTAMP] converter reads back as a datetime exactly [ns / 1000]
    microseconds after the epoch: the value truncated to the microsecond,
    nothing else lost. *)
Theorem insert_data_timestamp_roundtrip df names cols i c s k ns :
  insert_data df = inr (names, cols) ->
  f_columns df !! i = Some (c, s) -> s_dtype s = Datetime64 -> s_values s !! k = Some (VStamp ns) ->
  (- 2 ^ 63 < ns < 2 ^ 63)%Z ->
  exists txt, (cols !! (length (f_index df) + i)%nat ≫= fun col => col !! k) = Some (VText txt) /\
    option_map us_of_datetime (convert_timestamp txt) = Some (ns / 1000)%Z.
Proof.
  intros Hins Hi Hd Hk Hns. rewrite (insert_data_column _ _ _ _ _ _ Hins Hi). cbn [mbind option_bind].
  rewrite (block_values_stamp _ _ _ Hd Hk). eexists. split; [done|]. by apply stamp_text_roundtrip.
Qed.

(** C28: precision of a datetime key.  Two datetime64[ns] values of an
    index level, the columns the table is keyed by, are written as the
    same value exactly when they fall in the same microsecond: keys that
    differ by less than a microsecond collide. *)
Theorem insert_data_timestamp_same_key df names cols i o s k1 k2 a b :
  insert_data df = inr (names, cols) ->
  f_index df !! i = Some (o, s) -> s_dtype s = Datetime64 ->
  s_values s !! k1 = Some (VStamp a) -> s_values s !! k2 = Some (VStamp b) ->
  (- 2 ^ 63 < a < 2 ^ 63)%Z -> (- 2 ^ 63 < b < 2 ^ 63)%Z ->
  ((cols !! i ≫= fun col => col !! k1) = (cols !! i ≫= fun col => col !! k2) <-> a / 1000 = b / 1000)%Z.
Proof.
  intros Hins Hi Hd Ha Hb Hra Hrb. rewrite (insert_data_index _ _ _ _ _ _ Hins Hi). cbn [mbind option_bind].
  rewrite (block_values_stamp _ _ _ Hd Ha), (block_values_stamp _ _ _ Hd Hb), <-stamp_text_eq by done.
  split; [congruence|by intros ->].
Qed.

(** ** Witnesses *)

Lemma insert_data_ok_witness :
  exists data,
    insert_data (DataFrame [(Some "id", Series Int64 [VInt 1])] [("v", Series Object [VText "a"])]) =
      inr (["id"; "v"], data) /\ length data = 2 /\ Forall (fun c => length c = 1) data.
Proof.
  apply (insert_data_ok (DataFrame [(Some "id", Series Int64 [VInt 1])] [("v", Series Object [VText "a"])]));
    decide_concrete.
Defined.

Lemma insert_data_clash_witness :
  exists c, insert_data (DataFrame [(Some "id", Series Int64 [VInt 1])] [("id", Series Int64 [VInt 2])]) =
    inl (CannotInsertError c).
Proof.
  apply insert_data_clash; decide_concrete.
Defined.

Lemma insert_data_timestamp_roundtrip_witness :
  exists txt, (ts_cols !! (length (f_index ts_frame) + 0)%nat ≫= fun col => col !! 0%nat) = Some (VText txt) /\
    option_map us_of_datetime (convert_timestamp txt) = Some (0 / 1000)%Z.
Proof.
  apply (insert_data_timestamp_roundtrip ts_frame ["t"; "seen"] ts_cols 0 "seen"
           (Series Datetime64 [VStamp 0%Z; VNaT]) 0 0);
    first [reflexivity | lia | vm_compute; reflexivity].
Defined.

Lemma insert_data_timestamp_same_key_witness :
  ((ts_cols !! 0%nat ≫= fun col => col !! 0%nat) = (ts_cols !! 0%nat ≫= fun col => col !! 1%nat)
   <-> 1234567890123456789 / 1000 = 1234567890123456001 / 1000)%Z.
Proof.
  apply (insert_data_timestamp_same_key ts_frame ["t"; "seen"] ts_cols 0 (Some "t")
           (Series Datetime64 [VStamp 1234567890123456789%Z; VStamp 1234567890123456001%Z]) 0 1);
    first [reflexivity | lia | vm_compute; reflexivity].
Defined.

End FrameFacts.
