(* ===== verification/Statement.v ===== *)
(** The INSERT statements the code sends to SQLite.

    [_InsertOrReplaceStatement] (source lines 34-37) prints the statement
    text with Python's [str.join] and [%] formatting; SQLite then lexes
    and parses that text.  This file models the printer as a function on
    [string] and the part of SQLite's front end that these statements
    exercise: a lexer (words, the four symbols [( ) , ?], blanks, and
    identifiers between double quotes, where a doubled quote stands for
    one) and a parser for [INSERT [OR REPLACE] INTO t(c1,...,cn) VALUES
    (?,...,?)].  Bare identifiers are the words of letters, digits and
    underscores not starting with a digit; other expressions and SQLite's
    reserved words are outside the model.  The main theorem is
    the round trip: parsing the printed statement gives back the table,
    the column list and one placeholder per column. *)

From Stdlib Require Import Ascii.
From S2P Require Import Prelude.

Module Statement.

(** ** The printer, lines 34-37 *)

Definition _InsertOrReplaceStatement (name : string) (keys : list string) : string :=
  let columns := String.concat "," keys in
  let values := String.concat "," ((fun _ => "?") <$> keys) in
  "INSERT OR REPLACE INTO " +:+ name +:+ "(" +:+ columns +:+ ") VALUES (" +:+ values +:+ ")".

(** ** SQLite's lexer, on the characters these statements use *)

Inductive token := TWord (w : string) | TQuoted (w : string) | TLParen | TRParen | TComma | TQMark.

#[export] Instance token_eq_dec : EqDecision token.
Proof. solve_decision. Defined.

Definition is_word_char (c : ascii) : bool :=
  let n := nat_of_ascii c in
  is_digit c || ((65 <=? n) && (n <=? 90)) || ((97 <=? n) && (n <=? 122)) || (n =? 95).

Definition is_space (c : ascii) : bool :=
  let n := nat_of_ascii c in (n =? 32) || (n =? 9) || (n =? 10) || (n =? 13).

Definition sym_token (c : ascii) : option token :=
  match nat_of_ascii c with
  | 40 => Some TLParen
  | 41 => Some TRParen
  | 44 => Some TComma
  | 63 => Some TQMark
  | _ => None
  end.

(** The double quote, which opens and closes a quoted identifier; inside
    one, two double quotes stand for one. *)
Definition dq : ascii := "034"%char.

(** The characters of the current word are kept in reverse. *)
Fixpoint rev_to_string (acc : list ascii) (s : string) : string :=
  match acc with
  | [] => s
  | c :: acc' => rev_to_string acc' (String c s)
  end.

Definition flush (acc : list ascii) (toks : list token) : list token :=
  match acc with
  | [] => toks
  | _ => TWord (rev_to_string acc "") :: toks
  end.

(** Where the lexer is: outside quotes (with the current bare word),
    inside a quoted identifier, or just after a double quote inside one
    (which either closes it or is the first of a doubled quote). *)
Inductive lex_state :=
  | LWord (acc : list ascii)
  | LQuote (acc : list ascii)
  | LQuoteEnd (acc : list ascii).

(** One character outside quotes. *)
Definition lex_plain (c : ascii) (acc : list ascii) (toks : list token)
    : option (lex_state * list token) :=
  if is_word_char c then Some (LWord (c :: acc), toks)
  else if is_space c then Some (LWord [], flush acc toks)
  else match sym_token c with
       | Some t => Some (LWord [], t :: flush acc toks)
       | None => if bool_decide (c = dq) then Some (LQuote [], flush acc toks) else None
       end.

Definition lex_char (st : lex_state) (c : ascii) (toks : list token)
    : option (lex_state * list token) :=
  match st with
  | LWord acc => lex_plain c acc toks
  | LQuote acc =>
      if bool_decide (c = dq) then Some (LQuoteEnd acc, toks) else Some (LQuote (c :: acc), toks)
  | LQuoteEnd acc =>
      if bool_decide (c = dq) then Some (LQuote (c :: acc), toks)
      else lex_plain c [] (TQuoted (rev_to_string acc "") :: toks)
  end.

(** At the end of the text an open quote is an error. *)
Definition lex_end (st : lex_state) (toks : list token) : option (list token) :=
  match st with
  | LWord acc => Some (reverse (flush acc toks))
  | LQuote _ => None
  | LQuoteEnd acc => Some (reverse (TQuoted (rev_to_string acc "") :: toks))
  end.

(** Tokens are accumulated in reverse; [None] is a lexing error
    (SQLite's "unrecognized token"). *)
Fixpoint lex_go (s : string) (st : lex_state) (toks : list token) : option (list token) :=
  match s with
  | EmptyString => lex_end st toks
  | String c s' =>
      match lex_char st c toks with
      | Some (st', toks') => lex_go s' st' toks'
      | None => None
      end
  end.

Definition lex (s : string) : option (list token) := lex_go s (LWord []) [].

(** ** The parser *)

Inductive mode := Plain | OrReplace.

#[export] Instance mode_eq_dec : EqDecision mode.
Proof. solve_decision. Defined.

(** A parsed [INSERT]: mode, table, column list, number of [?]. *)
Record insert_stmt := InsertStmt {
  st_mode : mode; st_table : string; st_cols : list string; st_nparams : nat
}.

#[export] Instance insert_stmt_eq_dec : EqDecision insert_stmt.
Proof. solve_decision. Defined.

(** A word that names a table or a column (a number is not a name). *)
Definition is_ident (w : string) : bool :=
  match w with
  | EmptyString => false
  | String c _ => negb (is_digit c)
  end.

Definition is_kw (t : token) (kw : string) : bool :=
  match t with TWord w => bool_decide (w = kw) | _ => false end.

(** A token naming a table or a column: a bare identifier or a quoted one. *)
Definition tok_name (t : token) : option string :=
  match t with
  | TWord w => if is_ident w then Some w else None
  | TQuoted w => Some w
  | _ => None
  end.

(** [c1,c2,...,cn)] *)
Fixpoint parse_cols (ts : list token) : option (list string * list token) :=
  match ts with
  | t :: TRParen :: ts' => w ← tok_name t; Some ([w], ts')
  | t :: TComma :: ts' =>
      w ← tok_name t;
      match parse_cols ts' with
      | Some (cols, rest) => Some (w :: cols, rest)
      | None => None
      end
  | _ => None
  end.

(** [?,?,...,?)] *)
Fixpoint parse_params (ts : list token) : option (nat * list token) :=
  match ts with
  | TQMark :: TRParen :: ts' => Some (1, ts')
  | TQMark :: TComma :: ts' =>
      match parse_params ts' with
      | Some (n, rest) => Some (S n, rest)
      | None => None
      end
  | _ => None
  end.

(** [t(cols) VALUES (params)] and nothing after. *)
Definition parse_target (m : mode) (ts : list token) : option insert_stmt :=
  match ts with
  | tn :: TLParen :: ts1 =>
      t ← tok_name tn;
      match parse_cols ts1 with
      | Some (cols, kv :: TLParen :: ts2) =>
          if is_kw kv "VALUES" then
            match parse_params ts2 with
            | Some (n, []) => Some (InsertStmt m t cols n)
            | _ => None
            end
          else None
      | _ => None
      end
  | _ => None
  end.

Definition parse_insert (ts : list token) : option insert_stmt :=
  match ts with
  | k1 :: k2 :: k3 :: k4 :: rest =>
      if is_kw k1 "INSERT" && is_kw k2 "OR" && is_kw k3 "REPLACE" && is_kw k4 "INTO"
      then parse_target OrReplace rest
      else if is_kw k1 "INSERT" && is_kw k2 "INTO"
      then parse_target Plain (k3 :: k4 :: rest)
      else None
  | k1 :: k2 :: rest =>
      if is_kw k1 "INSERT" && is_kw k2 "INTO" then parse_target Plain rest else None
  | _ => None
  end.

(** What SQLite's prepare step makes of a statement text: [None] is a
    syntax error. *)
Definition sql_parse (sql : string) : option insert_stmt :=
  match lex sql with
  | Some ts => parse_insert ts
  | None => None
  end.

(** ** Names the printer can carry through *)

Fixpoint all_word (w : string) : bool :=
  match w with
  | EmptyString => true
  | String c w' => is_word_char c && all_word w'
  end.

(** A bare SQL identifier: a word that does not start with a digit. *)
Definition simple_ident (w : string) : bool := is_ident w && all_word w.

(** The characters of a word pushed on the lexer's accumulator. *)
Fixpoint push_word (w : string) (acc : list ascii) : list ascii :=
  match w with
  | EmptyString => acc
  | String c w' => push_word w' (c :: acc)
  end.

(** The tokens of [c1,c2,...,cn] and of [?,?,...,?] ([n] marks). *)
Fixpoint cols_tokens (keys : list string) : list token :=
  match keys with
  | [] => []
  | [k] => [TWord k]
  | k :: ks => TWord k :: TComma :: cols_tokens ks
  end.

Fixpoint qmark_tokens (n : nat) : list token :=
  match n with
  | 0 => []
  | 1 => [TQMark]
  | S n' => TQMark :: TComma :: qmark_tokens n'
  end.

(** ** The lexer on the printed text *)

Lemma lex_plain_word c acc toks :
  is_word_char c = true -> lex_plain c acc toks = Some (LWord (c :: acc), toks).
Proof. intros Hc. unfold lex_plain. by rewrite Hc. Qed.

Lemma lex_plain_sym c t acc toks :
  is_word_char c = false -> is_space c = false -> sym_token c = Some t ->
  lex_plain c acc toks = Some (LWord [], t :: flush acc toks).
Proof. intros Hc Hs Ht. unfold lex_plain. by rewrite Hc, Hs, Ht. Qed.

Lemma lex_go_word w s acc toks :
  all_word w = true -> lex_go (w +:+ s) (LWord acc) toks = lex_go s (LWord (push_word w acc)) toks.
Proof.
  revert acc. induction w as [|c w IH]; intros acc Hw; [done|].
  simpl in Hw. apply andb_prop in Hw as [Hc Hw].
  rewrite string_app_cons. cbn [lex_go lex_char]. rewrite lex_plain_word by done. by apply IH.
Qed.

Lemma rev_to_string_push w acc s :
  rev_to_string (push_word w acc) s = rev_to_string acc (w +:+ s).
Proof. revert acc. induction w as [|c w IH]; intros acc; simpl; [done|by rewrite IH]. Qed.

Lemma push_word_ne w acc : acc <> [] -> push_word w acc <> [].
Proof. revert acc. induction w as [|c w IH]; intros acc Hacc; simpl; [done|by apply IH]. Qed.

Lemma flush_push_word w toks :
  w <> EmptyString -> flush (push_word w []) toks = TWord w :: toks.
Proof.
  intros Hw. unfold flush.
  destruct (push_word w []) eqn:Hp.
  - destruct w as [|c w]; [done|]. by apply (push_word_ne w [c]) in Hp.
  - rewrite <-Hp, rev_to_string_push. simpl. by rewrite string_app_nil_r.
Qed.

(** A bare identifier followed by a separator symbol. *)
Lemma lex_go_ident_sym w c t s p :
  simple_ident w = true -> is_word_char c = false -> is_space c = false ->
  sym_token c = Some t ->
  lex_go (w +:+ String c s) (LWord []) (reverse p) =
  lex_go s (LWord []) (reverse (p ++ [TWord w; t])).
Proof.
  intros Hw Hc Hsp Ht. apply andb_prop in Hw as [Hid Hw].
  rewrite lex_go_word by done. cbn [lex_go lex_char]. rewrite (lex_plain_sym _ t) by done.
  rewrite flush_push_word by (by destruct w). by rewrite reverse_app.
Qed.

(** Bare names joined by commas, then a separator symbol. *)
Lemma lex_go_cols keys c t s p :
  keys <> [] -> Forall (fun k => simple_ident k = true) keys ->
  is_word_char c = false -> is_space c = false -> sym_token c = Some t ->
  lex_go (String.concat "," keys +:+ String c s) (LWord []) (reverse p) =
  lex_go s (LWord []) (reverse (p ++ cols_tokens keys ++ [t])).
Proof.
  intros Hne Hall Hc Hsp Ht. revert p Hne Hall.
  induction keys as [|k [|k' ks] IH]; intros p Hne Hall; [done| |].
  - inversion Hall; subst. change (String.concat "," [k]) with k.
    by apply lex_go_ident_sym.
  - inversion Hall as [|? ? Hk Hrest]; subst.
    change (String.concat "," (k :: k' :: ks)) with (k +:+ String "," (String.concat "," (k' :: ks))).
    rewrite string_app_assoc, string_app_cons, (lex_go_ident_sym _ _ TComma) by done.
    rewrite IH by done. by rewrite <-app_assoc.
Qed.

Lemma lex_go_qmark_sep c t s toks :
  is_word_char c = false -> is_space c = false -> sym_token c = Some t ->
  lex_go (String "?" (String c s)) (LWord []) toks = lex_go s (LWord []) (t :: TQMark :: toks).
Proof.
  intros Hc Hs Ht. cbn [lex_go lex_char]. rewrite (lex_plain_sym "?" TQMark) by done.
  cbn [lex_go lex_char flush]. by rewrite (lex_plain_sym _ t).
Qed.

Lemma lex_go_qmarks (keys : list string) s p :
  keys <> [] ->
  lex_go (String.concat "," ((fun _ => "?") <$> keys) +:+ String ")" s) (LWord []) (reverse p) =
  lex_go s (LWord []) (reverse (p ++ qmark_tokens (length keys) ++ [TRParen])).
Proof.
  revert p. induction keys as [|k [|k' ks] IH]; intros p Hne; [done| |].
  - change (String.concat "," ((fun _ : string => "?") <$> [k]) +:+ String ")" s)
      with (String "?" (String ")" s)).
    rewrite (lex_go_qmark_sep _ TRParen) by done. by rewrite reverse_app.
  - change (String.concat "," ((fun _ : string => "?") <$> k :: k' :: ks))
      with (String "?" (String "," (String.concat "," ((fun _ : string => "?") <$> k' :: ks)))).
    rewrite !string_app_cons, (lex_go_qmark_sep _ TComma) by done.
    change (TComma :: TQMark :: reverse p) with (reverse [TQMark; TComma] ++ reverse p).
    rewrite <-reverse_app.
    rewrite IH by done. by rewrite <-app_assoc.
Qed.

Lemma lex_go_insert_or_replace_into r :
  lex_go ("INSERT OR REPLACE INTO " +:+ r) (LWord []) [] =
  lex_go r (LWord []) (reverse [TWord "INSERT"; TWord "OR"; TWord "REPLACE"; TWord "INTO"]).
Proof. reflexivity. Qed.

Lemma lex_go_values r p :
  lex_go (" VALUES (" +:+ r) (LWord []) (reverse p) =
  lex_go r (LWord []) (reverse (p ++ [TWord "VALUES"; TLParen])).
Proof. rewrite reverse_app. reflexivity. Qed.

(** ** The parser on the lexed text *)

Lemma parse_cols_tokens keys rest :
  keys <> [] -> Forall (fun k => simple_ident k = true) keys ->
  parse_cols (cols_tokens keys ++ TRParen :: rest) = Some (keys, rest).
Proof.
  induction keys as [|k [|k' ks] IH]; intros Hne Hall; [done| |];
    inversion Hall as [|? ? Hk Hrest]; subst; apply andb_prop in Hk as [Hk _].
  - simpl. by rewrite Hk.
  - change (cols_tokens (k :: k' :: ks) ++ TRParen :: rest)
      with (TWord k :: TComma :: (cols_tokens (k' :: ks) ++ TRParen :: rest)).
    cbn [parse_cols tok_name]. rewrite Hk. cbn [mbind option_bind]. by rewrite IH.
Qed.

Lemma parse_params_tokens n rest :
  0 < n -> parse_params (qmark_tokens n ++ TRParen :: rest) = Some (n, rest).
Proof.
  induction n as [|[|n] IH]; intros Hn; [lia|done|].
  change (qmark_tokens (S (S n)) ++ TRParen :: rest)
    with (TQMark :: TComma :: (qmark_tokens (S n) ++ TRParen :: rest)).
  cbn [parse_params]. by rewrite IH by lia.
Qed.

(** The text [INSERT OR REPLACE INTO name(cols) VALUES (?,...)] with
    [length ks] placeholders, as the printer lays it out. *)
Lemma sql_parse_insert_or_replace (name : string) (cols ks : list string) :
  simple_ident name = true -> cols <> [] -> Forall (fun k => simple_ident k = true) cols ->
  ks <> [] ->
  sql_parse ("INSERT OR REPLACE INTO " +:+ name +:+ "(" +:+ String.concat "," cols +:+
             ") VALUES (" +:+ String.concat "," ((fun _ => "?") <$> ks) +:+ ")") =
    Some (InsertStmt OrReplace name cols (length ks)).
Proof.
  intros Hn Hne Hcols Hks. unfold sql_parse, lex.
  rewrite lex_go_insert_or_replace_into.
  change ("(" +:+ ?x) with (String "(" x).
  rewrite (lex_go_ident_sym _ _ TLParen) by done.
  change (") VALUES (" +:+ ?x) with (String ")" (" VALUES (" +:+ x)).
  rewrite (lex_go_cols _ ")" TRParen), lex_go_values by done.
  change (String.concat "," ((fun _ => "?") <$> ks) +:+ ")")
    with (String.concat "," ((fun _ => "?") <$> ks) +:+ String ")" "").
  rewrite lex_go_qmarks by done. cbn [lex_go lex_end flush]. rewrite reverse_involutive.
  rewrite <-!app_assoc. cbn [app parse_insert].
  apply andb_prop in Hn as [Hn _]. unfold parse_target. cbn [tok_name]. rewrite Hn. simpl.
  rewrite parse_cols_tokens by done.
  cbn [is_kw]. rewrite parse_params_tokens; [done|]. destruct ks; [done|simpl; lia].
Qed.

(** C5: round trip of the statement printer.  When the table name and
    every column name are bare identifiers and there is at least one
    column, SQLite parses the text printed by [_InsertOrReplaceStatement]
    as an INSERT OR REPLACE into that table, on exactly those columns in
    that order, with one placeholder per column. *)
Theorem _InsertOrReplaceStatement_roundtrip (name : string) (keys : list string) :
  simple_ident name = true -> keys <> [] -> Forall (fun k => simple_ident k = true) keys ->
  sql_parse (_InsertOrReplaceStatement name keys) =
    Some (InsertStmt OrReplace name keys (length keys)).
Proof. intros. by apply sql_parse_insert_or_replace. Qed.

(** C9: the printer does not quote names.  A column named [a,b] is read
    by SQLite as the two columns [a] and [b] with a single placeholder, so
    the statement names more columns than it supplies values for. *)
Theorem _InsertOrReplaceStatement_comma_name (name a b : string) :
  simple_ident name = true -> simple_ident a = true -> simple_ident b = true ->
  sql_parse (_InsertOrReplaceStatement name [a +:+ "," +:+ b]) =
    Some (InsertStmt OrReplace name [a; b] 1).
Proof.
  intros Hn Ha Hb. unfold _InsertOrReplaceStatement.
  change (String.concat "," [a +:+ "," +:+ b]) with (String.concat "," [a; b]).
  by apply (sql_parse_insert_or_replace name [a; b] [a +:+ "," +:+ b]); repeat constructor.
Qed.

(** ** Witnesses *)

Lemma _InsertOrReplaceStatement_roundtrip_witness :
  sql_parse (_InsertOrReplaceStatement "scores" ["id"; "name"; "score"]) =
    Some (InsertStmt OrReplace "scores" ["id"; "name"; "score"] 3).
Proof.
  apply (_InsertOrReplaceStatement_roundtrip "scores" ["id"; "name"; "score"]);
    first [reflexivity | discriminate | decide_concrete].
Defined.

Lemma _InsertOrReplaceStatement_comma_name_witness :
  sql_parse (_InsertOrReplaceStatement "t" ["a" +:+ "," +:+ "b"]) =
    Some (InsertStmt OrReplace "t" ["a"; "b"] 1).
Proof. apply _InsertOrReplaceStatement_comma_name; reflexivity. Defined.

End Statement.
