(* ===== verification/Ddl.v ===== *)
(** The statement text pandas writes for SQLite, and SQLite's reading of it.

    pandas' SQLite backend quotes every name it writes with
    [_get_valid_sqlite_name]: the name in double quotes, each double
    quote doubled, and a [ValueError] for an empty name or one holding a
    NUL.  [SQLiteTable._create_table_setup] (run when a table object is
    built from a frame, lines 29-30, 55-56 and 63-65 of the source)
    prints a CREATE TABLE statement, with a [CONSTRAINT <name>_pk PRIMARY
    KEY (...)] clause when keys are given, and a CREATE INDEX statement
    over the index columns; [SQLiteTable.insert_statement] prints the
    plain INSERT of the legacy path.  This file models these printers,
    SQLite's parser for the CREATE statements (over the lexer of
    [Statement], which reads quoted identifiers), and proves that SQLite
    reads back exactly the names pandas printed, whatever the
    characters of a column name.  The one name pandas leaves unquoted is
    the table name inside the constraint name: the round trip needs a
    bare identifier there, and a table name with a blank is a syntax
    error as soon as keys are given.  The last section states the round
    trip for the schema pandas derives from a frame
    ([table_setup_roundtrip]). *)

From Stdlib Require Import Ascii.
From S2P Require Import Prelude Values Frame Statement.
Import Frame Statement.

Module Ddl.

(** ** pandas: [_get_valid_sqlite_name] *)

Definition nul : ascii := "000"%char.

(** [uname.find(NUL) >= 0] *)
Fixpoint has_nul (s : string) : bool :=
  match s with
  | EmptyString => false
  | String c s' => bool_decide (c = nul) || has_nul s'
  end.

(** [uname.replace(q, q + q)] with [q] the double quote. *)
Fixpoint double_quotes (s : string) : string :=
  match s with
  | EmptyString => EmptyString
  | String c s' =>
      if bool_decide (c = dq) then String dq (String dq (double_quotes s'))
      else String c (double_quotes s')
  end.

(** [q + uname.replace(q, q + q) + q] *)
Definition quote (name : string) : string :=
  String dq (double_quotes name +:+ String dq EmptyString).

Definition _get_valid_sqlite_name (name : string) : exn + string :=
  if bool_decide (name = EmptyString) then inl EmptyNameError
  else if has_nul name then inl NulNameError
  else inr (quote name).

(** The names of [_SQL_TYPES] pandas writes for the column types. *)
Definition sql_type_text (t : sql_type) : string :=
  match t with
  | TEXT => "TEXT"
  | REAL => "REAL"
  | INTEGER => "INTEGER"
  | TIMESTAMP => "TIMESTAMP"
  end.

Definition nl : string := String "010"%char EmptyString.

(** ** pandas: [SQLiteTable._create_table_setup()]

    [cols] are the (name, type) pairs of [_get_column_names_and_types],
    [keys] the [keys] argument (no constraint when it is empty or
    [None]), [ix_cols] the names of the index columns (none when the
    table is built with [index=False]).  The names are escaped in the
    order the Python evaluates them: the columns, the keys, the table,
    then the index columns and the index name. *)
Definition _create_table_setup (name : string) (cols : list (string * sql_type))
    (keys : list string) (ix_cols : list string) : exn + list string :=
  create_tbl_stmts ← mapM (fun c => n ← _get_valid_sqlite_name c.1;
                                    mret (n +:+ " " +:+ sql_type_text c.2)) cols;
  pk ← (if bool_decide (keys = []) then mret []
        else cnames_br ← mapM _get_valid_sqlite_name keys;
             mret ["CONSTRAINT " +:+ name +:+ "_pk PRIMARY KEY (" +:+
                   String.concat ", " cnames_br +:+ ")"]);
  tbl ← _get_valid_sqlite_name name;
  let create := "CREATE TABLE " +:+ tbl +:+ " (" +:+ nl +:+
                String.concat ("," +:+ nl +:+ "  ") (create_tbl_stmts ++ pk) +:+ nl +:+ ")" in
  if bool_decide (ix_cols = []) then mret [create]
  else
    ix_br ← mapM _get_valid_sqlite_name ix_cols;
    ix ← _get_valid_sqlite_name ("ix_" +:+ name +:+ "_" +:+ String.concat "_" ix_cols);
    tbl' ← _get_valid_sqlite_name name;
    mret [create; "CREATE INDEX " +:+ ix +:+ "ON " +:+ tbl' +:+ " (" +:+
                  String.concat "," ix_br +:+ ")"].

(** ** pandas: [SQLiteTable.insert_statement()] *)
Definition insert_statement (name : string) (names : list string) : exn + string :=
  bracketed_names ← mapM _get_valid_sqlite_name names;
  tbl ← _get_valid_sqlite_name name;
  mret ("INSERT INTO " +:+ tbl +:+ " (" +:+ String.concat "," bracketed_names +:+
        ") VALUES (" +:+ String.concat "," ((fun _ => "?") <$> names) +:+ ")").

(** ** SQLite: the CREATE statements *)

Inductive ddl_stmt :=
  | CreateTable (t : string) (cols : list (string * sql_type)) (pk : list string)
  | CreateIndex (i t : string) (cols : list string).

#[export] Instance ddl_stmt_eq_dec : EqDecision ddl_stmt.
Proof. solve_decision. Defined.

(** The declared types pandas writes.  (SQLite accepts any type name;
    pandas writes no other.) *)
Definition type_of_word (w : string) : option sql_type :=
  if bool_decide (w = "TEXT") then Some TEXT
  else if bool_decide (w = "REAL") then Some REAL
  else if bool_decide (w = "INTEGER") then Some INTEGER
  else if bool_decide (w = "TIMESTAMP") then Some TIMESTAMP
  else None.

Definition head_is_kw (ts : list token) (kw : string) : bool :=
  match ts with t :: _ => is_kw t kw | [] => false end.

(** [nm PRIMARY KEY (k1, ..., km))]: the constraint after [CONSTRAINT],
    and the parenthesis closing the column list. *)
Definition parse_pk (ts : list token) : option (list string * list token) :=
  match ts with
  | nm :: kp :: kk :: TLParen :: ts' =>
      _ ← tok_name nm;
      if is_kw kp "PRIMARY" && is_kw kk "KEY" then
        match parse_cols ts' with
        | Some (pk, TRParen :: rest) => Some (pk, rest)
        | _ => None
        end
      else None
  | _ => None
  end.

(** [c1 T1, ..., cn Tn)], optionally with a table constraint last. *)
Fixpoint parse_coldefs (ts : list token)
    : option (list (string * sql_type) * list string * list token) :=
  match ts with
  | tn :: TWord ty :: ts' =>
      c ← tok_name tn;
      t ← type_of_word ty;
      match ts' with
      | TRParen :: rest => Some ([(c, t)], [], rest)
      | TComma :: ts'' =>
          if head_is_kw ts'' "CONSTRAINT" then
            '(pk, rest) ← parse_pk (tail ts''); Some ([(c, t)], pk, rest)
          else
            '(cols, pk, rest) ← parse_coldefs ts''; Some ((c, t) :: cols, pk, rest)
      | _ => None
      end
  | _ => None
  end.

Definition parse_create_table (ts : list token) : option ddl_stmt :=
  match ts with
  | tn :: TLParen :: ts' =>
      t ← tok_name tn;
      match parse_coldefs ts' with
      | Some (cols, pk, []) => Some (CreateTable t cols pk)
      | _ => None
      end
  | _ => None
  end.

Definition parse_create_index (ts : list token) : option ddl_stmt :=
  match ts with
  | iname :: kon :: tn :: TLParen :: ts' =>
      i ← tok_name iname;
      t ← tok_name tn;
      if is_kw kon "ON" then
        match parse_cols ts' with
        | Some (cols, []) => Some (CreateIndex i t cols)
        | _ => None
        end
      else None
  | _ => None
  end.

Definition parse_ddl (ts : list token) : option ddl_stmt :=
  match ts with
  | k1 :: k2 :: rest =>
      if is_kw k1 "CREATE" then
        if is_kw k2 "TABLE" then parse_create_table rest
        else if is_kw k2 "INDEX" then parse_create_index rest
        else None
      else None
  | _ => None
  end.

(** What SQLite's prepare step makes of a CREATE statement: [None] is a
    syntax error. *)
Definition ddl_parse (sql : string) : option ddl_stmt := ts ← lex sql; parse_ddl ts.

(** ** The lexer on printed text

    [lexes s ts P]: the text [s], followed by any character satisfying
    [P], lexes to the tokens [ts] and leaves the lexer outside quotes
    with no pending word.  Texts and their tokens then compose. *)

Definition lexes (s : string) (ts : list token) (P : ascii -> Prop) : Prop :=
  forall c rest p, P c ->
    lex_go (s +:+ String c rest) (LWord []) (reverse p) =
    lex_go (String c rest) (LWord []) (reverse (p ++ ts)).

Fixpoint join_tokens (sep : list token) (tss : list (list token)) : list token :=
  match tss with
  | [] => []
  | [ts] => ts
  | ts :: tss' => ts ++ sep ++ join_tokens sep tss'
  end.

Section Lexes.

Lemma lex_go_plain c s acc toks st toks' :
  lex_plain c acc toks = Some (st, toks') -> lex_go (String c s) (LWord acc) toks = lex_go s st toks'.
Proof. intros H. cbn [lex_go lex_char]. by rewrite H. Qed.

Lemma lex_plain_flush c acc toks :
  is_word_char c = false -> lex_plain c acc toks = lex_plain c [] (flush acc toks).
Proof. intros Hc. unfold lex_plain. by rewrite Hc. Qed.

Lemma lexes_app s1 ts1 P1 c2 s2 ts2 P2 :
  lexes s1 ts1 P1 -> lexes (String c2 s2) ts2 P2 -> P1 c2 ->
  lexes (s1 +:+ String c2 s2) (ts1 ++ ts2) P2.
Proof.
  intros H1 H2 Hc c rest p Hp.
  rewrite string_app_assoc, string_app_cons, H1 by done.
  rewrite <-string_app_cons, H2 by done. by rewrite app_assoc.
Qed.

Lemma lexes_word w :
  w <> EmptyString -> all_word w = true -> lexes w [TWord w] (fun c => is_word_char c = false).
Proof.
  intros Hne Hw c rest p Hc. rewrite lex_go_word by done. cbn [lex_go lex_char].
  rewrite lex_plain_flush, flush_push_word by done. by rewrite reverse_app.
Qed.

Lemma lexes_sym c t :
  is_word_char c = false -> is_space c = false -> sym_token c = Some t ->
  lexes (String c EmptyString) [t] (fun _ => True).
Proof.
  intros Hc Hs Ht c' rest p _. rewrite string_app_cons.
  rewrite (lex_go_plain _ _ _ _ (LWord []) (t :: reverse p)) by (by apply lex_plain_sym).
  by rewrite reverse_app.
Qed.

Lemma lexes_space c :
  is_word_char c = false -> is_space c = true -> lexes (String c EmptyString) [] (fun _ => True).
Proof.
  intros Hc Hs c' rest p _. rewrite string_app_cons, app_nil_r.
  apply lex_go_plain. unfold lex_plain. by rewrite Hc, Hs.
Qed.

Lemma lex_go_quoted_body n s acc toks :
  lex_go (double_quotes n +:+ String dq s) (LQuote acc) toks =
  lex_go s (LQuoteEnd (push_word n acc)) toks.
Proof.
  revert acc. induction n as [|c n IH]; intros acc; [done|].
  cbn [double_quotes push_word]. case_bool_decide as Hc.
  - subst. apply IH.
  - rewrite string_app_cons. cbn [lex_go lex_char].
    rewrite bool_decide_eq_false_2 by done. apply IH.
Qed.

Lemma rev_to_string_push_nil n : rev_to_string (push_word n []) EmptyString = n.
Proof. by rewrite rev_to_string_push, string_app_nil_r. Qed.

Lemma lexes_quoted n : lexes (quote n) [TQuoted n] (fun c => c <> dq).
Proof.
  intros c rest p Hc. unfold quote.
  rewrite string_app_cons, string_app_assoc, string_app_cons.
  rewrite (lex_go_plain _ _ _ _ (LQuote []) (reverse p)) by reflexivity.
  rewrite lex_go_quoted_body. change (EmptyString +:+ String c rest) with (String c rest).
  cbn [lex_go lex_char].
  rewrite bool_decide_eq_false_2, rev_to_string_push_nil by done.
  rewrite reverse_app. reflexivity.
Qed.

(** A quoted name alone, at the end of the text. *)
Lemma lex_go_quote_end n toks :
  lex_go (quote n) (LWord []) toks = Some (reverse (TQuoted n :: toks)).
Proof.
  unfold quote. rewrite (lex_go_plain _ _ _ _ (LQuote []) toks) by reflexivity.
  rewrite lex_go_quoted_body. cbn [lex_go lex_end]. by rewrite rev_to_string_push_nil.
Qed.

Lemma string_concat_cons sep x xs :
  String.concat sep (x :: xs) =
  x +:+ match xs with [] => EmptyString | _ => sep +:+ String.concat sep xs end.
Proof. destruct xs; simpl; [by rewrite string_app_nil_r|done]. Qed.

Lemma string_concat_app_single sep l x :
  l <> [] -> String.concat sep (l ++ [x]) = String.concat sep l +:+ sep +:+ x.
Proof.
  induction l as [|y l IH]; intros Hne; [done|].
  destruct l as [|z l]; [reflexivity|].
  change (String.concat sep ((y :: z :: l) ++ [x]))
    with (y +:+ sep +:+ String.concat sep ((z :: l) ++ [x])).
  change (String.concat sep (y :: z :: l)) with (y +:+ sep +:+ String.concat sep (z :: l)).
  rewrite IH by done. by rewrite !string_app_assoc.
Qed.

Lemma lexes_concat {A} (f : A -> string) (g : A -> list token) (P : ascii -> Prop)
    cs sep tsep (xs : list A) :
  xs <> [] -> lexes (String cs sep) tsep (fun _ => True) -> P cs ->
  Forall (fun x => lexes (f x) (g x) P /\ exists c s, f x = String c s) xs ->
  lexes (String.concat (String cs sep) (f <$> xs)) (join_tokens tsep (g <$> xs)) P.
Proof.
  intros Hne Hsep Hcs Hall. induction Hall as [|x xs [Hx _] Hxs IH]; [done|].
  destruct xs as [|y ys]; [done|].
  inversion Hxs as [|? ? [_ (c & s & Hy)] _]; subst.
  specialize (IH ltac:(done)).
  assert (exists s', String.concat (String cs sep) (f <$> y :: ys) = String c s') as [s' Hcat].
  { cbn [fmap list_fmap]. rewrite string_concat_cons, Hy. by eexists. }
  rewrite Hcat in IH.
  change (String.concat (String cs sep) (f <$> x :: y :: ys))
    with (f x +:+ String cs sep +:+ String.concat (String cs sep) (f <$> y :: ys)).
  change (join_tokens tsep (g <$> x :: y :: ys))
    with (g x ++ tsep ++ join_tokens tsep (g <$> y :: ys)).
  rewrite Hcat.
  change (String cs sep +:+ String c s') with (String cs (sep +:+ String c s')).
  apply (lexes_app _ _ P cs (sep +:+ String c s')); [done| |done].
  change (String cs (sep +:+ String c s')) with (String cs sep +:+ String c s').
  by apply (lexes_app _ _ (fun _ => True)).
Qed.

End Lexes.

(** ** The printed statements, lexed and parsed *)

(** A name pandas can write: not empty, without NUL. *)
Definition valid_name (n : string) : bool := bool_decide (n <> EmptyString) && negb (has_nul n).

Definition starts (P : ascii -> Prop) (s : string) : Prop :=
  match s with EmptyString => False | String c _ => P c end.

Definition coldef_tokens (c : string * sql_type) : list token := [TQuoted c.1; TWord (sql_type_text c.2)].

Definition quoted_tokens (n : string) : list token := [TQuoted n].

(** The tokens of [CONSTRAINT <name>_pk PRIMARY KEY (k1, ..., km)], when
    [<name>_pk] lexes to [nts]. *)
Definition pk_tokens (nts : list token) (keys : list string) : list token :=
  TWord "CONSTRAINT" :: nts ++ [TWord "PRIMARY"; TWord "KEY"; TLParen] ++
  join_tokens [TComma] (quoted_tokens <$> keys) ++ [TRParen].

Ltac lexes_fixed := intros ? ? ? _; rewrite reverse_app; reflexivity.

Section Printed.

Lemma _get_valid_sqlite_name_ok n : valid_name n = true -> _get_valid_sqlite_name n = inr (quote n).
Proof.
  unfold valid_name, _get_valid_sqlite_name. intros H.
  apply andb_prop in H as [Hn Hnul]. apply bool_decide_eq_true in Hn.
  rewrite bool_decide_eq_false_2 by done. destruct (has_nul n); [discriminate|done].
Qed.

Lemma mapM_escape_ok l :
  Forall (fun n => valid_name n = true) l -> mapM _get_valid_sqlite_name l = inr (quote <$> l).
Proof. intros Hl. apply mapM_sum_ok. eapply Forall_impl; [done|]. apply _get_valid_sqlite_name_ok. Qed.

Lemma lexes_weaken s ts (P Q : ascii -> Prop) :
  lexes s ts P -> (forall c, Q c -> P c) -> lexes s ts Q.
Proof. intros H HQ c rest p Hc. by apply H, HQ. Qed.

Lemma lexes_app2 s1 ts1 P1 s2 ts2 P2 :
  lexes s1 ts1 P1 -> lexes s2 ts2 P2 -> starts P1 s2 -> lexes (s1 +:+ s2) (ts1 ++ ts2) P2.
Proof. destruct s2 as [|c2 s2]; [done|]. apply lexes_app. Qed.

Lemma lexes_nil P : lexes EmptyString [] P.
Proof. intros c rest p _. by rewrite app_nil_r. Qed.

Lemma lexes_space_word w :
  w <> EmptyString -> all_word w = true ->
  lexes (String " " w) [TWord w] (fun c => is_word_char c = false).
Proof.
  intros Hne Hw. change (String " " w) with (String " " EmptyString +:+ w).
  change [TWord w] with ([] ++ [TWord w]).
  apply (lexes_app2 _ _ (fun _ => True)); [by apply lexes_space|by apply lexes_word|].
  by destruct w.
Qed.

Lemma sql_type_text_word t : sql_type_text t <> EmptyString /\ all_word (sql_type_text t) = true.
Proof. by destruct t. Qed.

Lemma type_of_word_text t : type_of_word (sql_type_text t) = Some t.
Proof. by destruct t. Qed.

Lemma lexes_coldef c :
  lexes (quote c.1 +:+ " " +:+ sql_type_text c.2) (coldef_tokens c) (fun ch => is_word_char ch = false).
Proof.
  destruct c as [n t]. destruct (sql_type_text_word t) as [Hne Hw]. cbn [fst snd].
  change (" " +:+ sql_type_text t) with (String " " (sql_type_text t)).
  change (coldef_tokens (n, t)) with ([TQuoted n] ++ [TWord (sql_type_text t)]).
  apply (lexes_app2 _ _ (fun c => c <> dq)); [apply lexes_quoted|by apply lexes_space_word|done].
Qed.

Lemma lexes_quoted_list (keys : list string) cs sep tsep :
  keys <> [] -> lexes (String cs sep) tsep (fun _ => True) -> cs <> dq ->
  lexes (String.concat (String cs sep) (quote <$> keys))
        (join_tokens tsep (quoted_tokens <$> keys)) (fun c => c <> dq).
Proof.
  intros Hne Hsep Hcs. apply lexes_concat; [done..|].
  apply Forall_forall. intros k _. split; [apply lexes_quoted|by eexists _, _].
Qed.

Lemma lexes_qmarks (names : list string) :
  names <> [] ->
  lexes (String.concat "," ((fun _ => "?") <$> names))
        (join_tokens [TComma] ((fun _ => [TQMark]) <$> names)) (fun _ => True).
Proof.
  intros Hne. apply lexes_concat; [done|by apply lexes_sym|done|].
  apply Forall_forall. intros k _. split; [by apply lexes_sym|by eexists _, _].
Qed.

(** The clause [CONSTRAINT <name>_pk PRIMARY KEY (keys)]. *)
Lemma lexes_pk name keys nts :
  keys <> [] -> lexes (name +:+ "_pk") nts (fun c => is_word_char c = false) ->
  lexes ("CONSTRAINT " +:+ name +:+ "_pk PRIMARY KEY (" +:+ String.concat ", " (quote <$> keys) +:+ ")")
        (pk_tokens nts keys) (fun _ => True).
Proof.
  intros Hne Hn.
  change ("_pk PRIMARY KEY (" +:+ ?x) with ("_pk" +:+ " PRIMARY KEY (" +:+ x).
  rewrite <-(string_app_assoc name "_pk").
  unfold pk_tokens. change (TWord "CONSTRAINT" :: ?x) with ([TWord "CONSTRAINT"] ++ x).
  apply (lexes_app2 _ _ (fun _ => True)); [lexes_fixed| |by destruct name].
  apply (lexes_app2 _ _ (fun c => is_word_char c = false)); [done| |done].
  apply (lexes_app2 _ _ (fun _ => True)); [lexes_fixed| |by destruct (String.concat _ _)].
  apply (lexes_app2 _ _ (fun c => c <> dq)); [|by apply lexes_sym|done].
  apply lexes_quoted_list; [done|lexes_fixed|done].
Qed.

End Printed.

(** ** Parsing the printed tokens *)

Section Parsing.

Lemma join_tokens_cons sep x xs :
  join_tokens sep (x :: xs) = x ++ match xs with [] => [] | _ => sep ++ join_tokens sep xs end.
Proof. destruct xs; simpl; [by rewrite app_nil_r|done]. Qed.

Lemma parse_cols_quoted keys rest :
  keys <> [] ->
  parse_cols (join_tokens [TComma] (quoted_tokens <$> keys) ++ TRParen :: rest) = Some (keys, rest).
Proof.
  induction keys as [|k [|k' ks] IH]; intros Hne; [done|done|].
  change (join_tokens [TComma] (quoted_tokens <$> k :: k' :: ks) ++ TRParen :: rest)
    with (TQuoted k :: TComma :: (join_tokens [TComma] (quoted_tokens <$> k' :: ks) ++ TRParen :: rest)).
  cbn [parse_cols tok_name mbind option_bind]. by rewrite IH.
Qed.

Lemma join_qmarks (names : list string) :
  join_tokens [TComma] ((fun _ => [TQMark]) <$> names) = qmark_tokens (length names).
Proof.
  induction names as [|n [|n' ns] IH]; [done|done|].
  change (join_tokens [TComma] ((fun _ => [TQMark]) <$> n :: n' :: ns))
    with (TQMark :: TComma :: join_tokens [TComma] ((fun _ => [TQMark]) <$> n' :: ns)).
  by rewrite IH.
Qed.

Lemma coldefs_head c cs r :
  head_is_kw (join_tokens [TComma] (coldef_tokens <$> c :: cs) ++ r) "CONSTRAINT" = false.
Proof. cbn [fmap list_fmap]. by rewrite join_tokens_cons. Qed.

Lemma parse_coldefs_plain cols rest :
  cols <> [] ->
  parse_coldefs (join_tokens [TComma] (coldef_tokens <$> cols) ++ TRParen :: rest) = Some (cols, [], rest).
Proof.
  induction cols as [|[n t] [|c' cs] IH]; intros Hne; [done| |].
  - cbn [fmap list_fmap join_tokens coldef_tokens app fst snd parse_coldefs tok_name mbind option_bind].
    by rewrite type_of_word_text.
  - pose proof (coldefs_head c' cs (TRParen :: rest)) as Hh.
    set (J := join_tokens [TComma] (coldef_tokens <$> c' :: cs)) in *.
    change (join_tokens [TComma] (coldef_tokens <$> (n, t) :: c' :: cs))
      with ([TQuoted n; TWord (sql_type_text t)] ++ [TComma] ++ J).
    cbn [app parse_coldefs tok_name mbind option_bind]. rewrite type_of_word_text.
    cbn [mbind option_bind]. rewrite Hh, IH by done. done.
Qed.

Lemma parse_coldefs_key cols ts :
  cols <> [] ->
  parse_coldefs (join_tokens [TComma] (coldef_tokens <$> cols) ++ TComma :: TWord "CONSTRAINT" :: ts) =
    '(pk, r) ← parse_pk ts; Some (cols, pk, r).
Proof.
  induction cols as [|[n t] [|c' cs] IH]; intros Hne; [done| |].
  - cbn [fmap list_fmap join_tokens coldef_tokens app fst snd parse_coldefs tok_name mbind option_bind].
    rewrite type_of_word_text. cbn [mbind option_bind head_is_kw is_kw tail].
    rewrite bool_decide_eq_true_2 by done. by destruct (parse_pk ts) as [[]|].
  - pose proof (coldefs_head c' cs (TComma :: TWord "CONSTRAINT" :: ts)) as Hh.
    set (J := join_tokens [TComma] (coldef_tokens <$> c' :: cs)) in *.
    change (join_tokens [TComma] (coldef_tokens <$> (n, t) :: c' :: cs))
      with ([TQuoted n; TWord (sql_type_text t)] ++ [TComma] ++ J).
    cbn [app parse_coldefs tok_name mbind option_bind]. rewrite type_of_word_text.
    cbn [mbind option_bind]. rewrite Hh, IH by done. by destruct (parse_pk ts) as [[]|].
Qed.

Lemma parse_pk_ok w keys rest :
  is_ident w = true -> keys <> [] ->
  parse_pk (TWord w :: TWord "PRIMARY" :: TWord "KEY" :: TLParen ::
            join_tokens [TComma] (quoted_tokens <$> keys) ++ TRParen :: TRParen :: rest) =
    Some (keys, rest).
Proof.
  intros Hw Hne. unfold parse_pk. cbn [tok_name]. rewrite Hw.
  change (is_kw (TWord "PRIMARY") "PRIMARY" && is_kw (TWord "KEY") "KEY") with true.
  cbn [mbind option_bind]. by rewrite parse_cols_quoted.
Qed.

End Parsing.

(** ** The statements pandas prints, read back by SQLite *)

(** The pieces of [_create_table_setup]'s text, for names that escape. *)
Definition coldef_text (c : string * sql_type) : string := quote c.1 +:+ " " +:+ sql_type_text c.2.

Definition pk_text (name : string) (keys : list string) : string :=
  "CONSTRAINT " +:+ name +:+ "_pk PRIMARY KEY (" +:+ String.concat ", " (quote <$> keys) +:+ ")".

Definition create_text (name : string) (cols : list (string * sql_type)) (keys : list string) : string :=
  "CREATE TABLE " +:+ quote name +:+ " (" +:+ nl +:+
  String.concat ("," +:+ nl +:+ "  ")
    ((coldef_text <$> cols) ++ (if bool_decide (keys = []) then [] else [pk_text name keys])) +:+
  nl +:+ ")".

Definition index_name (name : string) (ix_cols : list string) : string :=
  "ix_" +:+ name +:+ "_" +:+ String.concat "_" ix_cols.

Definition index_text (name : string) (ix_cols : list string) : string :=
  "CREATE INDEX " +:+ quote (index_name name ix_cols) +:+ "ON " +:+ quote name +:+ " (" +:+
  String.concat "," (quote <$> ix_cols) +:+ ")".

Definition insert_text (name : string) (names : list string) : string :=
  "INSERT INTO " +:+ quote name +:+ " (" +:+ String.concat "," (quote <$> names) +:+
  ") VALUES (" +:+ String.concat "," ((fun _ => "?") <$> names) +:+ ")".

(** [s] lexes to [ts] up to the end of the text. *)
Definition lexes_end (s : string) (ts : list token) : Prop :=
  forall p, lex_go s (LWord []) (reverse p) = Some (p ++ ts).

Section Roundtrip.

Lemma has_nul_app a b : has_nul (a +:+ b) = has_nul a || has_nul b.
Proof. induction a as [|c a IH]; [done|]. rewrite string_app_cons. cbn [has_nul]. by rewrite IH, orb_assoc. Qed.

Lemma has_nul_concat sep l :
  has_nul sep = false -> Forall (fun x => has_nul x = false) l -> has_nul (String.concat sep l) = false.
Proof.
  intros Hs. induction 1 as [|x l Hx Hl IH]; [done|].
  rewrite string_concat_cons, has_nul_app, Hx. destruct l; [done|]. by rewrite has_nul_app, Hs, IH.
Qed.

Lemma valid_name_nul n : valid_name n = true -> has_nul n = false.
Proof. unfold valid_name. intros [_ H]%andb_prop. by destruct (has_nul n). Qed.

Lemma index_name_valid name ix :
  valid_name name = true -> Forall (fun k => valid_name k = true) ix ->
  valid_name (index_name name ix) = true.
Proof.
  intros Hn Hix. unfold valid_name, index_name.
  rewrite bool_decide_eq_true_2 by done.
  rewrite !has_nul_app, (valid_name_nul name), has_nul_concat; try done.
  by eapply Forall_impl; [|apply valid_name_nul].
Qed.

(** With names that escape, [_create_table_setup] prints [create_text]
    and, when there are index columns, [index_text]. *)
Lemma _create_table_setup_ok name cols keys ix :
  valid_name name = true -> Forall (fun c => valid_name c.1 = true) cols ->
  Forall (fun k => valid_name k = true) keys -> Forall (fun k => valid_name k = true) ix ->
  _create_table_setup name cols keys ix =
    inr (create_text name cols keys :: if bool_decide (ix = []) then [] else [index_text name ix]).
Proof.
  intros Hn Hc Hk Hi. unfold _create_table_setup, create_text.
  rewrite (mapM_sum_ok _ coldef_text).
  2: { eapply Forall_impl; [done|]. intros c Hc1. cbn. by rewrite _get_valid_sqlite_name_ok. }
  cbn [mbind sum_mbind].
  destruct (decide (keys = [])) as [->|Hk0];
    [rewrite (bool_decide_eq_true_2 (@nil string = [])) by done
    |rewrite (bool_decide_eq_false_2 (keys = [])), (mapM_escape_ok keys) by done].
  all: cbn [mbind sum_mbind mret sum_mret]; rewrite (_get_valid_sqlite_name_ok name) by done;
    cbn [mbind sum_mbind mret sum_mret];
    (destruct (decide (ix = [])) as [->|Hi0];
     [rewrite (bool_decide_eq_true_2 (@nil string = [])) by done; reflexivity
     |rewrite (bool_decide_eq_false_2 (ix = [])) by done]);
    rewrite (mapM_escape_ok ix) by done; cbn [mbind sum_mbind];
    rewrite (_get_valid_sqlite_name_ok ("ix_" +:+ name +:+ "_" +:+ String.concat "_" ix))
      by (by apply index_name_valid);
    reflexivity.
Qed.

Lemma starts_True_app s t : t <> EmptyString -> starts (fun _ => True) (s +:+ t).
Proof. intros H. destruct s; [destruct t|]; simpl; done. Qed.

Lemma lexes_end_app s1 ts1 P1 s2 ts2 ts :
  lexes s1 ts1 P1 -> lexes_end s2 ts2 -> starts P1 s2 -> ts = ts1 ++ ts2 -> lexes_end (s1 +:+ s2) ts.
Proof.
  intros H1 H2 Hs ->. destruct s2 as [|c s2]; [done|]. intros p.
  rewrite H1 by done. by rewrite H2, app_assoc.
Qed.

Lemma lexes_app3 s1 ts1 P1 s2 ts2 P2 ts :
  lexes s1 ts1 P1 -> lexes s2 ts2 P2 -> starts P1 s2 -> ts = ts1 ++ ts2 -> lexes (s1 +:+ s2) ts P2.
Proof. intros H1 H2 Hs ->. by apply (lexes_app2 _ _ P1). Qed.

Lemma lexes_end_rparen : lexes_end ")" [TRParen].
Proof.
  intros p. cbn [lex_go lex_char]. rewrite (lex_plain_sym _ TRParen) by done.
  cbn [lex_go lex_end flush]. by rewrite reverse_cons, reverse_involutive.
Qed.

Lemma lexes_end_lex s ts : lexes_end s ts -> lex s = Some ts.
Proof. intros H. apply (H []). Qed.

Lemma lexes_nl : lexes nl [] (fun _ => True).
Proof. by apply lexes_space. Qed.

Lemma all_word_app a b : all_word (a +:+ b) = all_word a && all_word b.
Proof. induction a as [|c a IH]; [done|]. rewrite string_app_cons. cbn [all_word]. by rewrite IH, andb_assoc. Qed.

Lemma lexes_pk_word name :
  simple_ident name = true ->
  lexes (name +:+ "_pk") [TWord (name +:+ "_pk")] (fun c => is_word_char c = false).
Proof.
  intros [_ Hw]%andb_prop. apply lexes_word; [by destruct name|]. by rewrite all_word_app, Hw.
Qed.

Lemma is_ident_pk name : simple_ident name = true -> is_ident (name +:+ "_pk") = true.
Proof. intros [H _]%andb_prop. by destruct name. Qed.

Lemma lex_create_text name cols keys nts :
  cols <> [] -> (keys <> [] -> lexes (name +:+ "_pk") nts (fun c => is_word_char c = false)) ->
  lex (create_text name cols keys) =
    Some (TWord "CREATE" :: TWord "TABLE" :: TQuoted name :: TLParen ::
          join_tokens [TComma] (coldef_tokens <$> cols) ++
          (if bool_decide (keys = []) then [] else TComma :: pk_tokens nts keys) ++ [TRParen]).
Proof.
  intros Hne Hpk. apply lexes_end_lex. unfold create_text.
  assert (Hdefs : lexes (String.concat (String "," (nl +:+ "  ")) (coldef_text <$> cols))
                        (join_tokens [TComma] (coldef_tokens <$> cols)) (fun c => is_word_char c = false)).
  { apply lexes_concat; [done|lexes_fixed|done|].
    apply Forall_forall. intros c _. split; [apply lexes_coldef|by eexists _, _]. }
  eapply (lexes_end_app _ [TWord "CREATE"; TWord "TABLE"] (fun _ => True));
    [lexes_fixed| |done|reflexivity].
  eapply (lexes_end_app _ _ (fun c => c <> dq)); [apply lexes_quoted| |done|reflexivity].
  eapply (lexes_end_app _ [TLParen] (fun _ => True)); [lexes_fixed| |done|reflexivity].
  eapply (lexes_end_app _ _ (fun _ => True)); [apply lexes_nl| |apply starts_True_app; by unfold nl|reflexivity].
  change ("," +:+ nl +:+ "  ") with (String "," (nl +:+ "  ")).
  destruct (decide (keys = [])) as [->|Hk].
  - rewrite (bool_decide_eq_true_2 (@nil string = [])), app_nil_r by done.
    eapply (lexes_end_app _ _ (fun c => is_word_char c = false)); [done| |done|reflexivity].
    eapply (lexes_end_app _ _ (fun _ => True)); [apply lexes_nl| |done|reflexivity].
    apply lexes_end_rparen.
  - rewrite (bool_decide_eq_false_2 (keys = [])), string_concat_app_single, !string_app_assoc
      by (try done; by destruct cols).
    eapply (lexes_end_app _ _ (fun c => is_word_char c = false)); [done| |done|reflexivity].
    eapply (lexes_end_app _ [TComma] (fun _ => True)); [lexes_fixed| |done|reflexivity].
    eapply (lexes_end_app _ _ (fun _ => True)); [by apply lexes_pk, Hpk| |done|reflexivity].
    eapply (lexes_end_app _ _ (fun _ => True)); [apply lexes_nl| |done|reflexivity].
    apply lexes_end_rparen.
Qed.

Lemma lex_index_text name ix :
  ix <> [] ->
  lex (index_text name ix) =
    Some (TWord "CREATE" :: TWord "INDEX" :: TQuoted (index_name name ix) :: TWord "ON" ::
          TQuoted name :: TLParen :: join_tokens [TComma] (quoted_tokens <$> ix) ++ [TRParen]).
Proof.
  intros Hne. apply lexes_end_lex. unfold index_text.
  eapply (lexes_end_app _ [TWord "CREATE"; TWord "INDEX"] (fun _ => True));
    [lexes_fixed| |done|reflexivity].
  eapply (lexes_end_app _ _ (fun c => c <> dq)); [apply lexes_quoted| |done|reflexivity].
  eapply (lexes_end_app _ [TWord "ON"] (fun _ => True)); [lexes_fixed| |done|reflexivity].
  eapply (lexes_end_app _ _ (fun c => c <> dq)); [apply lexes_quoted| |done|reflexivity].
  eapply (lexes_end_app _ [TLParen] (fun _ => True)); [lexes_fixed| |by apply starts_True_app|reflexivity].
  eapply (lexes_end_app _ _ (fun c => c <> dq));
    [apply lexes_quoted_list; [done|by apply lexes_sym|done]| |done|reflexivity].
  apply lexes_end_rparen.
Qed.

Lemma insert_statement_ok name names :
  valid_name name = true -> Forall (fun n => valid_name n = true) names ->
  insert_statement name names = inr (insert_text name names).
Proof.
  intros Hn Hs. unfold insert_statement. rewrite mapM_escape_ok by done.
  cbn [mbind sum_mbind]. by rewrite _get_valid_sqlite_name_ok.
Qed.

Lemma lex_insert_text name names :
  names <> [] ->
  lex (insert_text name names) =
    Some (TWord "INSERT" :: TWord "INTO" :: TQuoted name :: TLParen ::
          join_tokens [TComma] (quoted_tokens <$> names) ++ [TRParen; TWord "VALUES"; TLParen] ++
          join_tokens [TComma] ((fun _ => [TQMark]) <$> names) ++ [TRParen]).
Proof.
  intros Hne. apply lexes_end_lex. unfold insert_text.
  eapply (lexes_end_app _ [TWord "INSERT"; TWord "INTO"] (fun _ => True));
    [lexes_fixed| |done|reflexivity].
  eapply (lexes_end_app _ _ (fun c => c <> dq)); [apply lexes_quoted| |done|reflexivity].
  eapply (lexes_end_app _ [TLParen] (fun _ => True)); [lexes_fixed| |by apply starts_True_app|reflexivity].
  eapply (lexes_end_app _ _ (fun c => c <> dq));
    [apply lexes_quoted_list; [done|by apply lexes_sym|done]| |done|reflexivity].
  eapply (lexes_end_app _ [TRParen; TWord "VALUES"; TLParen] (fun _ => True));
    [lexes_fixed| |by apply starts_True_app|reflexivity].
  eapply (lexes_end_app _ _ (fun _ => True)); [by apply lexes_qmarks| |done|reflexivity].
  apply lexes_end_rparen.
Qed.

Lemma sql_parse_insert_text name names :
  names <> [] -> sql_parse (insert_text name names) = Some (InsertStmt Plain name names (length names)).
Proof.
  intros Hne. unfold sql_parse. rewrite lex_insert_text by done.
  cbn [parse_insert is_kw]. rewrite (bool_decide_eq_false_2 ("INTO" = "OR")) by done.
  rewrite !(bool_decide_eq_true_2 (_ = _)) by done. cbn [andb parse_target tok_name mbind option_bind].
  change ([TRParen; TWord "VALUES"; TLParen] ++ ?x) with (TRParen :: TWord "VALUES" :: TLParen :: x).
  rewrite parse_cols_quoted by done. cbn [is_kw]. rewrite bool_decide_eq_true_2 by done.
  rewrite join_qmarks, parse_params_tokens; [done|]. destruct names; [done|simpl; lia].
Qed.

Lemma ddl_parse_create_text name cols keys :
  cols <> [] -> (keys = [] \/ simple_ident name = true) ->
  ddl_parse (create_text name cols keys) = Some (CreateTable name cols keys).
Proof.
  intros Hne Hk. unfold ddl_parse.
  rewrite (lex_create_text name cols keys [TWord (name +:+ "_pk")]); cycle 1; [done| |].
  { intros Hk0. destruct Hk as [->|Hs]; [done|]. by apply lexes_pk_word. }
  cbn [mbind option_bind parse_ddl is_kw]. rewrite !(bool_decide_eq_true_2 (_ = _)) by done.
  cbn [parse_create_table tok_name mbind option_bind].
  destruct (decide (keys = [])) as [->|Hk0].
  - rewrite (bool_decide_eq_true_2 (@nil string = [])) by done. cbn [app].
    by rewrite parse_coldefs_plain.
  - rewrite (bool_decide_eq_false_2 (keys = [])) by done. destruct Hk as [|Hs]; [done|].
    unfold pk_tokens. cbn [app]. rewrite <-!app_assoc. cbn [app].
    rewrite parse_coldefs_key by done. by rewrite parse_pk_ok by (done || by apply is_ident_pk).
Qed.

Lemma ddl_parse_index_text name ix :
  ix <> [] -> ddl_parse (index_text name ix) = Some (CreateIndex (index_name name ix) name ix).
Proof.
  intros Hne. unfold ddl_parse. rewrite lex_index_text by done.
  cbn [mbind option_bind parse_ddl is_kw]. rewrite (bool_decide_eq_true_2 ("CREATE" = _)) by done.
  rewrite (bool_decide_eq_false_2 ("INDEX" = "TABLE")) by done.
  rewrite (bool_decide_eq_true_2 ("INDEX" = _)) by done.
  cbn [parse_create_index tok_name mbind option_bind is_kw].
  rewrite (bool_decide_eq_true_2 ("ON" = _)) by done. by rewrite parse_cols_quoted.
Qed.

(** A table name with a blank, followed by keys: the constraint name
    pandas leaves unquoted reads as two words. *)
Lemma ddl_parse_create_text_blank a b cols keys :
  simple_ident a = true -> all_word b = true -> cols <> [] -> keys <> [] ->
  ddl_parse (create_text (a +:+ " " +:+ b) cols keys) = None.
Proof.
  intros Ha Hb Hne Hk. unfold ddl_parse.
  rewrite (lex_create_text _ cols keys [TWord a; TWord (b +:+ "_pk")]); [|done|].
  2: { intros _. rewrite !string_app_assoc.
       eapply (lexes_app3 _ _ (fun c => is_word_char c = false));
         [apply andb_prop in Ha as [Ha1 Ha2]; apply lexes_word; [destruct a; [discriminate|done]|done]
         |apply lexes_space_word; [by destruct b|by rewrite all_word_app, Hb]|done|done]. }
  cbn [mbind option_bind parse_ddl is_kw]. rewrite !(bool_decide_eq_true_2 (_ = _)) by done.
  cbn [parse_create_table tok_name mbind option_bind].
  rewrite (bool_decide_eq_false_2 (keys = [])) by done.
  unfold pk_tokens. cbn [app]. rewrite <-!app_assoc. cbn [app].
  by rewrite parse_coldefs_key.
Qed.

End Roundtrip.

(** ** What pandas' CREATE TABLE can do *)

Section Shape.

Lemma _get_valid_sqlite_name_inr n q : _get_valid_sqlite_name n = inr q -> q = quote n.
Proof. unfold _get_valid_sqlite_name. case_bool_decide; [done|]. by destruct (has_nul n); intros [= <-]. Qed.

Lemma _get_valid_sqlite_name_valid n q : _get_valid_sqlite_name n = inr q -> valid_name n = true.
Proof.
  unfold _get_valid_sqlite_name, valid_name. case_bool_decide; [done|].
  rewrite bool_decide_eq_true_2 by done. by destruct (has_nul n).
Qed.

Lemma all_word_no_nul w : all_word w = true -> has_nul w = false.
Proof.
  induction w as [|c w IH]; [done|]. cbn [all_word has_nul]. intros [Hc Hw]%andb_prop.
  rewrite IH by done. rewrite bool_decide_eq_false_2; [done|]. intros ->. discriminate Hc.
Qed.

Lemma simple_ident_valid w : simple_ident w = true -> valid_name w = true.
Proof.
  intros [Hi Hw]%andb_prop. unfold valid_name. rewrite all_word_no_nul by done.
  rewrite bool_decide_eq_true_2; [done|]. by intros ->.
Qed.

(** Whatever it escapes, [_create_table_setup] prints [create_text] first. *)
Lemma _create_table_setup_inr name cols keys ix stmts :
  _create_table_setup name cols keys ix = inr stmts ->
  valid_name name = true /\
  exists rest, stmts = create_text name cols keys :: rest /\ (ix = [] -> rest = []).
Proof.
  unfold _create_table_setup.
  destruct (mapM _ cols) as [e|defs] eqn:Hd; [done|]. cbn [mbind sum_mbind].
  apply (mapM_sum_inr_eq _ coldef_text) in Hd;
    [|intros c y; destruct (_get_valid_sqlite_name c.1) as [|q] eqn:Hq; [done|];
      apply _get_valid_sqlite_name_inr in Hq as ->; by intros [= <-]].
  destruct (if bool_decide (keys = []) then _ else _) as [e|pk] eqn:Hpk; [done|].
  destruct (_get_valid_sqlite_name name) as [e|tbl] eqn:Ht; [done|].
  pose proof (_get_valid_sqlite_name_valid _ _ Ht) as Hv.
  apply _get_valid_sqlite_name_inr in Ht as ->. subst defs.
  assert (pk = if bool_decide (keys = []) then [] else [pk_text name keys]) as ->.
  { case_bool_decide; [by injection Hpk|].
    destruct (mapM _get_valid_sqlite_name keys) as [e|br] eqn:Hb; [done|].
    apply (mapM_sum_inr_eq _ quote) in Hb; [|apply _get_valid_sqlite_name_inr].
    injection Hpk as <-. by subst br. }
  cbn [mbind sum_mbind]. destruct (bool_decide (ix = [])) eqn:Hix.
  - unfold mret, sum_mret. intros [= <-]. split; [done|by exists []].
  - destruct (mapM _get_valid_sqlite_name ix) as [e|?]; [intros [=]|].
    destruct (_get_valid_sqlite_name (_ +:+ _)) as [e|?]; [intros [=]|].
    unfold mret, sum_mret. intros [= <-]. split; [done|eexists; split; [done|]].
    intros ->. by rewrite bool_decide_eq_true_2 in Hix.
Qed.

Lemma lex_char_prepends st c toks st' toks' :
  lex_char st c toks = Some (st', toks') -> exists q, toks' = q ++ toks.
Proof.
  assert (forall acc, exists q, flush acc toks = q ++ toks) as Hf.
  { intros [|a acc]; [by exists []|by eexists [_]]. }
  assert (forall c acc toks0 st1 toks1, (exists q, toks0 = q ++ toks) ->
            lex_plain c acc toks0 = Some (st1, toks1) -> exists q, toks1 = q ++ toks) as Hp.
  { intros c' acc toks0 st1 toks1 [q0 ->]. unfold lex_plain.
    destruct (Hf acc) as [q1 Hq1].
    repeat case_match; intros [= <- <-]; try (by exists q0);
      unfold flush in *; destruct acc; simplify_eq/=;
      first [by exists (q0) | by eexists (_ :: q0) | by eexists (_ :: _ :: q0)]. }
  destruct st as [acc|acc|acc]; cbn [lex_char].
  - apply Hp. by exists [].
  - case_bool_decide; intros [= <- <-]; by exists [].
  - case_bool_decide; [intros [= <- <-]; by exists []|]. apply Hp. by eexists [_].
Qed.

Lemma lex_go_prefix s st toks ts : lex_go s st toks = Some ts -> exists q, ts = reverse toks ++ q.
Proof.
  revert st toks. induction s as [|c s IH]; intros st toks.
  - destruct st as [acc|acc|acc]; cbn [lex_go lex_end]; [|done|].
    + intros [= <-]. destruct acc; cbn [flush]; [exists []; by rewrite app_nil_r|].
      rewrite reverse_cons. by eexists.
    + intros [= <-]. rewrite reverse_cons. by eexists.
  - cbn [lex_go]. destruct (lex_char st c toks) as [[st' toks']|] eqn:Hc; [|done].
    intros Hs. apply IH in Hs as [q' ->]. apply lex_char_prepends in Hc as [q ->].
    rewrite reverse_app, <-app_assoc. by eexists.
Qed.

(** Parsed at all, pandas' CREATE TABLE creates the table it names. *)
Lemma ddl_parse_create_text_name name cols keys st :
  ddl_parse (create_text name cols keys) = Some st -> exists cs pk, st = CreateTable name cs pk.
Proof.
  unfold ddl_parse, lex, create_text.
  set (rest := String.concat _ _ +:+ nl +:+ ")").
  assert (lexes ("CREATE TABLE " +:+ quote name +:+ " (" +:+ nl)
                [TWord "CREATE"; TWord "TABLE"; TQuoted name; TLParen] (fun _ => True)) as Hpre.
  { eapply (lexes_app3 _ [TWord "CREATE"; TWord "TABLE"] (fun _ => True)); [lexes_fixed| |done|done].
    eapply (lexes_app3 _ _ (fun c => c <> dq)); [apply lexes_quoted| |done|done].
    change (" (" +:+ nl) with (String " " (String "(" (String "010"%char EmptyString))). lexes_fixed. }
  assert (exists c r, rest = String c r) as (c & r & Hr).
  { subst rest. destruct (String.concat _ _); by eexists _, _. }
  change (@nil token) with (reverse (@nil token)).
  replace ("CREATE TABLE " +:+ quote name +:+ " (" +:+ nl +:+ rest)
    with (("CREATE TABLE " +:+ quote name +:+ " (" +:+ nl) +:+ rest) by (by rewrite !string_app_assoc).
  rewrite Hr, (Hpre c r []) by done.
  destruct (lex_go _ _ _) as [ts|] eqn:Hts; [|done]. apply lex_go_prefix in Hts as [q ->].
  rewrite reverse_involutive. cbn [app mbind option_bind parse_ddl is_kw].
  rewrite !(bool_decide_eq_true_2 (_ = _)) by done.
  cbn [parse_create_table tok_name mbind option_bind].
  destruct (parse_coldefs q) as [[[cs pk] [|]]|]; [|done|done]. intros [= <-]. by eexists _, _.
Qed.

End Shape.

(** ** A name with a blank in the upsert's text

    [_InsertOrReplaceStatement] writes names bare: SQLite reads a name
    [a b] as the two words [a] and [b], and a column list cannot hold
    two names in a row. *)

Section Blank.

Lemma string_concat_app_cons sep l1 x l2 :
  l1 <> [] ->
  String.concat sep (l1 ++ x :: l2) = String.concat sep l1 +:+ sep +:+ String.concat sep (x :: l2).
Proof.
  induction l1 as [|y [|z l1] IH]; intros Hne; [done|reflexivity|].
  change (String.concat sep ((y :: z :: l1) ++ x :: l2))
    with (y +:+ sep +:+ String.concat sep ((z :: l1) ++ x :: l2)).
  change (String.concat sep (y :: z :: l1)) with (y +:+ sep +:+ String.concat sep (z :: l1)).
  rewrite IH by done. by rewrite !string_app_assoc.
Qed.

(** [a b] then a separator symbol lexes to two words and the symbol. *)
Lemma lex_go_blank a b c t s p :
  simple_ident a = true -> simple_ident b = true ->
  is_word_char c = false -> is_space c = false -> sym_token c = Some t ->
  lex_go ((a +:+ " " +:+ b) +:+ String c s) (LWord []) (reverse p) =
  lex_go s (LWord []) (reverse (p ++ [TWord a; TWord b; t])).
Proof.
  intros Ha Hb Hc Hsp Ht. pose proof Ha as [Ha1 Ha2]%andb_prop.
  rewrite !string_app_assoc, lex_go_word by done.
  change (" " +:+ ?x) with (String " " x).
  rewrite (lex_go_plain _ _ _ _ (LWord []) (flush (push_word a []) (reverse p))) by reflexivity.
  rewrite flush_push_word by (by destruct a). rewrite <-reverse_snoc.
  rewrite (lex_go_ident_sym b c t) by done. by rewrite <-app_assoc.
Qed.

(** The column list after bare names and a comma fails where its tail
    fails. *)
Lemma parse_cols_after pre ts :
  pre <> [] -> Forall (fun k => simple_ident k = true) pre -> parse_cols ts = None ->
  parse_cols (cols_tokens pre ++ TComma :: ts) = None.
Proof.
  induction pre as [|k [|k' ks] IH]; intros Hne Hall Hts; [done| |];
    inversion Hall as [|? ? Hk Hrest]; subst; apply andb_prop in Hk as [Hk _].
  - cbn [cols_tokens app parse_cols tok_name]. rewrite Hk. cbn [mbind option_bind]. by rewrite Hts.
  - change (cols_tokens (k :: k' :: ks) ++ TComma :: ts)
      with (TWord k :: TComma :: (cols_tokens (k' :: ks) ++ TComma :: ts)).
    cbn [parse_cols tok_name]. rewrite Hk. cbn [mbind option_bind]. by rewrite IH.
Qed.

(** The columns [pre], then [a b], then any others: the text of
    [_InsertOrReplaceStatement] is a syntax error. *)
Lemma sql_parse_blank_column name pre a b post :
  simple_ident name = true -> Forall (fun k => simple_ident k = true) pre ->
  simple_ident a = true -> simple_ident b = true ->
  sql_parse (_InsertOrReplaceStatement name (pre ++ (a +:+ " " +:+ b) :: post)) = None.
Proof.
  intros Hn Hpre Ha Hb. unfold sql_parse, lex, _InsertOrReplaceStatement. cbv zeta.
  rewrite lex_go_insert_or_replace_into.
  change ("(" +:+ ?x) with (String "(" x).
  rewrite (lex_go_ident_sym _ _ TLParen) by done.
  set (V := ") VALUES (" +:+ _).
  assert (exists c t r, is_word_char c = false /\ is_space c = false /\ sym_token c = Some t /\
            String.concat "," ((a +:+ " " +:+ b) :: post) +:+ V = (a +:+ " " +:+ b) +:+ String c r)
    as (c & t & r & Hc & Hsp & Ht & Hx).
  { destruct post as [|y post].
    - eexists ")"%char, TRParen, _. split_and!; [done..|]. reflexivity.
    - exists ","%char, TComma, (String.concat "," (y :: post) +:+ V). split_and!; [done..|].
      change (String.concat "," ((a +:+ " " +:+ b) :: y :: post))
        with ((a +:+ " " +:+ b) +:+ "," +:+ String.concat "," (y :: post)).
      by rewrite !string_app_assoc. }
  set (P := [TWord "INSERT"; TWord "OR"; TWord "REPLACE"; TWord "INTO"] ++ [TWord name; TLParen]).
  assert (exists Q,
            lex_go (String.concat "," (pre ++ (a +:+ " " +:+ b) :: post) +:+ V) (LWord []) (reverse P) =
            lex_go r (LWord []) (reverse (P ++ Q ++ [TWord a; TWord b; t])) /\
            forall ts, parse_cols (Q ++ TWord a :: TWord b :: ts) = None) as (Q & HQ & Hcols).
  { destruct (decide (pre = [])) as [->|Hne].
    - exists []. cbn [app]. rewrite Hx, (lex_go_blank _ _ _ t) by done. by split_and!.
    - exists (cols_tokens pre ++ [TComma]).
      rewrite string_concat_app_cons, !string_app_assoc by done.
      change ("," +:+ ?x) with (String "," x).
      rewrite (lex_go_cols _ "," TComma) by done. rewrite Hx, (lex_go_blank _ _ _ t) by done.
      split; [by rewrite !app_assoc|]. intros ts. rewrite <-app_assoc. by apply parse_cols_after. }
  rewrite HQ. destruct (lex_go r _ _) as [ts|] eqn:Hl; [|done].
  apply lex_go_prefix in Hl as [q ->]. rewrite reverse_involutive.
  subst P. rewrite <-!app_assoc. cbn [app parse_insert].
  unfold parse_target. cbn [tok_name]. apply andb_prop in Hn as [Hn _]. rewrite Hn.
  cbn [mbind option_bind]. by rewrite Hcols.
Qed.

End Blank.

(** ** What pandas prints, SQLite reads back *)

(** Round trip of pandas' quoting: whatever its characters (blanks,
    commas, double quotes), a quoted name lexes to one quoted identifier
    holding exactly that name. *)
Lemma quote_roundtrip (n : string) : lex (quote n) = Some [TQuoted n].
Proof. unfold lex. by rewrite lex_go_quote_end. Qed.

(** Round trip of [_create_table_setup]: when every name is non-empty and
    free of NUL, there is a column, and the table name is a bare
    identifier or no key is given, SQLite parses the statements as a
    CREATE TABLE of exactly that table, columns and key, followed, when
    there are index columns, by the CREATE INDEX [ix_<name>_<cols>]. *)
Lemma _create_table_setup_roundtrip name cols keys ix :
  valid_name name = true -> cols <> [] ->
  Forall (fun c => valid_name c.1 = true) cols -> Forall (fun k => valid_name k = true) keys ->
  Forall (fun k => valid_name k = true) ix -> (keys = [] \/ simple_ident name = true) ->
  exists stmts, _create_table_setup name cols keys ix = inr stmts /\
    ddl_parse <$> stmts = Some <$> (CreateTable name cols keys ::
      if bool_decide (ix = []) then []
      else [CreateIndex ("ix_" +:+ name +:+ "_" +:+ String.concat "_" ix) name ix]).
Proof.
  intros Hn Hne Hc Hk Hi Hpk. eexists. split; [by apply _create_table_setup_ok|].
  cbn [fmap list_fmap]. rewrite ddl_parse_create_text by done.
  case_bool_decide; [done|]. cbn [fmap list_fmap]. by rewrite ddl_parse_index_text.
Qed.

(** Round trip of [SQLiteTable.insert_statement]: for a non-empty list
    of names, all non-empty and free of NUL, SQLite parses pandas' INSERT
    text as a plain INSERT into that table, on exactly those columns in
    order, with one placeholder per column. *)
Lemma insert_statement_roundtrip name names :
  valid_name name = true -> names <> [] -> Forall (fun n => valid_name n = true) names ->
  exists sql, insert_statement name names = inr sql /\
    sql_parse sql = Some (InsertStmt Plain name names (length names)).
Proof.
  intros Hn Hne Hs. eexists. split; [by apply insert_statement_ok|]. by apply sql_parse_insert_text.
Qed.

(** ** The schema of a frame *)

(** The names of the index columns of [column_names_and_types true]. *)
Lemma column_names_index df :
  (zip (_index_name df) ((fun p => _sql_type_name p.2) <$> f_index df)).*1 = _index_name df.
Proof. rewrite fst_zip; [done|]. by rewrite length_fmap, FrameFacts._index_name_length. Qed.

(** C21: round trip of the table pandas provisions for a frame (lines
    29-31 with [index=False], lines 63-66 with [index=True]).  When every
    name is non-empty and free of NUL, there is a column, and the table
    name is a bare identifier or no key is given, SQLite parses what
    [_create_table_setup] prints for the frame's schema as a CREATE TABLE
    of exactly that table, those columns with their types in order and
    that primary key, then, for the index columns, the CREATE INDEX
    [ix_<name>_<cols>] on them. *)
Theorem table_setup_roundtrip name (index : bool) df keys :
  valid_name name = true -> column_names_and_types index df <> [] ->
  Forall (fun c => valid_name c.1 = true) (column_names_and_types index df) ->
  Forall (fun k => valid_name k = true) keys -> (keys = [] \/ simple_ident name = true) ->
  let ix := if index then _index_name df else [] in
  exists stmts, _create_table_setup name (column_names_and_types index df) keys ix = inr stmts /\
    ddl_parse <$> stmts = Some <$> (CreateTable name (column_names_and_types index df) keys ::
      if bool_decide (ix = []) then []
      else [CreateIndex ("ix_" +:+ name +:+ "_" +:+ String.concat "_" ix) name ix]).
Proof.
  intros Hn Hne Hc Hk Hpk ix. apply _create_table_setup_roundtrip; [done..| |done].
  subst ix. destruct index; [|done]. unfold column_names_and_types in Hc.
  apply Forall_app in Hc as [Hc _]. rewrite <-(column_names_index df), Forall_fmap. exact Hc.
Qed.

Lemma table_setup_roundtrip_witness :
  let df := DataFrame [(Some "id", Series Int64 [VInt 1])] [("my score", Series Int64 [VInt 5])] in
  let ix := if true then _index_name df else [] in
  exists stmts, _create_table_setup "scores" (column_names_and_types true df) ["id"] ix = inr stmts /\
    ddl_parse <$> stmts = Some <$> (CreateTable "scores" (column_names_and_types true df) ["id"] ::
      if bool_decide (ix = []) then []
      else [CreateIndex ("ix_" +:+ "scores" +:+ "_" +:+ String.concat "_" ix) "scores" ix]).
Proof.
  intros df. apply (table_setup_roundtrip "scores" true df ["id"]); decide_concrete.
Defined.

End Ddl.
