(* ===== verification/Store.v ===== *)
(** The SQLite store as the code uses it through pandas and sqlite3.

    The catalog is a finite map from table names to tables; a table has
    its declared columns with their types, its primary-key columns and
    its rows, each row the list of its values in column order.  The file
    models CREATE TABLE with a table-level PRIMARY KEY (what pandas
    writes), CREATE INDEX (its checks: the table exists, no table has the
    index's name, the columns exist), [cursor.execute] of a CREATE text
    parsed by [Ddl.ddl_parse] ([execute_ddl]; a text that does not parse
    is a syntax error), the catalog lookup behind [has_table], the prepare step of
    an INSERT (unknown table, unknown column, values/columns count), the
    row semantics of INSERT and INSERT OR REPLACE, [cursor.executemany]
    and pandas' [run_transaction] (commit on success, roll back on an
    exception).  Python's sqlite3 opens a transaction (an implicit BEGIN)
    only before INSERT, UPDATE, DELETE or REPLACE: a CREATE statement
    runs in autocommit mode and is committed as soon as it runs, so a
    rollback never undoes it ([execute_ddl] is run outside
    [run_transaction]).

    Row semantics follow SQLite: a row conflicts with another when the
    table has a primary key, the new row's key has no NULL (NULLs are
    distinct in a UNIQUE index) and both keys are equal; a plain INSERT
    of a conflicting row fails with "UNIQUE constraint failed"; INSERT OR
    REPLACE deletes the conflicting rows and appends the new one; columns
    left out of the statement are NULL.  A primary key that is one
    column declared INTEGER is an alias of the rowid: a row that leaves
    it NULL gets the next rowid, one more than the largest in use (1 in
    an empty table), before any check ([fill_rowid]).  Whether the engine
    accepts the values of a row (e.g. "datatype mismatch" on the rowid
    alias) is the typeclass [Engine]: every theorem holds for every
    instance, and [rowid_engine] is SQLite's own check.

    Not modelled: type affinity conversions (a value is stored as it is
    bound; pandas binds each column with the type it declared for it, so
    the conversions only matter for frames whose dtypes differ from the
    table's columns), the random rowid SQLite tries once the largest
    rowid is 2^63-1 (the model reports "database or disk is full", the
    outcome when no free rowid is found), and the index catalog: an index
    holds no data the code reads, and pandas names it after its table,
    so only its clash with a table name is kept. *)

From Stdlib Require Import ZArith.
From S2P Require Import Prelude Values Statement Ddl.
Import Statement Ddl.

Module Store.

Record table := Table {
  t_cols : list (string * sql_type);
  t_pk : list string;
  t_rows : list (list value)
}.

(** The per-row check of the engine, which depends only on the schema. *)
Class Engine := { accepts : list (string * sql_type) -> list string -> list value -> bool }.

(** An engine that stores whatever it is given (SQLite's type affinity). *)
#[export] Instance affinity_engine : Engine | 10 := {| accepts _ _ _ := true |}.

(** The position of the column that aliases the rowid: the primary key
    when it is one column declared [INTEGER], also when it is given as a
    table constraint [PRIMARY KEY (k)] as pandas writes it. *)
Definition rowid_index (cols : list (string * sql_type)) (pk : list string) : option nat :=
  match pk with
  | [k] =>
      match list_find (fun p => p.1 = k) cols with
      | Some (i, (_, INTEGER)) => Some i
      | _ => None
      end
  | _ => None
  end.

(** SQLite's own check: the rowid alias takes only integers (NULL has
    been replaced by a new rowid before the check); anything else is a
    "datatype mismatch". *)
Definition rowid_engine : Engine := {|
  accepts cols pk row :=
    match rowid_index cols pk with
    | Some i =>
        match row !! i with
        | Some (VInt _) | Some VNull | None => true
        | Some _ => false
        end
    | None => true
    end
|}.

Section Store.
Context `{!Engine}.

(** [SQLiteDatabase.has_table(name)]: the catalog query. *)
Definition has_table (s : gmap string table) (name : string) : bool :=
  bool_decide (is_Some (s !! name)).

(** The first name that occurs twice, at its second occurrence. *)
Fixpoint first_dup (seen : list string) (l : list string) : option string :=
  match l with
  | [] => None
  | c :: l' => if decide (c ∈ seen) then Some c else first_dup (c :: seen) l'
  end.

(** The first name of [l] that is not among [cols]. *)
Fixpoint first_missing (cols l : list string) : option string :=
  match l with
  | [] => None
  | c :: l' => if decide (c ∈ cols) then first_missing cols l' else Some c
  end.

(** [CREATE TABLE name (c1 T1, ..., CONSTRAINT name_pk PRIMARY KEY (pk))]. *)
Definition create_table (name : string) (cols : list (string * sql_type)) (pk : list string)
    : SE (gmap string table) exn unit :=
  (do s <- se_get;
   if has_table s name then throw (SqliteError (TableAlreadyExists name))
   else if bool_decide (cols = []) then throw (SqliteError SyntaxError)
   else match first_dup [] cols.*1 with
        | Some c => throw (SqliteError (DuplicateColumnName c))
        | None =>
            match first_missing cols.*1 pk with
            | Some k => throw (SqliteError (NoColumnNamed name k))
            | None => se_put (<[name := Table cols pk []]> s)
            end
        end)%se.

(** [CREATE INDEX i ON t (cols)]: the table must exist, no table may be
    named [i], and the columns must be columns of the table.  A non-unique
    index changes no row and no key, so the catalog is unchanged. *)
Definition create_index (i t : string) (cols : list string) : SE (gmap string table) exn unit :=
  (do s <- se_get;
   match s !! t with
   | None => throw (SqliteError (NoSuchTable t))
   | Some tb =>
       if has_table s i then throw (SqliteError (TableNamed i))
       else match first_missing (t_cols tb).*1 cols with
            | Some c => throw (SqliteError (NoSuchColumn c))
            | None => ret tt
            end
   end)%se.

(** [cursor.execute(sql)] on a CREATE statement: the text is parsed, then
    run. *)
Definition execute_ddl (sql : string) : SE (gmap string table) exn unit :=
  match ddl_parse sql with
  | None => throw (SqliteError SyntaxError)
  | Some (CreateTable t cols pk) => create_table t cols pk
  | Some (CreateIndex i t cols) => create_index i t cols
  end%se.

(** ** Rows and keys *)

Definition cell (t : table) (row : list value) (c : string) : value :=
  assoc_get VNull (t_cols t).*1 row c.

Definition key_of (t : table) (row : list value) : list value :=
  cell t row <$> t_pk t.

(** A row takes part in the primary-key constraint. *)
Definition keyed (t : table) (row : list value) : bool :=
  bool_decide (t_pk t <> []) && negb (existsb is_null (key_of t row)).

Definition conflicts (t : table) (new old : list value) : bool :=
  keyed t new && bool_decide (key_of t old = key_of t new).

(** The row stored for [INSERT INTO t(cols) VALUES (vals)]. *)
Definition bind_row (t : table) (cols : list string) (vals : list value) : list value :=
  (fun p => assoc_get VNull cols vals p.1) <$> t_cols t.

Definition set_rows (t : table) (rows : list (list value)) : table :=
  Table (t_cols t) (t_pk t) rows.

(** INSERT OR REPLACE of one row: the conflicting rows are deleted and
    the new row is appended. *)
Definition replace_rows (t : table) (rows : list (list value)) (row : list value) : list (list value) :=
  filter (fun r => conflicts t row r = false) rows ++ [row].

(** ** The rowid *)

Definition rowid_col (t : table) : option nat := rowid_index (t_cols t) (t_pk t).

(** A row whose rowid alias is NULL: SQLite gives it a new rowid. *)
Definition needs_rowid (t : table) (row : list value) : bool :=
  match rowid_col t with
  | Some i => bool_decide (row !! i = Some VNull)
  | None => false
  end.

Definition max_int64 : Z := (2 ^ 63 - 1)%Z.

(** The rowids in use: the integers of the alias column. *)
Definition rowids (t : table) (i : nat) : list Z :=
  omap (fun r => match r !! i with Some (VInt z) => Some z | _ => None end) (t_rows t).

(** One more than the largest rowid in use, and 1 in an empty table. *)
Definition next_rowid (t : table) (i : nat) : Z :=
  match rowids t i with
  | [] => 1
  | z :: zs => (foldr Z.max z zs + 1)%Z
  end.

(** The row as SQLite stores it: a NULL rowid alias becomes the next
    rowid.  When the largest rowid is already [max_int64], SQLite tries
    random unused rowids and reports "database or disk is full" when it
    finds none; the model takes that last outcome. *)
Definition fill_rowid (t : table) (row : list value) : sqlite_error + list value :=
  match rowid_col t with
  | Some i =>
      if bool_decide (row !! i = Some VNull) then
        let z := next_rowid t i in
        if bool_decide (z <= max_int64)%Z then inr (<[i := VInt z]> row) else inl Full
      else inr row
  | None => inr row
  end.

(** One row with its rowid written into table [name]: the type check,
    then the primary-key constraint. *)
Definition insert_checked (m : mode) (name : string) (t : table) (row : list value)
    : sqlite_error + table :=
  if negb (accepts (t_cols t) (t_pk t) row) then inl DatatypeMismatch
  else match m with
       | Plain =>
           if existsb (conflicts t row) (t_rows t) then inl (UniqueFailed name)
           else inr (set_rows t (t_rows t ++ [row]))
       | OrReplace => inr (set_rows t (replace_rows t (t_rows t) row))
       end.

(** One row written into table [name]. *)
Definition insert_row (m : mode) (name : string) (t : table) (row : list value)
    : sqlite_error + table :=
  match fill_rowid t row with
  | inl e => inl e
  | inr row' => insert_checked m name t row'
  end.

(** ** Statements *)

(** [sqlite3_prepare]: the table and the columns must exist and the
    statement must give one value per column. *)
Definition prepare (s : gmap string table) (st : insert_stmt) : sqlite_error + table :=
  match s !! st_table st with
  | None => inl (NoSuchTable (st_table st))
  | Some t =>
      match first_missing (t_cols t).*1 (st_cols st) with
      | Some c => inl (NoColumnNamed (st_table st) c)
      | None =>
          if bool_decide (st_nparams st = length (st_cols st)) then inr t
          else inl (ValuesForColumns (st_nparams st) (length (st_cols st)))
      end
  end.

(** One step of a prepared statement with one tuple of parameters. *)
Definition exec_row (st : insert_stmt) (params : list value) : SE (gmap string table) exn unit :=
  (do s <- se_get;
   match s !! st_table st with
   | None => throw (SqliteError (NoSuchTable (st_table st)))
   | Some t =>
       if bool_decide (length params = st_nparams st) then
         match insert_row (st_mode st) (st_table st) t (bind_row t (st_cols st) params) with
         | inl e => throw (SqliteError e)
         | inr t' => se_put (<[st_table st := t']> s)
         end
       else throw (SqliteError (IncorrectBindings (st_nparams st) (length params)))
   end)%se.

Definition executemany_stmt (st : insert_stmt) (rows : list (list value))
    : SE (gmap string table) exn unit :=
  (do s <- se_get;
   match prepare s st with
   | inl e => throw (SqliteError e)
   | inr _ => se_iter (exec_row st) rows
   end)%se.

(** [cursor.executemany(sql, rows)]: the text is parsed once, then run
    once per tuple. *)
Definition executemany (sql : string) (rows : list (list value))
    : SE (gmap string table) exn unit :=
  match sql_parse sql with
  | None => throw (SqliteError SyntaxError)
  | Some st => executemany_stmt st rows
  end%se.

(** [SQLiteDatabase.run_transaction()]: the body's changes are committed
    when it returns and rolled back when it raises.  The body is DML
    (INSERT): sqlite3 commits a CREATE at once, so a block of CREATE
    statements is modelled without it. *)
Definition run_transaction {A} (m : SE (gmap string table) exn A) : SE (gmap string table) exn A :=
  fun s => match m s with
           | (inl e, _) => (inl e, s)
           | (inr a, s') => (inr a, s')
           end.

(** ** Well-formed tables *)

Definition keys_unique (t : table) (rows : list (list value)) : Prop :=
  NoDup (key_of t <$> filter (fun r => keyed t r = true) rows).

Definition table_wf (t : table) : Prop :=
  t_cols t <> [] /\ NoDup (t_cols t).*1 /\ Forall (fun k => k ∈ (t_cols t).*1) (t_pk t) /\
  Forall (fun r => length r = length (t_cols t)) (t_rows t) /\ keys_unique t (t_rows t).

Definition store_wf (s : gmap string table) : Prop := map_Forall (fun _ t => table_wf t) s.

(** The rows of a table that have key [k]. *)
Definition rows_with_key (t : table) (k : list value) (rows : list (list value)) : list (list value) :=
  filter (fun r => key_of t r = k) rows.

(** The rows after a batch of INSERT OR REPLACE, one row after the other. *)
Definition replace_all (t : table) (rows batch : list (list value)) : list (list value) :=
  fold_left (replace_rows t) batch rows.

End Store.

(** ** Facts about the store *)

Section StoreFacts.
Context `{!Engine}.

Lemma first_dup_None seen l :
  first_dup seen l = None <-> NoDup l /\ Forall (fun c => c ∉ seen) l.
Proof.
  revert seen. induction l as [|c l IH]; intros seen; simpl.
  - split; [intros _; split; constructor|intros; done].
  - case_decide as Hc.
    + split; [done|]. intros [_ Hall]. by inversion Hall.
    + rewrite IH, NoDup_cons, Forall_cons. split.
      * intros [Hnd Hall]. rewrite Forall_forall in Hall. split; split; [|done|done|].
        -- intros Hin. specialize (Hall c Hin). set_solver.
        -- apply Forall_forall. intros x Hx. specialize (Hall x Hx). set_solver.
      * intros ((Hnin & Hnd) & _ & Hall). split; [done|].
        apply Forall_forall. intros x Hx. apply Forall_forall with (x := x) in Hall; [|done].
        rewrite elem_of_cons. intros [->|]; done.
Qed.

Lemma first_missing_None cols l : first_missing cols l = None <-> Forall (fun c => c ∈ cols) l.
Proof.
  induction l as [|c l IH]; simpl; [split; [constructor|intros; done]|].
  case_decide; rewrite Forall_cons; naive_solver.
Qed.

Lemma first_missing_Some cols l c : first_missing cols l = Some c -> c ∈ l /\ c ∉ cols.
Proof.
  induction l as [|c' l IH]; simpl; [done|].
  case_decide; [intros Hs; destruct (IH Hs); set_solver|intros [= ->]; set_solver].
Qed.

(** CREATE TABLE on an absent name with at least one column, distinct
    column names and key columns among them adds exactly that empty table
    to the catalog. *)
Lemma create_table_ok s name cols pk :
  s !! name = None -> cols <> [] -> NoDup cols.*1 -> Forall (fun k => k ∈ cols.*1) pk ->
  create_table name cols pk s = (inr tt, <[name := Table cols pk []]> s).
Proof.
  intros Hs Hne Hnd Hpk. unfold create_table, has_table. se_unfold.
  rewrite Hs. rewrite bool_decide_eq_false_2 by (by intros []).
  rewrite bool_decide_eq_false_2 by done.
  rewrite (proj2 (first_dup_None [] _)) by (split; [done|by apply Forall_forall; set_solver]).
  by rewrite (proj2 (first_missing_None _ _)).
Qed.

(** CREATE TABLE of a name the catalog already has fails and changes
    nothing. *)
Lemma create_table_exists s name cols pk :
  is_Some (s !! name) -> create_table name cols pk s = (inl (SqliteError (TableAlreadyExists name)), s).
Proof. intros Hs. unfold create_table, has_table. se_unfold. by rewrite bool_decide_eq_true_2. Qed.

Lemma create_table_err s name cols pk e s' :
  create_table name cols pk s = (inl e, s') -> s' = s.
Proof.
  unfold create_table. se_unfold.
  repeat (case_match || case_decide); simpl; congruence.
Qed.

(** ** Keys *)

Lemma keyed_key_eq t r1 r2 : key_of t r1 = key_of t r2 -> keyed t r1 = keyed t r2.
Proof. unfold keyed. by intros ->. Qed.

Lemma conflicts_true t row r :
  conflicts t row r = true <-> keyed t row = true /\ key_of t r = key_of t row.
Proof. unfold conflicts. by rewrite andb_true_iff, bool_decide_eq_true. Qed.

Lemma keyed_of_key t row k :
  t_pk t <> [] -> existsb is_null k = false -> key_of t row = k -> keyed t row = true.
Proof. intros Hpk Hk Hrow. unfold keyed. rewrite Hrow, Hk, bool_decide_eq_true_2; done. Qed.

#[local] Hint Resolve keyed_of_key : sqlite.

(** Appending a row keeps the keys unique exactly when it conflicts
    with no row already there. *)
Lemma keys_unique_snoc t R row :
  keys_unique t (R ++ [row]) <-> keys_unique t R /\ Forall (fun r => conflicts t row r = false) R.
Proof.
  unfold keys_unique. rewrite filter_app, fmap_app, NoDup_app, Forall_forall.
  destruct (keyed t row) eqn:Hk.
  - rewrite filter_cons_True, filter_nil by done. cbn [fmap list_fmap]. split.
    + intros (Hnd & Hdisj & _). split; [done|]. intros r Hr.
      destruct (conflicts t row r) eqn:Hc; [|done]. exfalso.
      apply conflicts_true in Hc as [_ Hkey].
      apply (Hdisj (key_of t r)); [|rewrite Hkey; by apply list_elem_of_singleton].
      apply list_elem_of_fmap_2, list_elem_of_filter. split; [|done].
      by rewrite (keyed_key_eq _ _ _ Hkey).
    + intros [Hnd Hall]. split_and!; [done| |apply NoDup_singleton].
      intros x (r & -> & (Hkr & Hr)%list_elem_of_filter)%list_elem_of_fmap Hin.
      apply list_elem_of_singleton in Hin. specialize (Hall r Hr).
      assert (conflicts t row r = true) by (by apply conflicts_true). congruence.
  - rewrite filter_cons_False, filter_nil by (by rewrite Hk). cbn [fmap list_fmap].
    rewrite NoDup_nil. split; [intros (Hnd & _ & _)|intros [Hnd _]; split_and!]; try done.
    + split; [done|]. intros r _. unfold conflicts. by rewrite Hk.
    + set_solver.
Qed.

Lemma keys_unique_app_l t R1 R2 : keys_unique t (R1 ++ R2) -> keys_unique t R1.
Proof.
  unfold keys_unique. rewrite filter_app, fmap_app. intros Hnd. by apply NoDup_app in Hnd as [? _].
Qed.

Lemma keys_unique_filter t R (P : list value -> Prop) `{!forall x, Decision (P x)} :
  keys_unique t R -> keys_unique t (filter P R).
Proof.
  unfold keys_unique. intros Hnd. eapply sublist_NoDup; [exact Hnd|].
  apply fmap_sublist. rewrite list_filter_filter.
  rewrite (filter_ext_in _ (fun r => P r /\ keyed t r = true)) by naive_solver.
  rewrite <-list_filter_filter. apply sublist_filter.
Qed.

(** one INSERT OR REPLACE keeps the primary keys unique. *)
Lemma keys_unique_replace t R row : keys_unique t R -> keys_unique t (replace_rows t R row).
Proof.
  intros Hu. unfold replace_rows. apply keys_unique_snoc. split.
  - by apply keys_unique_filter.
  - apply Forall_forall. intros r (Hr & _)%list_elem_of_filter. done.
Qed.

(** The rows with a non-NULL key [k] after one INSERT OR REPLACE: only
    the new row if it has key [k], the old ones otherwise. *)
Lemma replace_rows_with_key t k R row :
  t_pk t <> [] -> existsb is_null k = false ->
  rows_with_key t k (replace_rows t R row) =
    if decide (key_of t row = k) then [row] else rows_with_key t k R.
Proof.
  intros Hpk Hk. unfold replace_rows, rows_with_key. rewrite filter_app, list_filter_filter.
  case_decide as Hrow.
  - rewrite filter_none, filter_cons_True, filter_nil; [done|done|].
    intros r _ [Hr Hc]. assert (conflicts t row r = true) by
      (apply conflicts_true; split; [eauto with sqlite|congruence]). congruence.
  - rewrite filter_cons_False, filter_nil, app_nil_r by done.
    apply filter_ext_in. intros r _. split; [naive_solver|intros Hr; split; [done|]].
    destruct (conflicts t row r) eqn:Hc; [|done].
    apply conflicts_true in Hc as [_ ?]. congruence.
Qed.

(** after a batch of INSERT OR REPLACE, the rows with a non-NULL key
    [k] are the last row of the batch with key [k] alone, or the rows
    that had key [k] before when the batch has none. *)
Theorem replace_all_rows_with_key t k R batch :
  t_pk t <> [] -> existsb is_null k = false ->
  rows_with_key t k (replace_all t R batch) =
    match last (filter (fun r => key_of t r = k) batch) with
    | Some r => [r]
    | None => rows_with_key t k R
    end.
Proof.
  intros Hpk Hk. revert R. induction batch as [|x xs IH]; intros R; [done|].
  unfold replace_all. simpl. fold (replace_all t (replace_rows t R x) xs).
  rewrite IH, replace_rows_with_key by done. rewrite filter_cons.
  destruct (decide (key_of t x = k)); [rewrite last_cons|]; by destruct (last _).
Qed.

(** ** The invariant *)

Lemma set_rows_id t : set_rows t (t_rows t) = t.
Proof. by destruct t. Qed.

Lemma table_wf_set_rows t R :
  table_wf t -> Forall (fun r => length r = length (t_cols t)) R -> keys_unique t R ->
  table_wf (set_rows t R).
Proof. intros (? & ? & ? & _ & _) ? ?. by split_and!. Qed.

(** ** The rowid *)

Lemma fill_rowid_keep t row : needs_rowid t row = false -> fill_rowid t row = inr row.
Proof. unfold needs_rowid, fill_rowid. destruct (rowid_col t); [|done]. by intros ->. Qed.

Lemma fill_rowid_length t row row' : fill_rowid t row = inr row' -> length row' = length row.
Proof. unfold fill_rowid. repeat case_match; intros; simplify_eq; by rewrite ?length_insert. Qed.

(** A row whose rowid alias is not NULL is written as given. *)
Lemma insert_row_keep m name t row :
  needs_rowid t row = false -> insert_row m name t row = insert_checked m name t row.
Proof. intros Hn. unfold insert_row. by rewrite fill_rowid_keep. Qed.

(** The value of the key column is the value at its first position. *)
Lemma assoc_get_find (cols : list (string * sql_type)) k i p (row : list value) :
  list_find (fun p => p.1 = k) cols = Some (i, p) -> assoc_get VNull cols.*1 row k = default VNull (row !! i).
Proof.
  revert i p row. induction cols as [|c cols IH]; intros i p row Hfind; [done|]. simpl in Hfind.
  case_decide as Hc.
  - injection Hfind as <- _. destruct row; simpl; [done|]. by rewrite decide_True.
  - apply fmap_Some in Hfind as ([j q] & Hf & [= -> _]).
    destruct row as [|v row]; simpl; [done|]. rewrite decide_False by done. exact (IH j q row Hf).
Qed.

(** The key of a row of a rowid table is its rowid alias. *)
Lemma key_of_rowid t i r : rowid_col t = Some i -> key_of t r = [default VNull (r !! i)].
Proof.
  unfold rowid_col, rowid_index, key_of, cell. destruct (t_pk t) as [|k [|]]; try done.
  destruct (list_find _ _) as [[j [c ty]]|] eqn:Hf; [|done]. destruct ty; try done.
  intros [= <-]. simpl. by rewrite (assoc_get_find _ _ _ _ _ Hf).
Qed.

Lemma foldr_max_ge (z : Z) zs : Forall (fun x => (x <= foldr Z.max z zs)%Z) (z :: zs).
Proof.
  induction zs as [|y zs IH]; simpl; [constructor; [lia|constructor]|].
  rewrite Forall_cons in IH. destruct IH as [Hz Hzs].
  constructor; [lia|constructor; [lia|]]. eapply Forall_impl; [exact Hzs|].
  intros x Hx. cbv beta in Hx. lia.
Qed.

(** The next rowid is larger than every rowid in use. *)
Lemma next_rowid_fresh t i z : z ∈ rowids t i -> (z < next_rowid t i)%Z.
Proof.
  unfold next_rowid. destruct (rowids t i) as [|z0 zs]; [set_solver|]. intros Hz.
  pose proof (foldr_max_ge z0 zs) as Hall. rewrite Forall_forall in Hall.
  specialize (Hall z Hz). lia.
Qed.

Lemma rowids_elem t i r z : r ∈ t_rows t -> r !! i = Some (VInt z) -> z ∈ rowids t i.
Proof. intros Hr Hz. unfold rowids. apply list_elem_of_omap. exists r. by rewrite Hz. Qed.

(** INSERT OR REPLACE of a row whose rowid alias is NULL appends it with
    the next rowid: nothing is replaced. *)
Lemma insert_row_new_rowid name t row i :
  rowid_col t = Some i -> row !! i = Some VNull -> (next_rowid t i <= max_int64)%Z ->
  accepts (t_cols t) (t_pk t) (<[i := VInt (next_rowid t i)]> row) = true ->
  insert_row OrReplace name t row = inr (set_rows t (t_rows t ++ [<[i := VInt (next_rowid t i)]> row])).
Proof.
  intros Hc Hnull Hmax Hacc. unfold insert_row, fill_rowid. rewrite Hc.
  rewrite bool_decide_eq_true_2 by done. rewrite bool_decide_eq_true_2 by done.
  unfold insert_checked. rewrite Hacc. simpl. do 2 f_equal.
  unfold replace_rows. rewrite filter_all; [done|]. intros r Hr. unfold conflicts.
  destruct (keyed _ _); [|done]. simpl. apply bool_decide_eq_false_2.
  rewrite !(key_of_rowid t i) by done.
  rewrite list_lookup_insert_eq by (by eapply lookup_lt_Some). simpl.
  intros [= Heq]. destruct (r !! i) as [v|] eqn:Hri; simpl in Heq; [|done]. subst v.
  pose proof (next_rowid_fresh t i _ (rowids_elem t i r _ Hr Hri)). lia.
Qed.

(** writing one row of the right width, with either statement, keeps
    a table well formed. *)
Lemma insert_row_wf m name t row t' :
  table_wf t -> length row = length (t_cols t) -> insert_row m name t row = inr t' -> table_wf t'.
Proof.
  intros Hwf Hlen. unfold insert_row. destruct (fill_rowid t row) as [e|row'] eqn:Hf; [done|].
  apply fill_rowid_length in Hf. rewrite <-Hf in Hlen. clear row Hf.
  unfold insert_checked. destruct (accepts _ _ _); [|done]. simpl.
  destruct m.
  - destruct (existsb _ _) eqn:Hex; [done|]. intros [= <-].
    apply table_wf_set_rows; [done|apply Forall_app; split; [apply Hwf|by constructor]|].
    apply keys_unique_snoc. split; [apply Hwf|]. by apply existsb_false_Forall.
  - intros [= <-]. apply table_wf_set_rows; [done| |by apply keys_unique_replace, Hwf].
    apply Forall_app. split; [apply Forall_filter_l, Hwf|by constructor].
Qed.

(** A column the statement does not name is NULL in the stored row. *)
Lemma bind_row_absent t cols vals c :
  c ∉ cols -> cell t (bind_row t cols vals) c = VNull.
Proof.
  intros Hc. unfold cell, bind_row.
  assert (Hnull : forall ks (vs : list value), c ∉ ks -> assoc_get VNull ks vs c = VNull).
  { induction ks as [|k ks IH]; intros [|v vs] Hks; simpl; try done.
    rewrite decide_False by set_solver. apply IH. set_solver. }
  generalize (t_cols t). induction l as [|[c' ty] l IH]; simpl; [done|].
  case_decide; [subst; by apply Hnull|done].
Qed.

Lemma bind_row_length t cols vals : length (bind_row t cols vals) = length (t_cols t).
Proof. apply length_fmap. Qed.

Lemma exec_row_wf st params s r s' :
  store_wf s -> exec_row st params s = (r, s') -> store_wf s'.
Proof.
  unfold exec_row. se_unfold. intros Hwf.
  destruct (s !! st_table st) as [t|] eqn:Hs; [|by intros [= _ <-]].
  case_decide; [|by intros [= _ <-]].
  destruct (insert_row _ _ _ _) as [e|t'] eqn:Hins; [by intros [= _ <-]|].
  intros [= _ <-]. apply map_Forall_insert_2; [|done].
  eapply insert_row_wf; [exact (Hwf _ _ Hs)|apply bind_row_length|exact Hins].
Qed.

(** [executemany] keeps every table of the catalog well formed,
    whether it returns or raises. *)
Theorem executemany_wf sql rows s r s' :
  store_wf s -> executemany sql rows s = (r, s') -> store_wf s'.
Proof.
  unfold executemany, executemany_stmt. intros Hwf.
  destruct (sql_parse sql) as [st|]; se_unfold; [|by intros [= _ <-]].
  destruct (prepare s st); [by intros [= _ <-]|]. apply se_iter_preserve; [|done]. intros. by eapply exec_row_wf.
Qed.

(** CREATE TABLE keeps every table of the catalog well formed. *)
Theorem create_table_wf name cols pk s r s' :
  store_wf s -> create_table name cols pk s = (r, s') -> store_wf s'.
Proof.
  unfold create_table. se_unfold. intros Hwf.
  repeat (case_match || case_decide); intros Heq; inversion Heq; subst; try done.
  apply map_Forall_insert_2; [|done].
  match goal with H : first_dup _ _ = None |- _ => apply first_dup_None in H as [Hnd _] end.
  match goal with H : first_missing _ _ = None |- _ => apply first_missing_None in H end.
  repeat match goal with H : bool_decide _ = false |- _ => apply bool_decide_eq_false in H end.
  split_and!; simpl; try done. unfold keys_unique. simpl. constructor.
Qed.

Lemma run_transaction_inr {A} (m : SE _ exn A) s a s' :
  m s = (inr a, s') -> run_transaction m s = (inr a, s').
Proof. intros Hm. unfold run_transaction. by rewrite Hm. Qed.

Lemma run_transaction_preserve {A} (P : gmap string table -> Prop) (m : SE _ exn A) s r s' :
  (forall r0 s0, m s = (r0, s0) -> P s0) -> P s -> run_transaction m s = (r, s') -> P s'.
Proof.
  intros Hm Hs. unfold run_transaction.
  destruct (m s) as [[e|a] s0] eqn:Hrun; intros [= <- <-]; eauto.
Qed.

Lemma create_table_inr s name cols pk u s' :
  create_table name cols pk s = (inr u, s') -> s !! name = None /\ s' = <[name := Table cols pk []]> s.
Proof.
  unfold create_table, has_table. se_unfold.
  repeat (case_match || case_decide); intros Heq; inversion Heq; subst; try done.
  match goal with H : bool_decide (is_Some _) = false |- _ => apply bool_decide_eq_false in H end.
  split; [by apply eq_None_not_Some|done].
Qed.

Lemma create_index_state i t cols s r s' : create_index i t cols s = (r, s') -> s' = s.
Proof. unfold create_index. se_unfold. by repeat case_match; intros [= _ <-]. Qed.

Lemma execute_ddl_preserve (P : gmap string table -> Prop) sql s r s' :
  (forall name cols pk s0 r0 s1, P s0 -> create_table name cols pk s0 = (r0, s1) -> P s1) ->
  P s -> execute_ddl sql s = (r, s') -> P s'.
Proof.
  intros Hc Hs. unfold execute_ddl.
  destruct (ddl_parse sql) as [[t cols pk|i t cols]|]; [eauto| |se_unfold; by intros [= _ <-]].
  intros Hi. by apply create_index_state in Hi as ->.
Qed.

Lemma index_name_ne name ix : index_name name ix <> name.
Proof.
  intros Heq. apply (f_equal String.length) in Heq. unfold index_name in Heq.
  rewrite !string_length_app in Heq. simpl in Heq. lia.
Qed.

(** Once pandas' statements for [name] have all run, the table, absent
    before, exists. *)
Lemma execute_ddl_present name cols keys rest s s' :
  se_iter execute_ddl (create_text name cols keys :: rest) s = (inr tt, s') ->
  s !! name = None /\ is_Some (s' !! name).
Proof.
  cbn [se_iter]. unfold se_bind at 1, execute_ddl at 1.
  destruct (ddl_parse (create_text name cols keys)) as [st|] eqn:Hp; [|se_unfold; done].
  destruct (ddl_parse_create_text_name _ _ _ _ Hp) as (cs & pk & ->).
  destruct (create_table name cs pk s) as [[e|[]] s1] eqn:Hc; [done|].
  apply create_table_inr in Hc as [Hfree ->]. intros Hrest. split; [done|].
  eapply (se_iter_preserve (fun s0 => is_Some (s0 !! name))); [|by rewrite lookup_insert_eq|exact Hrest].
  intros x s0 r0 s2 Hs0 Hx.
  eapply (execute_ddl_preserve (fun s0 => is_Some (s0 !! name))); [|exact Hs0|exact Hx].
  intros n c p s3 [e|[]] s4 Hs3 Hct.
  - by apply create_table_err in Hct as ->.
  - apply create_table_inr in Hct as [_ ->]. destruct (decide (n = name)) as [->|Hne].
    + by rewrite lookup_insert_eq.
    + by rewrite lookup_insert_ne.
Qed.

(** pandas' CREATE TABLE text runs the CREATE TABLE it describes. *)
Lemma execute_ddl_create_text name cols keys s :
  cols <> [] -> (keys = [] \/ simple_ident name = true) ->
  execute_ddl (create_text name cols keys) s = create_table name cols keys s.
Proof. intros Hne Hk. unfold execute_ddl. by rewrite ddl_parse_create_text. Qed.

(** pandas' CREATE INDEX text, on an existing table whose columns include
    the index columns, with no table of the index's name, changes
    nothing. *)
Lemma execute_ddl_index_text name ix t s :
  ix <> [] -> s !! name = Some t -> s !! index_name name ix = None ->
  Forall (fun c => c ∈ (t_cols t).*1) ix ->
  execute_ddl (index_text name ix) s = (inr tt, s).
Proof.
  intros Hix Ht Hfree Hsub. unfold execute_ddl. rewrite ddl_parse_index_text by done.
  unfold create_index, has_table. se_unfold. rewrite Ht, Hfree, bool_decide_eq_false_2 by by intros [].
  by rewrite (proj2 (first_missing_None _ _)).
Qed.

(** The statements pandas prints for a table and its index columns do
    what the CREATE TABLE alone does, when the index columns are columns
    of the table and no table has the index's name. *)
Lemma execute_ddl_create name cols keys ix s :
  cols <> [] -> (keys = [] \/ simple_ident name = true) ->
  (ix = [] \/ s !! index_name name ix = None /\ Forall (fun c => c ∈ cols.*1) ix) ->
  se_iter execute_ddl (create_text name cols keys ::
                       if bool_decide (ix = []) then [] else [index_text name ix]) s =
    create_table name cols keys s.
Proof.
  intros Hne Hk Hix. cbn [se_iter]. unfold se_bind at 1. rewrite execute_ddl_create_text by done.
  destruct (create_table name cols keys s) as [[e|[]] s'] eqn:Hc; [done|].
  apply create_table_inr in Hc as [Hnone ->].
  case_bool_decide as Hix0; [done|]. destruct Hix as [|[Hfree Hsub]]; [done|].
  cbn [se_iter]. unfold se_bind. rewrite (execute_ddl_index_text _ _ (Table cols keys [])); [done|done|by rewrite lookup_insert_eq| |done].
  by rewrite lookup_insert_ne by (apply not_eq_sym, index_name_ne).
Qed.

Lemma execute_ddl_create_table name cols keys s :
  cols <> [] -> (keys = [] \/ simple_ident name = true) ->
  se_iter execute_ddl [create_text name cols keys] s = create_table name cols keys s.
Proof.
  intros Hne Hk. rewrite <-(execute_ddl_create name cols keys [] s) by auto.
  by rewrite (bool_decide_eq_true_2 (@nil string = [])).
Qed.

(** When a table already has the index's name, the CREATE TABLE runs and
    the CREATE INDEX after it fails. *)
Lemma execute_ddl_index_taken name cols keys ix s t :
  s !! name = None -> cols <> [] -> NoDup cols.*1 -> Forall (fun k => k ∈ cols.*1) keys ->
  (keys = [] \/ simple_ident name = true) -> ix <> [] -> s !! index_name name ix = Some t ->
  se_iter execute_ddl [create_text name cols keys; index_text name ix] s =
    (inl (SqliteError (TableNamed (index_name name ix))), <[name := Table cols keys []]> s).
Proof.
  intros Hs Hne Hnd Hk Hpk Hix Ht. cbn [se_iter]. unfold execute_ddl at 1.
  rewrite ddl_parse_create_text by done. unfold se_bind. rewrite create_table_ok by done.
  unfold execute_ddl. rewrite ddl_parse_index_text by done.
  unfold create_index, has_table. se_unfold. rewrite lookup_insert_eq.
  rewrite lookup_insert_ne by (apply not_eq_sym, index_name_ne).
  by rewrite Ht, bool_decide_eq_true_2 by eauto.
Qed.

(** With unique keys, a batch of INSERT OR REPLACE only appends. *)
Lemma replace_all_unique t R batch :
  keys_unique t (R ++ batch) -> replace_all t R batch = R ++ batch.
Proof.
  revert R. induction batch as [|x xs IH]; intros R Hu; [by rewrite app_nil_r|].
  rewrite cons_middle, app_assoc in Hu. unfold replace_all. simpl.
  fold (replace_all t (replace_rows t R x) xs).
  pose proof (proj1 (keys_unique_snoc _ _ _) (keys_unique_app_l _ _ _ Hu)) as [_ Hnc].
  assert (replace_rows t R x = R ++ [x]) as ->.
  { unfold replace_rows. rewrite filter_all; [done|]. rewrite Forall_forall in Hnc. intros r Hr. by apply Hnc. }
  rewrite IH by done. by rewrite <-app_assoc.
Qed.

(** Rows without a complete key never replace anything. *)
Lemma replace_all_unkeyed t R batch :
  Forall (fun r => keyed t r = false) batch -> replace_all t R batch = R ++ batch.
Proof.
  revert R. induction batch as [|x xs IH]; intros R Hk; [by rewrite app_nil_r|].
  inversion Hk as [|? ? Hx Hxs]; subst. unfold replace_all. simpl.
  fold (replace_all t (replace_rows t R x) xs).
  assert (replace_rows t R x = R ++ [x]) as ->.
  { unfold replace_rows. rewrite filter_all; [done|]. intros r _. unfold conflicts. by rewrite Hx. }
  rewrite IH by done. by rewrite <-app_assoc.
Qed.

(** ** The schema of an existing table never changes *)

Definition schema_kept (s s' : gmap string table) : Prop :=
  forall n t, s !! n = Some t ->
  exists t', s' !! n = Some t' /\ t_cols t' = t_cols t /\ t_pk t' = t_pk t.

Lemma schema_kept_refl s : schema_kept s s.
Proof. intros n t Ht. by exists t. Qed.

Lemma schema_kept_trans s1 s2 s3 : schema_kept s1 s2 -> schema_kept s2 s3 -> schema_kept s1 s3.
Proof.
  intros H12 H23 n t Ht. destruct (H12 n t Ht) as (t2 & Ht2 & Hc2 & Hp2).
  destruct (H23 n t2 Ht2) as (t3 & Ht3 & Hc3 & Hp3). exists t3. split_and!; congruence.
Qed.

#[local] Hint Resolve schema_kept_refl : sqlite.

Lemma exec_row_schema st params s r s' :
  exec_row st params s = (r, s') -> schema_kept s s'.
Proof.
  unfold exec_row. se_unfold.
  destruct (s !! st_table st) as [t|] eqn:Hs; [|intros [= _ <-]; eauto with sqlite].
  case_decide; [|intros [= _ <-]; eauto with sqlite].
  destruct (insert_row _ _ _ _) as [e|t'] eqn:Hins; [intros [= _ <-]; eauto with sqlite|].
  intros [= _ <-] n t0 Ht0. destruct (decide (n = st_table st)) as [->|Hne].
  - rewrite lookup_insert_eq. exists t'. rewrite Hs in Ht0. injection Ht0 as <-.
    unfold insert_row, insert_checked in Hins. repeat case_match; simplify_eq; done.
  - rewrite lookup_insert_ne by done. eauto.
Qed.

Lemma executemany_stmt_preserve (P : gmap string table -> Prop) st rows s r s' :
  (forall params s0 r0 s1, P s0 -> exec_row st params s0 = (r0, s1) -> P s1) ->
  P s -> executemany_stmt st rows s = (r, s') -> P s'.
Proof.
  intros Hstep Hs. unfold executemany_stmt. se_unfold.
  destruct (prepare s st); [by intros [= _ <-]|].
  apply se_iter_preserve; [|done]. eauto.
Qed.

Lemma executemany_preserve (P : gmap string table -> Prop) sql rows s r s' :
  (forall st params s0 r0 s1, P s0 -> exec_row st params s0 = (r0, s1) -> P s1) ->
  P s -> executemany sql rows s = (r, s') -> P s'.
Proof.
  intros Hstep Hs. unfold executemany.
  destruct (sql_parse sql) as [st|]; [|se_unfold; by intros [= _ <-]].
  apply executemany_stmt_preserve; [|done]. eauto.
Qed.

Lemma create_table_schema name cols pk s r s' :
  create_table name cols pk s = (r, s') -> schema_kept s s'.
Proof.
  destruct r as [e|u]; intros Hc.
  - apply create_table_err in Hc as ->. apply schema_kept_refl.
  - apply create_table_inr in Hc as [Hnone ->]. intros n t Ht.
    rewrite lookup_insert_ne by congruence. by exists t.
Qed.

(** ** Running statements *)

Lemma prepare_ok s m name cols t :
  s !! name = Some t -> Forall (fun c => c ∈ (t_cols t).*1) cols ->
  prepare s (InsertStmt m name cols (length cols)) = inr t.
Proof.
  intros Hs Hcols. unfold prepare. simpl. rewrite Hs.
  rewrite (proj2 (first_missing_None _ _)) by done. by rewrite bool_decide_eq_true_2.
Qed.

Lemma exec_row_step m name cols n s t params :
  s !! name = Some t -> length params = n ->
  exec_row (InsertStmt m name cols n) params s =
    match insert_row m name t (bind_row t cols params) with
    | inl e => (inl (SqliteError e), s)
    | inr t' => (inr tt, <[name := t']> s)
    end.
Proof.
  intros Hs Hn. unfold exec_row. se_unfold. simpl. rewrite Hs, bool_decide_eq_true_2 by done.
  by destruct (insert_row _ _ _ _).
Qed.

Section Batch.
  Context (name : string) (t : table) (cols : list string).

  (** Accepted rows of the statement's width that have their rowid. *)
Definition batch_ok (rows : list (list value)) : Prop :=
    Forall (fun r => length r = length cols /\ accepts (t_cols t) (t_pk t) (bind_row t cols r) = true /\
                     needs_rowid t (bind_row t cols r) = false) rows.

  (** INSERT OR REPLACE of accepted rows succeeds and leaves the rows of
      [replace_all]. *)
Lemma exec_rows_replace s R rows :
    s !! name = Some (set_rows t R) -> batch_ok rows ->
    se_iter (exec_row (InsertStmt OrReplace name cols (length cols))) rows s =
      (inr tt, <[name := set_rows t (replace_all t R (bind_row t cols <$> rows))]> s).
  Proof.
    revert s R. induction rows as [|r rows IH]; intros s R Hs Hok.
    - simpl. by rewrite insert_id.
    - inversion Hok as [|? ? (Hlen & Hacc & Hneed) Hrest]; subst. simpl se_iter. unfold se_bind.
      rewrite (exec_row_step _ _ _ _ _ _ _ Hs Hlen), insert_row_keep by exact Hneed.
      unfold insert_checked. simpl.
      change (accepts (t_cols t) (t_pk t) (bind_row t cols r)) with
        (accepts (t_cols t) (t_pk t) (bind_row (set_rows t R) cols r)) in Hacc.
      rewrite Hacc. simpl. rewrite (IH _ (replace_rows t R (bind_row t cols r))) by
        (by rewrite ?lookup_insert_eq). by rewrite insert_insert_eq.
  Qed.

  (** A plain INSERT of accepted rows whose keys stay unique succeeds and
      appends them. *)
Lemma exec_rows_plain s R rows :
    s !! name = Some (set_rows t R) -> batch_ok rows ->
    keys_unique t (R ++ (bind_row t cols <$> rows)) ->
    se_iter (exec_row (InsertStmt Plain name cols (length cols))) rows s =
      (inr tt, <[name := set_rows t (R ++ (bind_row t cols <$> rows))]> s).
  Proof.
    revert s R. induction rows as [|r rows IH]; intros s R Hs Hok Hu.
    - simpl. rewrite app_nil_r. by rewrite insert_id.
    - inversion Hok as [|? ? (Hlen & Hacc & Hneed) Hrest]; subst. simpl se_iter. unfold se_bind.
      rewrite (exec_row_step _ _ _ _ _ _ _ Hs Hlen), insert_row_keep by exact Hneed.
      unfold insert_checked. simpl.
      change (accepts (t_cols t) (t_pk t) (bind_row t cols r)) with
        (accepts (t_cols t) (t_pk t) (bind_row (set_rows t R) cols r)) in Hacc.
      rewrite Hacc. simpl.
      rewrite fmap_cons, cons_middle, app_assoc in Hu.
      pose proof (proj1 (keys_unique_snoc _ _ _) (keys_unique_app_l _ _ _ Hu)) as [_ Hnc].
      apply existsb_false_Forall in Hnc.
      change (existsb (conflicts (set_rows t R) (bind_row (set_rows t R) cols r)) R)
        with (existsb (conflicts t (bind_row t cols r)) R).
      rewrite Hnc. simpl. rewrite (IH _ (R ++ [bind_row t cols r])) by
        (by rewrite ?lookup_insert_eq).
      by rewrite insert_insert_eq, <-app_assoc.
  Qed.
  (** A plain INSERT whose rows repeat a non-NULL key fails with
      "UNIQUE constraint failed". *)
Lemma exec_rows_plain_dup s R rows :
    s !! name = Some (set_rows t R) -> batch_ok rows -> keys_unique t R ->
    ~ keys_unique t (R ++ (bind_row t cols <$> rows)) ->
    exists s', se_iter (exec_row (InsertStmt Plain name cols (length cols))) rows s =
      (inl (SqliteError (UniqueFailed name)), s').
  Proof.
    revert s R. induction rows as [|r rows IH]; intros s R Hs Hok Hu Hdup.
    - by rewrite app_nil_r in Hdup.
    - inversion Hok as [|? ? (Hlen & Hacc & Hneed) Hrest]; subst. simpl se_iter. unfold se_bind.
      rewrite (exec_row_step _ _ _ _ _ _ _ Hs Hlen), insert_row_keep by exact Hneed.
      unfold insert_checked. simpl.
      change (accepts (t_cols t) (t_pk t) (bind_row t cols r)) with
        (accepts (t_cols t) (t_pk t) (bind_row (set_rows t R) cols r)) in Hacc.
      rewrite Hacc. simpl.
      change (existsb (conflicts (set_rows t R) (bind_row (set_rows t R) cols r)) R)
        with (existsb (conflicts t (bind_row t cols r)) R).
      destruct (existsb (conflicts t (bind_row t cols r)) R) eqn:Hex; [by eexists|].
      apply (IH _ (R ++ [bind_row t cols r])); [by rewrite lookup_insert_eq|done| |].
      + apply keys_unique_snoc. split; [done|]. by apply existsb_false_Forall.
      + by rewrite <-app_assoc.
  Qed.

  (** INSERT OR REPLACE raises "datatype mismatch" at the first row the
      engine rejects. *)
Lemma exec_rows_replace_reject s R pre r post :
    s !! name = Some (set_rows t R) -> batch_ok pre -> length r = length cols ->
    accepts (t_cols t) (t_pk t) (bind_row t cols r) = false -> needs_rowid t (bind_row t cols r) = false ->
    exists s', se_iter (exec_row (InsertStmt OrReplace name cols (length cols))) (pre ++ r :: post) s =
      (inl (SqliteError DatatypeMismatch), s').
  Proof.
    intros Hs Hok Hlen Hrej Hneed. rewrite se_iter_app. unfold se_bind at 1.
    rewrite (exec_rows_replace _ _ _ Hs Hok). simpl se_iter. unfold se_bind.
    rewrite (exec_row_step _ _ _ _ _ (set_rows t (replace_all t R (bind_row t cols <$> pre))));
      [|by rewrite lookup_insert_eq|done].
    rewrite insert_row_keep by exact Hneed.
    unfold insert_checked. simpl. change (bind_row (set_rows t ?X) cols r) with (bind_row t cols r).
    rewrite Hrej. by eexists.
  Qed.
End Batch.

End StoreFacts.

End Store.
