(* ===== verification/PandasSqlite.v ===== *)
(** The three functions of [pandas_sqlite.py], composed from the models
    of pandas ([Frame]), of the statement text ([Statement]) and of the
    store ([Store]), and the theorems about them.

    [CreateTableIfNotExists] (lines 18-31) and the legacy branch of
    [InsertOrReplaceRecords] (lines 61-67) go through pandas'
    [SQLiteTable.create] and [SQLiteTable.insert], modelled here as
    [sqlite_table_create] and [sqlite_table_insert]; the existing-table
    branch (lines 54-60) runs the text of [_InsertOrReplaceStatement]
    through [executemany] inside [run_transaction].  Both pandas paths
    print their statements with [Ddl]'s [_create_table_setup] (when the
    [SQLiteTable] is built, so a bad name raises before anything else)
    and [insert_statement], and the store parses them back; the theorems
    show when that round trip holds and what happens when it does not. *)

From Stdlib Require Import QArith_base.
From S2P Require Import Prelude Values Frame Statement Ddl Store.
Import Frame FrameFacts Statement Ddl Store.

Module PandasSqlite.

(** [if_exists] of [SQLiteTable]: the two values the code passes. *)
Inductive if_exists := IfExistsFail | IfExistsAppend.

Section Helper.
Context `{!Engine}.

(** [SQLiteTable(name, db, frame=..., keys=keys, if_exists=ie)] prints
    its statements when it is built ([_create_table_setup], which may
    raise [ValueError] on a name); [.create()] then does nothing, or
    raises [ValueError] when [ie] is 'fail', if the table exists, and
    otherwise [_execute_create] runs the statements one after the other.
    It runs them inside [run_transaction], but sqlite3 opens no
    transaction for a CREATE: each statement commits as it runs, and a
    failing CREATE INDEX leaves the CREATE TABLE before it in place. *)
Definition sqlite_table_create (name : string) (schema : list (string * sql_type))
    (keys : list string) (ix_cols : list string) (ie : if_exists) : SE (gmap string table) exn unit :=
  (do stmts <- se_lift (_create_table_setup name schema keys ix_cols);
   do s <- se_get;
   if has_table s name then
     match ie with
     | IfExistsFail => throw (TableExistsError name)
     | IfExistsAppend => ret tt
     end
   else se_iter execute_ddl stmts)%se.

(** [SQLiteTable(name, db, frame=frame, index=True, ...).insert()] with
    the default [chunksize=None]: one chunk holding every row, written
    by pandas' plain INSERT text in one transaction; nothing at all for
    an empty frame. *)
Definition sqlite_table_insert (name : string) (df : frame) : SE (gmap string table) exn unit :=
  (do kd <- se_lift (insert_data df);
   let nrows := frame_nrows df in
   if bool_decide (nrows = 0) then ret tt
   else run_transaction
          (do sql <- se_lift (insert_statement name kd.1);
           executemany sql (zip_columns (take nrows <$> kd.2))))%se.

(** [CreateTableIfNotExists(con, name, column_types, keys)], lines 18-31. *)
Definition CreateTableIfNotExists (name : string) (column_types : list (string * dtype))
    (keys : list string) : SE (gmap string table) exn unit :=
  let frame := _EmptyFrame column_types in
  sqlite_table_create name (column_names_and_types false frame) keys [] IfExistsAppend.

(** pandas writes each key name with [_get_valid_sqlite_name(str(c))];
    an unnamed level ([None]) becomes the column name "None". *)
Definition index_key (name : option string) : string :=
  match name with Some n => n | None => "None" end.

(** [InsertOrReplaceRecords(con, name, frame)], lines 40-67.  On the
    existing-table branch the table object of lines 55-56 is built (its
    statements are printed, and discarded) before [insert_data]. *)
Definition InsertOrReplaceRecords (name : string) (df : frame) : SE (gmap string table) exn unit :=
  (do s <- se_get;
   if has_table s name then
     do _ <- se_lift (_create_table_setup name (column_names_and_types true df) [] (_index_name df));
     do kd <- se_lift (insert_data df);
     let insert_statement := _InsertOrReplaceStatement name kd.1 in
     run_transaction (executemany insert_statement (zip_columns kd.2))
   else
     do _ <- sqlite_table_create name (column_names_and_types true df)
               (index_key <$> (f_index df).*1) (_index_name df) IfExistsFail;
     sqlite_table_insert name df)%se.

End Helper.

(** ** Names used by the theorems *)

(** The column names the code writes for a frame: the index labels,
    then the data columns. *)
Definition record_names (df : frame) : list string := _index_name df ++ (f_columns df).*1.

(** The value lists of those columns. *)
Definition record_columns (df : frame) : list (list value) :=
  ((fun p => block_values p.2) <$> f_index df) ++ ((fun p => block_values p.2) <$> f_columns df).

(** The tuples [zip] yields over those columns: one per row of the frame. *)
Definition frame_records (df : frame) : list (list value) := zip_columns (record_columns df).

(** The rows table [t] stores for them. *)
Definition batch_rows (t : table) (df : frame) : list (list value) :=
  bind_row t (record_names df) <$> frame_records df.

(** The (column, dtype) pairs of a frame with a named index, as a caller
    passes them to [CreateTableIfNotExists]. *)
Definition frame_column_types (df : frame) : list (string * dtype) :=
  ((fun p => (index_key p.1, s_dtype p.2)) <$> f_index df)
  ++ ((fun p => (p.1, s_dtype p.2)) <$> f_columns df).

(** The names the legacy path writes can be written and read back: the
    table name is a bare identifier (pandas also writes it, unquoted, in
    the constraint name), the record names are non-empty and free of NUL,
    and no table has the name of the index pandas adds. *)
Definition legacy_names_ok (s : gmap string table) (name : string) (df : frame) : Prop :=
  simple_ident name = true /\ Forall (fun c => valid_name c = true) (record_names df) /\
  s !! index_name name (_index_name df) = None.

(** Every index level has a name (the docstring's assumption). *)
Definition index_named (df : frame) : Prop := Forall (fun p => is_Some p.1) (f_index df).

(** The table the legacy path creates for a frame, before the insert. *)
Definition legacy_table (df : frame) : table :=
  Table (column_names_and_types true df) (index_key <$> (f_index df).*1) [].

(** pandas types every column of the frame as it would type an empty
    series of the same dtype (true of every dtype but [object] holding
    non-text values). *)
Definition typed_by_dtype (df : frame) : Prop :=
  Forall (fun p => _sql_type_name p.2 = _sql_type_name (Series (s_dtype p.2) [])) (f_index df) /\
  Forall (fun p => _sql_type_name p.2 = _sql_type_name (Series (s_dtype p.2) [])) (f_columns df).

(** ** The scenario of the spec (section 8)

    A table "scores" keyed by "id", with a text and a float column, and
    two batches: [batch1] writes id 1; [batch2] rewrites id 1 and adds
    id 2.  [batch3] has a NULL id; [batch_dup] repeats id 1. *)

Definition scores_schema : list (string * dtype) :=
  [("id", Int64); ("name", Object); ("score", Float64)].

Definition scores_frame (ids : list value) (names : list value) (scores : list value) : frame :=
  DataFrame [(Some "id", Series Int64 ids)]
    [("name", Series Object names); ("score", Series Float64 scores)].

Definition batch1 : frame := scores_frame [VInt 1] [VText "a"] [VReal (1#2)%Q].
Definition batch2 : frame :=
  scores_frame [VInt 1; VInt 2] [VText "a"; VText "b"] [VReal (9#10)%Q; VReal (1#10)%Q].
Definition batch3 : frame := scores_frame [VNull] [VText "c"] [VReal (1#4)%Q].
Definition batch_dup : frame :=
  scores_frame [VInt 1; VInt 1] [VText "a"; VText "b"] [VReal (1#2)%Q; VReal (1#4)%Q].

(** A batch whose second id is 2.5, which an INTEGER PRIMARY KEY refuses. *)
Definition batch_mixed : frame :=
  DataFrame [(Some "id", Series Object [VInt 3; VReal (5#2)%Q; VInt 4])]
    [("name", Series Object [VText "c"; VText "d"; VText "e"]);
     ("score", Series Float64 [VReal (1#2)%Q; VReal (1#2)%Q; VReal (1#2)%Q])].

(** A batch with a column the table does not have. *)
Definition batch_note : frame :=
  DataFrame [(Some "id", Series Int64 [VInt 5])]
    [("name", Series Object [VText "f"]); ("note", Series Object [VText "new"])].

(** A batch that rewrites id 1 without a score. *)
Definition batch_name_only : frame :=
  DataFrame [(Some "id", Series Int64 [VInt 1])] [("name", Series Object [VText "z"])].

(** A frame with the default, unnamed index. *)
Definition unnamed_frame : frame :=
  DataFrame [(None, Series Int64 [VInt 0])] [("v", Series Int64 [VInt 7])].

(** A batch whose data column name holds a blank, which pandas quotes. *)
Definition batch_spaced : frame :=
  DataFrame [(Some "id", Series Int64 [VInt 1])] [("my score", Series Float64 [VReal (1#2)%Q])].

Definition scores_table : table :=
  Table [("id", INTEGER); ("name", TEXT); ("score", REAL)] ["id"] [].

Definition after_batch1 : gmap string table :=
  {[ "scores" := set_rows scores_table [[VInt 1; VText "a"; VReal (1#2)%Q]] ]}.

(** The scores table after two disjoint batches of the spec: ids 1, 2
    then ids 3, 4. *)
Definition after_batch12 : gmap string table :=
  {[ "scores" := set_rows scores_table
                   [[VInt 1; VText "a"; VReal (1#2)%Q]; [VInt 2; VText "b"; VReal (1#10)%Q]] ]}.

Definition batch34 : frame :=
  scores_frame [VInt 3; VInt 4] [VText "c"; VText "d"] [VReal (3#10)%Q; VReal (2#5)%Q].

(** The same columns provisioned without a primary key ([keys = []]). *)
Definition log_table : table :=
  Table [("id", INTEGER); ("name", TEXT); ("score", REAL)] [] [].

Definition after_log : gmap string table :=
  {[ "log" := set_rows log_table [[VInt 1; VText "a"; VReal (1#2)%Q]] ]}.

(** A store where a table already has the name pandas gives the index of
    [scores]. *)
Definition ix_taken : gmap string table := {[ "ix_scores_id" := log_table ]}.

(** ** Facts *)

Section Facts.
Context `{!Engine}.

Lemma insert_data_records df :
  NoDup (record_names df) -> insert_data df = inr (record_names df, record_columns df).
Proof.
  unfold record_names, record_columns, insert_data. intros Hnd.
  pose proof (proj2 (proj2 (proj1 (NoDup_app _ _) Hnd))) as Hcols.
  by rewrite (proj2 (reset_index_names_spec _ _ _ Hcols) (conj eq_refl Hnd)).
Qed.

Lemma record_columns_rect df :
  frame_wf df -> Forall (fun c => length c = frame_nrows df) (record_columns df).
Proof.
  intros (_ & Hidx & Hcol). unfold record_columns.
  apply Forall_app. split; by apply block_values_rect.
Qed.

Lemma record_columns_length df : length (record_columns df) = length (record_names df).
Proof.
  unfold record_columns, record_names. by rewrite !length_app, !length_fmap, _index_name_length.
Qed.

Lemma record_names_ne df : frame_wf df -> record_names df <> [].
Proof.
  intros [Hne _] Hnil. apply (f_equal length) in Hnil.
  unfold record_names in Hnil. rewrite length_app, _index_name_length in Hnil.
  destruct (f_index df); [done|simpl in Hnil; lia].
Qed.

Lemma frame_records_shape df :
  frame_wf df ->
  length (frame_records df) = frame_nrows df /\
  Forall (fun r => length r = length (record_names df)) (frame_records df).
Proof.
  intros Hwf. rewrite <-record_columns_length. apply zip_columns_shape; [|by apply record_columns_rect].
  intros Hnil. apply (f_equal length) in Hnil. rewrite record_columns_length in Hnil.
  apply (record_names_ne df Hwf). by destruct (record_names df).
Qed.

Lemma column_names_true df : (column_names_and_types true df).*1 = record_names df.
Proof.
  unfold column_names_and_types, record_names. rewrite fmap_app, fst_zip.
  - f_equal. by rewrite <-list_fmap_compose.
  - by rewrite length_fmap, _index_name_length.
Qed.

(** The names written for a frame escape when its record names do. *)
Lemma record_names_setup name df keys ix :
  valid_name name = true -> Forall (fun c => valid_name c = true) (record_names df) ->
  Forall (fun c => valid_name c = true) keys -> Forall (fun c => valid_name c = true) ix ->
  _create_table_setup name (column_names_and_types true df) keys ix =
    inr (create_text name (column_names_and_types true df) keys ::
         if bool_decide (ix = []) then [] else [index_text name ix]).
Proof.
  intros Hn Hv Hk Hix. apply _create_table_setup_ok; [done| |done|done].
  rewrite <-column_names_true, Forall_fmap in Hv. exact Hv.
Qed.

Lemma simple_idents_valid l :
  Forall (fun c => simple_ident c = true) l -> Forall (fun c => valid_name c = true) l.
Proof. intros Hl. eapply Forall_impl; [done|]. apply simple_ident_valid. Qed.

Lemma _index_name_valid df :
  Forall (fun c => valid_name c = true) (record_names df) ->
  Forall (fun c => valid_name c = true) (_index_name df).
Proof. by intros [? _]%Forall_app. Qed.

(** The existing-table branch, lines 54-60, when the names escape: one
    transaction running [executemany] on the text of
    [_InsertOrReplaceStatement] over the frame's records. *)
Lemma InsertOrReplaceRecords_existing_sql s name t df :
  s !! name = Some t -> NoDup (record_names df) ->
  valid_name name = true -> Forall (fun c => valid_name c = true) (record_names df) ->
  InsertOrReplaceRecords name df s =
    run_transaction (executemany (_InsertOrReplaceStatement name (record_names df)) (frame_records df)) s.
Proof.
  intros Hs Hnd Hn Hv. unfold InsertOrReplaceRecords, has_table. se_unfold.
  rewrite bool_decide_eq_true_2 by (rewrite Hs; eauto).
  rewrite record_names_setup by auto using _index_name_valid.
  by rewrite insert_data_records by done.
Qed.

(** The same branch up to the rows: the statement parses back, so the
    call is one transaction running the INSERT OR REPLACE of [prepare]
    once per record. *)
Lemma InsertOrReplaceRecords_existing_run s name t df :
  s !! name = Some t -> frame_wf df -> NoDup (record_names df) ->
  simple_ident name = true -> Forall (fun c => simple_ident c = true) (record_names df) ->
  InsertOrReplaceRecords name df s =
    run_transaction
      (executemany_stmt (InsertStmt OrReplace name (record_names df) (length (record_names df)))
         (frame_records df)) s.
Proof.
  intros Hs Hwf Hnd Hn Hid.
  rewrite (InsertOrReplaceRecords_existing_sql s name t) by auto using simple_ident_valid, simple_idents_valid.
  unfold executemany, _InsertOrReplaceStatement.
  by rewrite sql_parse_insert_or_replace by auto using record_names_ne.
Qed.

Lemma batch_ok_records t df :
  frame_wf df ->
  Forall (fun r => accepts (t_cols t) (t_pk t) r = true) (batch_rows t df) ->
  Forall (fun r => needs_rowid t r = false) (batch_rows t df) ->
  batch_ok t (record_names df) (frame_records df).
Proof.
  intros Hwf Hacc Hrid. destruct (frame_records_shape df Hwf) as [_ Hlen].
  unfold batch_rows in Hacc, Hrid. rewrite Forall_fmap in Hacc, Hrid.
  rewrite Forall_forall in Hlen, Hacc, Hrid.
  apply Forall_forall. intros r Hr. split_and!; [by apply Hlen|exact (Hacc r Hr)|exact (Hrid r Hr)].
Qed.

(** The existing-table branch when every row is accepted: the table gets
    the rows of one INSERT OR REPLACE per record. *)
Lemma InsertOrReplaceRecords_existing s name t df :
  s !! name = Some t -> frame_wf df -> NoDup (record_names df) ->
  simple_ident name = true -> Forall (fun c => simple_ident c = true) (record_names df) ->
  Forall (fun c => c ∈ (t_cols t).*1) (record_names df) ->
  Forall (fun r => accepts (t_cols t) (t_pk t) r = true) (batch_rows t df) ->
  Forall (fun r => needs_rowid t r = false) (batch_rows t df) ->
  InsertOrReplaceRecords name df s =
    (inr tt, <[name := set_rows t (replace_all t (t_rows t) (batch_rows t df))]> s).
Proof.
  intros Hs Hwf Hnd Hn Hid Hcols Hacc Hrid.
  rewrite (InsertOrReplaceRecords_existing_run s name t) by done.
  unfold run_transaction, executemany_stmt. se_unfold. rewrite (prepare_ok _ _ _ _ t) by done.
  rewrite <-(set_rows_id t) in Hs.
  by rewrite (exec_rows_replace name t (record_names df) s (t_rows t) (frame_records df)), ?set_rows_id
    by auto using batch_ok_records.
Qed.

(** C1: upsert correctness of [InsertOrReplaceRecords] on an existing
    table with a primary key.  When the names are bare identifiers and
    columns of the table, the engine accepts every row and no record
    leaves a rowid alias NULL, the call
    returns, keeps the table's columns and key, and for every complete
    (NULL-free) key [k] the table holds exactly the last record of the
    frame with key [k], or, when the frame has none, the rows it held
    before with that key. *)
Theorem InsertOrReplaceRecords_upsert s name t df (k : list value) :
  s !! name = Some t -> frame_wf df -> NoDup (record_names df) ->
  simple_ident name = true -> Forall (fun c => simple_ident c = true) (record_names df) ->
  Forall (fun c => c ∈ (t_cols t).*1) (record_names df) ->
  Forall (fun r => accepts (t_cols t) (t_pk t) r = true) (batch_rows t df) ->
  Forall (fun r => needs_rowid t r = false) (batch_rows t df) ->
  t_pk t <> [] -> existsb is_null k = false ->
  exists t', InsertOrReplaceRecords name df s = (inr tt, <[name := t']> s) /\
    t_cols t' = t_cols t /\ t_pk t' = t_pk t /\
    rows_with_key t k (t_rows t') =
      match last (filter (fun r => key_of t r = k) (batch_rows t df)) with
      | Some r => [r]
      | None => rows_with_key t k (t_rows t)
      end.
Proof.
  intros Hs Hwf Hnd Hn Hid Hcols Hacc Hrid Hpk Hk.
  eexists. split; [by apply InsertOrReplaceRecords_existing|].
  split_and!; [done|done|]. by apply replace_all_rows_with_key.
Qed.

(** C20: disjoint-key union (spec section 8).  When the records' keys
    are distinct and none is already in the table, the call appends the
    records after the existing rows: the table holds the old keys and the
    new ones, each row with the values of the batch it came from. *)
Theorem InsertOrReplaceRecords_disjoint_union s name t df :
  s !! name = Some t -> frame_wf df -> NoDup (record_names df) ->
  simple_ident name = true -> Forall (fun c => simple_ident c = true) (record_names df) ->
  Forall (fun c => c ∈ (t_cols t).*1) (record_names df) ->
  Forall (fun r => accepts (t_cols t) (t_pk t) r = true) (batch_rows t df) ->
  Forall (fun r => needs_rowid t r = false) (batch_rows t df) ->
  keys_unique t (t_rows t ++ batch_rows t df) ->
  InsertOrReplaceRecords name df s =
    (inr tt, <[name := set_rows t (t_rows t ++ batch_rows t df)]> s).
Proof.
  intros Hs Hwf Hnd Hn Hid Hcols Hacc Hrid Hu.
  rewrite (InsertOrReplaceRecords_existing s name t) by done.
  by rewrite replace_all_unique.
Qed.

(** C10: records without a complete key are only ever appended.  When the
    table has no primary key (which [CreateTableIfNotExists] allows with
    [keys = []]), or every record has a NULL in its key and the key is
    not the rowid alias (for which see C19), the call adds all records
    after the existing rows and replaces nothing: writing the same frame
    twice stores every record twice. *)
Theorem InsertOrReplaceRecords_unkeyed_appends s name t df :
  s !! name = Some t -> frame_wf df -> NoDup (record_names df) ->
  simple_ident name = true -> Forall (fun c => simple_ident c = true) (record_names df) ->
  Forall (fun c => c ∈ (t_cols t).*1) (record_names df) ->
  Forall (fun r => accepts (t_cols t) (t_pk t) r = true) (batch_rows t df) ->
  Forall (fun r => needs_rowid t r = false) (batch_rows t df) ->
  Forall (fun r => t_pk t = [] \/ existsb is_null (key_of t r) = true) (batch_rows t df) ->
  InsertOrReplaceRecords name df s =
    (inr tt, <[name := set_rows t (t_rows t ++ batch_rows t df)]> s).
Proof.
  intros Hs Hwf Hnd Hn Hid Hcols Hacc Hrid Hnull.
  rewrite (InsertOrReplaceRecords_existing s name t) by done.
  rewrite replace_all_unkeyed; [done|]. eapply Forall_impl; [exact Hnull|].
  intros r [Hpk|Hk]; unfold keyed; [by rewrite Hpk|by rewrite Hk, andb_false_r].
Qed.

(** C19: a record whose key is NULL in a table keyed by one INTEGER
    column (the rowid alias, as for the scores table of the spec) is not
    stored with a NULL key: SQLite gives it the next rowid, one more than
    the largest key in the table, and the record is appended. *)
Theorem InsertOrReplaceRecords_rowid s name t df r i :
  s !! name = Some t -> frame_wf df -> NoDup (record_names df) ->
  simple_ident name = true -> Forall (fun c => simple_ident c = true) (record_names df) ->
  Forall (fun c => c ∈ (t_cols t).*1) (record_names df) ->
  batch_rows t df = [r] -> rowid_col t = Some i -> r !! i = Some VNull ->
  (next_rowid t i <= max_int64)%Z ->
  accepts (t_cols t) (t_pk t) (<[i := VInt (next_rowid t i)]> r) = true ->
  InsertOrReplaceRecords name df s =
    (inr tt, <[name := set_rows t (t_rows t ++ [<[i := VInt (next_rowid t i)]> r])]> s).
Proof.
  intros Hs Hwf Hnd Hn Hid Hcols Hb Hc Hnull Hmax Hacc.
  rewrite (InsertOrReplaceRecords_existing_run s name t) by done.
  unfold run_transaction, executemany_stmt. se_unfold. rewrite (prepare_ok _ _ _ _ t) by done.
  destruct (frame_records_shape df Hwf) as [_ Hlen]. unfold batch_rows in Hb.
  destruct (frame_records df) as [|r0 [|]]; simplify_eq/=. inversion Hlen as [|? ? Hl0 _]; subst.
  unfold se_bind. rewrite (exec_row_step _ _ _ _ _ t) by done.
  by rewrite (insert_row_new_rowid _ _ _ i).
Qed.

(** C7: the replace overwrites the whole row.  For a complete key [k] that
    some record of the frame has, the table ends with a single row for
    [k]; its cells for the table's columns that the frame does not have
    are NULL, not the values of the row it replaced (records with a NULL
    rowid alias excepted, as in C1). *)
Theorem InsertOrReplaceRecords_replaces_whole_row s name t df (k : list value) :
  s !! name = Some t -> frame_wf df -> NoDup (record_names df) ->
  simple_ident name = true -> Forall (fun c => simple_ident c = true) (record_names df) ->
  Forall (fun c => c ∈ (t_cols t).*1) (record_names df) ->
  Forall (fun r => accepts (t_cols t) (t_pk t) r = true) (batch_rows t df) ->
  Forall (fun r => needs_rowid t r = false) (batch_rows t df) ->
  t_pk t <> [] -> existsb is_null k = false ->
  k ∈ key_of t <$> batch_rows t df ->
  exists t' r, InsertOrReplaceRecords name df s = (inr tt, <[name := t']> s) /\
    rows_with_key t k (t_rows t') = [r] /\
    forall c, c ∉ record_names df -> cell t r c = VNull.
Proof.
  intros Hs Hwf Hnd Hn Hid Hcols Hacc Hrid Hpk Hk Hin.
  destruct (last (filter (fun r => key_of t r = k) (batch_rows t df))) as [r|] eqn:Hlast.
  - eexists _, r. split; [by apply InsertOrReplaceRecords_existing|].
    simpl. rewrite replace_all_rows_with_key, Hlast by done. split; [done|].
    intros c Hc. apply last_Some_elem_of in Hlast. apply list_elem_of_filter in Hlast as [_ Hr].
    apply list_elem_of_fmap in Hr as (rec & -> & _). by apply bind_row_absent.
  - exfalso. apply last_None in Hlast. apply list_elem_of_fmap in Hin as (r & -> & Hr).
    exact (filter_nil_not_elem_of _ _ _ Hlast eq_refl Hr).
Qed.

(** C2: atomicity of the existing-table branch.  If the engine rejects any
    record of the frame (none of which leaves a rowid alias NULL),
    [InsertOrReplaceRecords] raises "datatype
    mismatch" and the store is exactly as before: none of the records,
    not even those before the rejected one, is kept. *)
Theorem InsertOrReplaceRecords_atomic s name t df :
  s !! name = Some t -> frame_wf df -> NoDup (record_names df) ->
  simple_ident name = true -> Forall (fun c => simple_ident c = true) (record_names df) ->
  Forall (fun c => c ∈ (t_cols t).*1) (record_names df) ->
  Forall (fun r => needs_rowid t r = false) (batch_rows t df) ->
  ~ Forall (fun r => accepts (t_cols t) (t_pk t) r = true) (batch_rows t df) ->
  InsertOrReplaceRecords name df s = (inl (SqliteError DatatypeMismatch), s).
Proof.
  intros Hs Hwf Hnd Hn Hid Hcols Hrid Hrej.
  rewrite (InsertOrReplaceRecords_existing_run s name t) by done.
  unfold run_transaction, executemany_stmt. se_unfold. rewrite (prepare_ok _ _ _ _ t) by done.
  unfold batch_rows in Hrej. rewrite Forall_fmap in Hrej.
  change (~ Forall (fun r => accepts (t_cols t) (t_pk t) (bind_row t (record_names df) r) = true)
            (frame_records df)) in Hrej.
  destruct (not_Forall_first _ _ Hrej) as (pre & r & post & Hsplit & Hpre & Hr).
  destruct (frame_records_shape df Hwf) as [_ Hlen]. rewrite Hsplit in Hlen.
  apply Forall_app in Hlen as [Hlpre Hlr]. inversion Hlr as [|? ? Hlr0 _]; subst.
  unfold batch_rows in Hrid. rewrite Forall_fmap, Hsplit, Forall_app, Forall_cons in Hrid.
  destruct Hrid as (Hridpre & Hridr & _).
  rewrite <-(set_rows_id t) in Hs. rewrite Hsplit.
  destruct (exec_rows_replace_reject name t (record_names df) s (t_rows t) pre r post)
    as [s' ->]; [done| |done|by apply not_true_is_false|done|done].
  rewrite Forall_forall in Hlpre, Hpre, Hridpre.
  apply Forall_forall. intros x Hx. split_and!; [by apply Hlpre|exact (Hpre x Hx)|exact (Hridpre x Hx)].
Qed.

(** C11: a record name that is not a column of the existing table makes
    SQLite reject the statement ("table has no column named ...") before
    any row is written; the store is unchanged.  This is the outcome for
    a frame with an unnamed index, whose records carry a column "index". *)
Theorem InsertOrReplaceRecords_unknown_column s name t df :
  s !! name = Some t -> frame_wf df -> NoDup (record_names df) ->
  simple_ident name = true -> Forall (fun c => simple_ident c = true) (record_names df) ->
  ~ Forall (fun c => c ∈ (t_cols t).*1) (record_names df) ->
  exists c, c ∈ record_names df /\ (c ∉ (t_cols t).*1) /\
    InsertOrReplaceRecords name df s = (inl (SqliteError (NoColumnNamed name c)), s).
Proof.
  intros Hs Hwf Hnd Hn Hid Hcols.
  rewrite (InsertOrReplaceRecords_existing_run s name t) by done.
  unfold run_transaction, executemany_stmt, prepare. se_unfold. simpl. rewrite Hs.
  destruct (first_missing (t_cols t).*1 (record_names df)) as [c|] eqn:Hm.
  - apply first_missing_Some in Hm as [Hin Hnin]. by exists c.
  - by apply first_missing_None in Hm.
Qed.

(** ** Provisioning *)

(** The names of the table built from [_EmptyFrame column_types] are
    requested names, so they escape when those do. *)
Lemma empty_frame_names_valid ct :
  Forall (fun c => valid_name c = true) ct.*1 ->
  Forall (fun c => valid_name c.1 = true) (column_names_and_types false (_EmptyFrame ct)).
Proof.
  intros Hct. pose proof (_EmptyFrame_names ct) as Hsub. rewrite Forall_forall in Hsub, Hct.
  apply Forall_forall. intros [c sq] Hc. unfold column_names_and_types in Hc.
  apply list_elem_of_fmap in Hc as ([c' sr] & [= -> ->] & Hc'). apply Hct, Hsub.
  apply list_elem_of_fmap. by exists (c', sr).
Qed.

Lemma empty_frame_setup name ct keys :
  valid_name name = true -> Forall (fun c => valid_name c = true) (ct.*1 ++ keys) ->
  _create_table_setup name (column_names_and_types false (_EmptyFrame ct)) keys [] =
    inr [create_text name (column_names_and_types false (_EmptyFrame ct)) keys].
Proof.
  intros Hn [Hct Hk]%Forall_app.
  by rewrite _create_table_setup_ok by auto using empty_frame_names_valid.
Qed.

Lemma CreateTableIfNotExists_present s name ct keys :
  is_Some (s !! name) -> valid_name name = true -> Forall (fun c => valid_name c = true) (ct.*1 ++ keys) ->
  CreateTableIfNotExists name ct keys s = (inr tt, s).
Proof.
  intros Hs Hn Hv. unfold CreateTableIfNotExists, sqlite_table_create, has_table.
  rewrite empty_frame_setup by done. se_unfold. by rewrite bool_decide_eq_true_2.
Qed.

Lemma CreateTableIfNotExists_inr s name ct keys s1 :
  CreateTableIfNotExists name ct keys s = (inr tt, s1) -> valid_name name = true /\ is_Some (s1 !! name).
Proof.
  unfold CreateTableIfNotExists, sqlite_table_create, has_table. se_unfold.
  destruct (_create_table_setup _ _ _ _) as [e|stmts] eqn:Hset; [done|].
  apply _create_table_setup_inr in Hset as [Hv (rest & -> & _)].
  destruct (bool_decide (is_Some (s !! name))) eqn:Hs.
  { intros [= ->]. split; [done|]. by apply bool_decide_eq_true in Hs. }
  intros Hc. split; [done|]. by eapply execute_ddl_present.
Qed.

(** The schema pandas derives from [_EmptyFrame column_types]. *)
Lemma empty_frame_schema (ct : list (string * dtype)) :
  NoDup ct.*1 ->
  column_names_and_types false (_EmptyFrame ct) = (fun p => (p.1, _sql_type_name (Series p.2 []))) <$> ct.
Proof.
  intros Hnd. unfold column_names_and_types. rewrite (proj2 (_EmptyFrame_columns ct Hnd)), app_nil_l.
  by rewrite <-list_fmap_compose.
Qed.

Lemma CreateTableIfNotExists_absent s name ct keys :
  s !! name = None -> valid_name name = true -> Forall (fun c => valid_name c = true) (ct.*1 ++ keys) ->
  (keys = [] \/ simple_ident name = true) ->
  column_names_and_types false (_EmptyFrame ct) <> [] ->
  NoDup (column_names_and_types false (_EmptyFrame ct)).*1 ->
  Forall (fun k => k ∈ (column_names_and_types false (_EmptyFrame ct)).*1) keys ->
  CreateTableIfNotExists name ct keys s =
    (inr tt, <[name := Table (column_names_and_types false (_EmptyFrame ct)) keys []]> s).
Proof.
  intros Hs Hn Hv Hk Hne Hnd Hkeys. unfold CreateTableIfNotExists, sqlite_table_create, has_table.
  rewrite empty_frame_setup by done.
  se_unfold. rewrite bool_decide_eq_false_2 by (rewrite Hs; by intros []).
  rewrite execute_ddl_create_table by done. by apply create_table_ok.
Qed.

(** C4: [CreateTableIfNotExists] on an absent name, with a non-empty
    schema of distinct names and key columns among them, creates exactly
    the empty table with those columns in order, each typed as pandas
    types an empty series of its dtype, and with that primary key. *)
Theorem CreateTableIfNotExists_creates s name (ct : list (string * dtype)) keys :
  s !! name = None -> valid_name name = true -> Forall (fun c => valid_name c = true) (ct.*1 ++ keys) ->
  (keys = [] \/ simple_ident name = true) ->
  ct <> [] -> NoDup ct.*1 -> Forall (fun k => k ∈ ct.*1) keys ->
  CreateTableIfNotExists name ct keys s =
    (inr tt, <[name := Table ((fun p => (p.1, _sql_type_name (Series p.2 []))) <$> ct) keys []]> s).
Proof.
  intros Hs Hn Hv Hk Hne Hnd Hkeys. rewrite <-empty_frame_schema by done.
  apply CreateTableIfNotExists_absent; [done..| | |];
    rewrite empty_frame_schema, ?fst_map_pair_dep by done; [by destruct ct|done|done].
Qed.

(** C3: provisioning is idempotent.  Once [CreateTableIfNotExists] has
    succeeded, calling it again, with the same or with any other schema
    and key whose names pandas can write (non-empty, without NUL),
    succeeds and changes nothing: the existing table keeps its shape. *)
Theorem CreateTableIfNotExists_idempotent s s1 name ct keys ct' keys' :
  Forall (fun c => valid_name c = true) (ct'.*1 ++ keys') ->
  CreateTableIfNotExists name ct keys s = (inr tt, s1) ->
  CreateTableIfNotExists name ct' keys' s1 = (inr tt, s1).
Proof.
  intros Hv Hc. apply CreateTableIfNotExists_inr in Hc as [Hn Hs1].
  by apply CreateTableIfNotExists_present.
Qed.

(** ** What the legacy insert keeps *)

Section Preserve.
  Context (P : gmap string table -> Prop).
  Hypothesis exec_row_P : forall st params s r s', P s -> exec_row st params s = (r, s') -> P s'.

(** [table.insert()] keeps a property of the store that each executed
    row keeps. *)
Lemma sqlite_table_insert_preserve name df s r s' :
    P s -> sqlite_table_insert name df s = (r, s') -> P s'.
  Proof.
    intros Hs. unfold sqlite_table_insert. se_unfold.
    destruct (insert_data df) as [e|kd]; [by intros [= _ <-]|].
    case_bool_decide; [by intros [= _ <-]|].
    apply run_transaction_preserve; [|done]. intros r0 s0 Hm.
    destruct (insert_statement name kd.1) as [e|sql]; [by injection Hm as _ <-|].
    eapply executemany_preserve; [|exact Hs|exact Hm]. eauto.
  Qed.
End Preserve.


(** ** The legacy path *)

Lemma _index_name_named df : index_named df -> _index_name df = index_key <$> (f_index df).*1.
Proof.
  intros Hn.
  assert (_index_name df = imap (fun i p => level_label i p.1) (f_index df)) as ->.
  { unfold _index_name, index_named in *.
    destruct (f_index df) as [|[[n|] sr] [|p rest]]; try done.
    inversion Hn as [|? ? [? Hsome]]; discriminate. }
  rewrite (imap_on _ (fun p => index_key p.1)), <-list_fmap_compose; [done|].
  intros i [o sr] Hx. unfold index_named in Hn. rewrite Forall_forall in Hn.
  destruct (Hn _ Hx) as [n Hn']. simpl in Hn'. by subst.
Qed.

Lemma column_names_and_types_named df :
  index_named df ->
  column_names_and_types true df =
    ((fun p => (index_key p.1, _sql_type_name p.2)) <$> f_index df)
    ++ ((fun p => (p.1, _sql_type_name p.2)) <$> f_columns df).
Proof.
  intros Hn. unfold column_names_and_types. rewrite _index_name_named by done.
  by rewrite <-list_fmap_compose, zip_fmap_same.
Qed.

Lemma legacy_table_names df :
  index_named df -> (t_cols (legacy_table df)).*1 = record_names df.
Proof.
  intros Hn. unfold legacy_table, record_names. simpl.
  rewrite column_names_and_types_named, _index_name_named by done.
  rewrite fmap_app, (fst_map_pair (fun s => _sql_type_name s)).
  f_equal. rewrite <-!list_fmap_compose. done.
Qed.

(** Writing a record into the legacy table stores it as it is. *)
Lemma legacy_bind_row df r :
  index_named df -> NoDup (record_names df) -> length r = length (record_names df) ->
  bind_row (legacy_table df) (record_names df) r = r.
Proof.
  intros Hn Hnd Hlen. unfold bind_row.
  transitivity (assoc_get VNull (record_names df) r <$> (t_cols (legacy_table df)).*1);
    [by rewrite <-list_fmap_compose|].
  rewrite legacy_table_names by done. by apply assoc_get_self.
Qed.

Lemma legacy_batch_rows df :
  frame_wf df -> index_named df -> NoDup (record_names df) ->
  batch_rows (legacy_table df) df = frame_records df.
Proof.
  intros Hwf Hn Hnd. unfold batch_rows. destruct (frame_records_shape df Hwf) as [_ Hlen].
  rewrite <-(list_fmap_id (frame_records df)) at 2. apply list_fmap_ext.
  intros i r Hr. apply legacy_bind_row; [done|done|].
  by eapply (Forall_forall _ _) in Hlen; [|eapply list_elem_of_lookup_2].
Qed.

Lemma take_record_columns df :
  frame_wf df -> take (frame_nrows df) <$> record_columns df = record_columns df.
Proof.
  intros Hwf. pose proof (record_columns_rect df Hwf) as Hr.
  rewrite <-(list_fmap_id (record_columns df)) at 2. apply list_fmap_ext.
  intros i c Hc. apply take_ge. pose proof (Forall_lookup_1 _ _ _ _ Hr Hc). simpl in *. lia.
Qed.

(** The legacy branch on an absent table, lines 61-67, up to the
    statements: the names escape, so pandas' CREATE TABLE and, for the
    index columns, CREATE INDEX run, each committed on its own, then the
    insert. *)
Lemma InsertOrReplaceRecords_absent s name df :
  s !! name = None -> simple_ident name = true ->
  Forall (fun c => valid_name c = true) (record_names df) ->
  Forall (fun c => valid_name c = true) (index_key <$> (f_index df).*1) ->
  InsertOrReplaceRecords name df s =
    (do _ <- se_iter execute_ddl
              (create_text name (column_names_and_types true df) (index_key <$> (f_index df).*1) ::
               if bool_decide (_index_name df = []) then [] else [index_text name (_index_name df)]);
     sqlite_table_insert name df)%se s.
Proof.
  intros Hs Hid Hv Hk. unfold InsertOrReplaceRecords, sqlite_table_create, has_table.
  se_unfold. rewrite !bool_decide_eq_false_2 by (rewrite Hs; by intros []).
  by rewrite record_names_setup by auto using simple_ident_valid, _index_name_valid.
Qed.

Lemma _index_name_ne df : frame_wf df -> _index_name df <> [].
Proof. intros [Hne _] Hnil. apply (f_equal length) in Hnil. rewrite _index_name_length in Hnil. by destruct (f_index df). Qed.

Lemma legacy_keys_sub df : Forall (fun k => k ∈ record_names df) (_index_name df).
Proof. apply Forall_forall. intros k Hk. unfold record_names. set_solver. Qed.

(** The legacy path's CREATE TABLE, for a frame with a named index. *)
Lemma legacy_create_ok s name df :
  s !! name = None -> frame_wf df -> index_named df -> NoDup (record_names df) ->
  simple_ident name = true ->
  execute_ddl (create_text name (column_names_and_types true df) (index_key <$> (f_index df).*1)) s =
    (inr tt, <[name := legacy_table df]> s).
Proof.
  intros Hs Hwf Hn Hnd Hid. pose proof (column_names_true df) as Hnames.
  rewrite <-(_index_name_named df Hn).
  assert (column_names_and_types true df <> []) as Hne.
  { intros Hnil. apply (record_names_ne df Hwf). by rewrite <-Hnames, Hnil. }
  rewrite execute_ddl_create_text by auto. unfold legacy_table. rewrite <-(_index_name_named df Hn).
  apply create_table_ok; [done|done|by rewrite Hnames|by rewrite Hnames; apply legacy_keys_sub].
Qed.

(** The legacy path's CREATE INDEX, once the table exists. *)
Lemma legacy_index_ok s name df :
  s !! name = None -> frame_wf df -> index_named df -> legacy_names_ok s name df ->
  execute_ddl (index_text name (_index_name df)) (<[name := legacy_table df]> s) =
    (inr tt, <[name := legacy_table df]> s).
Proof.
  intros Hs Hwf Hn (Hid & Hv & Hix). apply (execute_ddl_index_text _ _ (legacy_table df)).
  - by apply _index_name_ne.
  - by rewrite lookup_insert_eq.
  - by rewrite lookup_insert_ne by (apply not_eq_sym, index_name_ne).
  - rewrite legacy_table_names by done. apply legacy_keys_sub.
Qed.

(** On an absent table, with the index's name free, the CREATE TABLE
    and CREATE INDEX succeed and commit, then [table.insert()] runs on
    the store holding the new, empty table. *)
Lemma InsertOrReplaceRecords_legacy_created s name df :
  s !! name = None -> frame_wf df -> index_named df -> NoDup (record_names df) ->
  legacy_names_ok s name df ->
  InsertOrReplaceRecords name df s = sqlite_table_insert name df (<[name := legacy_table df]> s).
Proof.
  intros Hs Hwf Hn Hnd Hln. pose proof Hln as (Hid & Hv & Hix).
  assert (Hkeys : index_key <$> (f_index df).*1 = _index_name df) by (symmetry; by apply _index_name_named).
  rewrite InsertOrReplaceRecords_absent by (rewrite ?Hkeys; auto using _index_name_valid).
  rewrite bool_decide_eq_false_2 by (by apply _index_name_ne).
  rewrite (se_bind_ok _ _ s tt (<[name := legacy_table df]> s)); [done|].
  cbn [se_iter]. unfold se_bind. rewrite legacy_create_ok by done.
  by rewrite legacy_index_ok.
Qed.

(** On an absent table, with the index's name free, the CREATE TABLE
    and CREATE INDEX succeed and commit, then the plain INSERT of the
    records runs in a transaction of its own. *)
Lemma InsertOrReplaceRecords_legacy_run s name df :
  s !! name = None -> frame_wf df -> index_named df -> NoDup (record_names df) ->
  0 < frame_nrows df -> legacy_names_ok s name df ->
  InsertOrReplaceRecords name df s =
    run_transaction
      (executemany_stmt (InsertStmt Plain name (record_names df) (length (record_names df)))
         (frame_records df))
      (<[name := legacy_table df]> s).
Proof.
  intros Hs Hwf Hn Hnd Hrows Hln. rewrite InsertOrReplaceRecords_legacy_created by done.
  destruct Hln as (Hid & Hv & Hix).
  unfold sqlite_table_insert. se_unfold. rewrite insert_data_records by done.
  rewrite bool_decide_eq_false_2 by lia. cbn [fst snd].
  rewrite insert_statement_ok by auto using simple_ident_valid.
  unfold executemany. rewrite sql_parse_insert_text by auto using record_names_ne.
  by rewrite take_record_columns.
Qed.

Lemma legacy_batch_ok df :
  frame_wf df -> index_named df -> NoDup (record_names df) ->
  Forall (fun r => accepts (t_cols (legacy_table df)) (t_pk (legacy_table df)) r = true) (frame_records df) ->
  Forall (fun r => needs_rowid (legacy_table df) r = false) (frame_records df) ->
  batch_ok (legacy_table df) (record_names df) (frame_records df).
Proof. intros Hwf Hn Hnd Hacc Hrid. apply batch_ok_records; [done| |]; by rewrite legacy_batch_rows. Qed.

Lemma InsertOrReplaceRecords_legacy_ok s name df :
  s !! name = None -> frame_wf df -> index_named df -> NoDup (record_names df) ->
  0 < frame_nrows df -> legacy_names_ok s name df ->
  Forall (fun r => accepts (t_cols (legacy_table df)) (t_pk (legacy_table df)) r = true) (frame_records df) ->
  Forall (fun r => needs_rowid (legacy_table df) r = false) (frame_records df) ->
  keys_unique (legacy_table df) (frame_records df) ->
  InsertOrReplaceRecords name df s = (inr tt, <[name := set_rows (legacy_table df) (frame_records df)]> s).
Proof.
  intros Hs Hwf Hn Hnd Hrows Hln Hacc Hrid Hu. rewrite InsertOrReplaceRecords_legacy_run by done.
  apply run_transaction_inr. unfold executemany_stmt. se_unfold.
  rewrite (prepare_ok _ _ _ _ (legacy_table df)); [|by rewrite lookup_insert_eq|];
    [|rewrite legacy_table_names by done; by apply Forall_forall].
  change (bind_row (legacy_table df) (record_names df) <$> frame_records df)
    with (batch_rows (legacy_table df) df).
  rewrite (exec_rows_plain name (legacy_table df) (record_names df) _ []);
    [|by rewrite lookup_insert_eq|by apply legacy_batch_ok|];
    change (bind_row (legacy_table df) (record_names df) <$> frame_records df)
      with (batch_rows (legacy_table df) df); rewrite legacy_batch_rows by done; [|done].
  by rewrite insert_insert_eq.
Qed.

(** C8: legacy path with a repeated key.  When the frame is written to an
    absent table and two of its records have the same complete index
    key (and none has a NULL rowid alias), [InsertOrReplaceRecords] raises "UNIQUE constraint failed", but
    the CREATE TABLE, committed in its own transaction, stays: the store
    is left with the new, empty table. *)
Theorem InsertOrReplaceRecords_legacy_duplicate_keys s name df :
  s !! name = None -> frame_wf df -> index_named df -> NoDup (record_names df) ->
  0 < frame_nrows df -> legacy_names_ok s name df ->
  Forall (fun r => accepts (t_cols (legacy_table df)) (t_pk (legacy_table df)) r = true) (frame_records df) ->
  Forall (fun r => needs_rowid (legacy_table df) r = false) (frame_records df) ->
  ~ keys_unique (legacy_table df) (frame_records df) ->
  InsertOrReplaceRecords name df s =
    (inl (SqliteError (UniqueFailed name)), <[name := legacy_table df]> s).
Proof.
  intros Hs Hwf Hn Hnd Hrows Hln Hacc Hrid Hdup. rewrite InsertOrReplaceRecords_legacy_run by done.
  unfold run_transaction, executemany_stmt. se_unfold.
  rewrite (prepare_ok _ _ _ _ (legacy_table df)); [|by rewrite lookup_insert_eq|];
    [|rewrite legacy_table_names by done; by apply Forall_forall].
  destruct (exec_rows_plain_dup name (legacy_table df) (record_names df)
              (<[name := legacy_table df]> s) [] (frame_records df)) as [s' Hrun];
    [by rewrite lookup_insert_eq|by apply legacy_batch_ok|apply NoDup_nil_2| |by rewrite Hrun].
  change (bind_row (legacy_table df) (record_names df) <$> frame_records df)
    with (batch_rows (legacy_table df) df). by rewrite legacy_batch_rows.
Qed.

Lemma frame_column_types_names df :
  index_named df -> (frame_column_types df).*1 = record_names df.
Proof.
  intros Hn. unfold frame_column_types, record_names. rewrite _index_name_named by done.
  rewrite fmap_app, (fst_map_pair (fun s => s_dtype s)). f_equal. by rewrite <-!list_fmap_compose.
Qed.

Lemma frame_column_types_schema df :
  index_named df -> typed_by_dtype df ->
  (fun p => (p.1, _sql_type_name (Series p.2 []))) <$> frame_column_types df =
    column_names_and_types true df.
Proof.
  intros Hn [Hti Htc]. rewrite column_names_and_types_named by done.
  unfold frame_column_types. rewrite fmap_app, <-!list_fmap_compose.
  f_equal; apply list_fmap_ext; intros i p Hp; simpl; f_equal; symmetry;
    [exact (Forall_lookup_1 _ _ _ _ Hti Hp)|exact (Forall_lookup_1 _ _ _ _ Htc Hp)].
Qed.

(** C6: equivalence of the legacy path.  Writing a frame with a named
    index and distinct complete keys, none a NULL rowid alias, to an
    absent table directly gives
    the same result as first provisioning the table with the frame's own
    (column, dtype) pairs keyed by its index, then writing: both return
    and leave the same table, holding exactly the frame's records.  It
    needs every column to be typed by its dtype alone; an [object]
    column of numbers is TEXT in one table and INTEGER or REAL in the
    other. *)
Theorem InsertOrReplaceRecords_legacy_equivalence s name df :
  s !! name = None -> frame_wf df -> index_named df -> NoDup (record_names df) ->
  0 < frame_nrows df -> typed_by_dtype df ->
  simple_ident name = true -> Forall (fun c => simple_ident c = true) (record_names df) ->
  s !! index_name name (_index_name df) = None ->
  Forall (fun r => accepts (t_cols (legacy_table df)) (t_pk (legacy_table df)) r = true) (frame_records df) ->
  Forall (fun r => needs_rowid (legacy_table df) r = false) (frame_records df) ->
  keys_unique (legacy_table df) (frame_records df) ->
  InsertOrReplaceRecords name df s = (inr tt, <[name := set_rows (legacy_table df) (frame_records df)]> s) /\
  (do _ <- CreateTableIfNotExists name (frame_column_types df) (index_key <$> (f_index df).*1);
   InsertOrReplaceRecords name df)%se s =
    (inr tt, <[name := set_rows (legacy_table df) (frame_records df)]> s).
Proof.
  intros Hs Hwf Hn Hnd Hrows Hty Hname Hid Hix Hacc Hrid Hu.
  pose proof (simple_idents_valid _ Hid) as Hv.
  split; [apply InsertOrReplaceRecords_legacy_ok; try done; by split_and!|].
  pose proof (frame_column_types_names df Hn) as Hct.
  assert (Hsch : column_names_and_types false (_EmptyFrame (frame_column_types df)) =
                 column_names_and_types true df)
    by (rewrite empty_frame_schema by (by rewrite Hct); by apply frame_column_types_schema).
  pose proof (legacy_table_names df Hn) as Hnames. simpl in Hnames.
  unfold se_bind. rewrite CreateTableIfNotExists_absent; rewrite ?Hsch;
    [|done|by apply simple_ident_valid
     |rewrite Hct, <-(_index_name_named df Hn); apply Forall_app; split; [done|by apply _index_name_valid]
     |by right| | |].
  - change (Table (column_names_and_types true df) (index_key <$> (f_index df).*1) [])
      with (legacy_table df).
    rewrite (InsertOrReplaceRecords_existing _ name (legacy_table df));
      [|by rewrite lookup_insert_eq|done..| | |].
    + rewrite legacy_batch_rows, replace_all_unique, insert_insert_eq by done. done.
    + rewrite legacy_table_names by done. by apply Forall_forall.
    + by rewrite legacy_batch_rows.
    + by rewrite legacy_batch_rows.
  - intros Hnil. apply (record_names_ne df Hwf). by rewrite <-Hnames, Hnil.
  - by rewrite Hnames.
  - rewrite Hnames, <-_index_name_named by done. apply Forall_forall. intros k Hk.
    unfold record_names. set_solver.
Qed.

(** C12: the legacy path needs a named index, as the docstring assumes.
    For a frame with one unnamed index level, pandas names the index
    column "index" but writes the key as "None" (the [str] of the missing
    name), which is no column: the CREATE TABLE fails, and the call
    raises with nothing created or written. *)
Theorem InsertOrReplaceRecords_legacy_unnamed_index s name df sr :
  s !! name = None -> f_index df = [(None, sr)] ->
  NoDup ("index" :: (f_columns df).*1) -> "None" ∉ (f_columns df).*1 ->
  simple_ident name = true -> Forall (fun c => valid_name c = true) (f_columns df).*1 ->
  InsertOrReplaceRecords name df s = (inl (SqliteError (NoColumnNamed name "None")), s).
Proof.
  intros Hs Hidx Hnd Hnone Hid Hv. pose proof Hnd as [Hindex _]%NoDup_cons.
  assert (Hsch : (column_names_and_types true df).*1 = "index" :: (f_columns df).*1).
  { unfold column_names_and_types, _index_name. rewrite Hidx, decide_False by done.
    by rewrite fmap_app, (fst_map_pair (fun s => _sql_type_name s)). }
  assert (Hrec : Forall (fun c => valid_name c = true) (record_names df)).
  { unfold record_names, _index_name. rewrite Hidx, decide_False by done. by constructor. }
  rewrite InsertOrReplaceRecords_absent; [|done|done|done|rewrite Hidx; by repeat constructor].
  rewrite (se_bind_err _ _ s (SqliteError (NoColumnNamed name "None")) s); [done|].
  cbn [se_iter]. unfold se_bind at 1, execute_ddl at 1.
  rewrite ddl_parse_create_text; [|intros Hnil; by rewrite Hnil in Hsch|by right].
  unfold create_table, has_table. se_unfold. rewrite Hidx. cbn [fmap list_fmap fst index_key].
  rewrite bool_decide_eq_false_2 by (rewrite Hs; by intros []).
  rewrite bool_decide_eq_false_2 by (intros Hnil; by rewrite Hnil in Hsch).
  rewrite Hsch, (proj2 (first_dup_None _ _)) by (split; [done|apply Forall_forall; set_solver]).
  simpl. rewrite decide_False by set_solver. done.
Qed.

(** ** What pandas prints for a frame, SQLite reads back *)

(** C22: round trip of the legacy insert (lines 66-67).  For a frame
    whose record names are non-empty and free of NUL, the INSERT text
    pandas prints is parsed by SQLite as a plain INSERT into the table,
    on exactly the index labels then the data columns, in order, with one
    placeholder per column. *)
Theorem legacy_insert_statement_roundtrip name df :
  valid_name name = true -> frame_wf df -> Forall (fun c => valid_name c = true) (record_names df) ->
  exists sql, insert_statement name (record_names df) = inr sql /\
    sql_parse sql = Some (InsertStmt Plain name (record_names df) (length (record_names df))).
Proof. intros Hn Hwf Hv. apply insert_statement_roundtrip; auto using record_names_ne. Qed.

(** ** Names pandas cannot write *)

Lemma valid_name_blank a b :
  simple_ident a = true -> all_word b = true -> valid_name (a +:+ " " +:+ b) = true.
Proof.
  intros Ha Hb. unfold valid_name. rewrite andb_true_iff, negb_true_iff, bool_decide_eq_true, !has_nul_app.
  split; [by destruct a|].
  by rewrite (valid_name_nul a), (all_word_no_nul b) by auto using simple_ident_valid.
Qed.

(** A column added under a new name goes last. *)
Lemma empty_frame_schema_snoc ct c dt :
  c ∉ ct.*1 ->
  column_names_and_types false (_EmptyFrame (ct ++ [(c, dt)])) =
    column_names_and_types false (_EmptyFrame ct) ++ [(c, _sql_type_name (Series dt []))].
Proof.
  intros Hc. rewrite _EmptyFrame_snoc. unfold column_names_and_types, frame_setitem. cbn [f_columns app].
  rewrite assoc_set_notin, fmap_app; [done|].
  intros Hin. apply Hc. pose proof (_EmptyFrame_names ct) as Hsub. rewrite Forall_forall in Hsub. by apply Hsub.
Qed.

(** C23: a table name with a blank cannot be provisioned with a key.
    pandas quotes the table name but writes it bare in the constraint
    name [<name>_pk]; for [a b], SQLite reads the constraint name as [a]
    followed by the stray word [b_pk], and the CREATE TABLE is a syntax
    error.  [CreateTableIfNotExists] raises, and the store is
    unchanged. *)
Theorem CreateTableIfNotExists_blank_name s a b ct keys :
  simple_ident a = true -> all_word b = true -> s !! (a +:+ " " +:+ b) = None ->
  ct <> [] -> Forall (fun c => valid_name c = true) (ct.*1 ++ keys) -> keys <> [] ->
  CreateTableIfNotExists (a +:+ " " +:+ b) ct keys s = (inl (SqliteError SyntaxError), s).
Proof.
  intros Ha Hb Hs Hne Hv Hk. unfold CreateTableIfNotExists, sqlite_table_create, has_table.
  rewrite empty_frame_setup by auto using valid_name_blank.
  se_unfold. rewrite bool_decide_eq_false_2 by (rewrite Hs; by intros []).
  cbn [se_iter]. unfold se_bind, execute_ddl.
  rewrite ddl_parse_create_text_blank; [done|done|done| |done].
  cbn [column_names_and_types app]. intros Hnil%fmap_nil_inv. by apply (_EmptyFrame_nonempty ct).
Qed.

(** C24: an empty column name raises, even when the table exists.
    [_get_valid_sqlite_name] runs while the [SQLiteTable] is built, before
    [exists()] is asked, so [CreateTableIfNotExists] with a column named
    by the empty string raises [ValueError] whatever the store holds, and
    changes nothing. *)
Theorem CreateTableIfNotExists_empty_column s name ct dt keys :
  Forall (fun c => valid_name c = true) ct.*1 ->
  CreateTableIfNotExists name (ct ++ [(EmptyString, dt)]) keys s = (inl EmptyNameError, s).
Proof.
  intros Hv. unfold CreateTableIfNotExists, sqlite_table_create.
  rewrite empty_frame_schema_snoc by (rewrite Forall_forall in Hv; by intros ?%Hv).
  se_unfold. unfold _create_table_setup. rewrite (mapM_sum_first_inl _ _ _ [] EmptyNameError); [done| |done].
  pose proof (empty_frame_names_valid ct Hv) as Hc. eapply Forall_impl; [exact Hc|].
  intros c Hc'. rewrite _get_valid_sqlite_name_ok by done. by eexists.
Qed.

(** C25: the legacy path fails when a table has the index's name, and
    leaves its table behind.  On an absent table, pandas runs CREATE
    TABLE, then CREATE INDEX [ix_<name>_<index labels>]; when a table
    already has that name, the CREATE INDEX fails ([there is already a
    table named ...]) and the call raises, but the CREATE TABLE was
    committed when it ran: the store keeps the new, empty table and
    nothing else changes. *)
Theorem InsertOrReplaceRecords_legacy_index_clash s name df t :
  s !! name = None -> frame_wf df -> index_named df -> NoDup (record_names df) ->
  simple_ident name = true -> Forall (fun c => valid_name c = true) (record_names df) ->
  s !! ("ix_" +:+ name +:+ "_" +:+ String.concat "_" (_index_name df)) = Some t ->
  InsertOrReplaceRecords name df s =
    (inl (SqliteError (TableNamed ("ix_" +:+ name +:+ "_" +:+ String.concat "_" (_index_name df)))),
     <[name := legacy_table df]> s).
Proof.
  intros Hs Hwf Hn Hnd Hid Hv Ht. pose proof (column_names_true df) as Hnames.
  assert (Hkeys : index_key <$> (f_index df).*1 = _index_name df) by (symmetry; by apply _index_name_named).
  rewrite InsertOrReplaceRecords_absent by (rewrite ?Hkeys; auto using _index_name_valid).
  rewrite bool_decide_eq_false_2 by (by apply _index_name_ne). unfold legacy_table.
  rewrite (se_bind_err _ _ s (SqliteError (TableNamed (index_name name (_index_name df))))
            (<[name := Table (column_names_and_types true df) (_index_name df) []]> s)); rewrite Hkeys; [done|]. apply (execute_ddl_index_taken _ _ _ _ _ t); [done| |by rewrite Hnames|
    by rewrite Hnames; apply legacy_keys_sub|by right|by apply _index_name_ne|exact Ht].
  intros Hnil. apply (record_names_ne df Hwf). by rewrite <-Hnames, Hnil.
Qed.

(** C26: a frame written once cannot be written again.  When a frame
    has a column [a b] (a blank between two bare words) and the legacy
    path writes it to an absent table, pandas quotes every name: the
    table is created and the records written.  The same call again takes
    the existing-table path, whose statement names the column bare:
    SQLite reads [a b] as two words, the statement is a syntax error,
    and the call raises with the store as the first call left it. *)
Theorem spaced_column_written_once s name df pre a b post :
  s !! name = None -> frame_wf df -> index_named df -> NoDup (record_names df) ->
  0 < frame_nrows df -> legacy_names_ok s name df ->
  Forall (fun r => accepts (t_cols (legacy_table df)) (t_pk (legacy_table df)) r = true) (frame_records df) ->
  Forall (fun r => needs_rowid (legacy_table df) r = false) (frame_records df) ->
  keys_unique (legacy_table df) (frame_records df) ->
  record_names df = pre ++ (a +:+ " " +:+ b) :: post ->
  Forall (fun c => simple_ident c = true) pre -> simple_ident a = true -> simple_ident b = true ->
  InsertOrReplaceRecords name df s = (inr tt, <[name := set_rows (legacy_table df) (frame_records df)]> s) /\
  InsertOrReplaceRecords name df (<[name := set_rows (legacy_table df) (frame_records df)]> s) =
    (inl (SqliteError SyntaxError), <[name := set_rows (legacy_table df) (frame_records df)]> s).
Proof.
  intros Hs Hwf Hn Hnd Hrows Hln Hacc Hrid Hu Hrec Hpre Ha Hb.
  split; [by apply InsertOrReplaceRecords_legacy_ok|]. destruct Hln as (Hid & Hv & _).
  rewrite (InsertOrReplaceRecords_existing_sql _ name (set_rows (legacy_table df) (frame_records df)));
    [|by rewrite lookup_insert_eq|done|by apply simple_ident_valid|done].
  unfold executemany. by rewrite Hrec, sql_parse_blank_column.
Qed.

End Facts.

(** ** Witnesses: the theorems at the scenario's data *)

Section Witnesses.

Lemma InsertOrReplaceRecords_upsert_witness :
  exists t', InsertOrReplaceRecords "scores" batch2 after_batch1 = (inr tt, <["scores" := t']> after_batch1) /\
    t_cols t' = t_cols scores_table /\ t_pk t' = t_pk scores_table /\
    rows_with_key scores_table [VInt 1] (t_rows t') =
      match last (filter (fun r => key_of scores_table r = [VInt 1])
                    (batch_rows (set_rows scores_table [[VInt 1; VText "a"; VReal (1#2)%Q]]) batch2)) with
      | Some r => [r]
      | None => rows_with_key scores_table [VInt 1] [[VInt 1; VText "a"; VReal (1#2)%Q]]
      end.
Proof.
  apply (InsertOrReplaceRecords_upsert after_batch1 "scores"
           (set_rows scores_table [[VInt 1; VText "a"; VReal (1#2)%Q]]) batch2 [VInt 1]);
    first [reflexivity | decide_concrete | discriminate].
Defined.

Lemma InsertOrReplaceRecords_atomic_witness :
  @InsertOrReplaceRecords rowid_engine "scores" batch_mixed after_batch1 =
    (inl (SqliteError DatatypeMismatch), after_batch1).
Proof.
  apply (@InsertOrReplaceRecords_atomic rowid_engine after_batch1 "scores"
           (set_rows scores_table [[VInt 1; VText "a"; VReal (1#2)%Q]]) batch_mixed);
    first [reflexivity | decide_concrete].
Defined.

Lemma InsertOrReplaceRecords_unknown_column_witness :
  exists c, c ∈ record_names batch_note /\ (c ∉ (t_cols scores_table).*1) /\
    InsertOrReplaceRecords "scores" batch_note after_batch1 =
      (inl (SqliteError (NoColumnNamed "scores" c)), after_batch1).
Proof.
  apply (InsertOrReplaceRecords_unknown_column after_batch1 "scores"
           (set_rows scores_table [[VInt 1; VText "a"; VReal (1#2)%Q]]) batch_note);
    first [reflexivity | decide_concrete].
Defined.

Lemma InsertOrReplaceRecords_unkeyed_appends_witness :
  InsertOrReplaceRecords "log" batch1 after_log =
    (inr tt, <["log" := set_rows log_table
                 ([[VInt 1; VText "a"; VReal (1#2)%Q]]
                  ++ batch_rows (set_rows log_table [[VInt 1; VText "a"; VReal (1#2)%Q]]) batch1)]>
               after_log).
Proof.
  apply (InsertOrReplaceRecords_unkeyed_appends after_log "log"
           (set_rows log_table [[VInt 1; VText "a"; VReal (1#2)%Q]]) batch1);
    first [reflexivity | decide_concrete].
Defined.

Lemma InsertOrReplaceRecords_disjoint_union_witness :
  InsertOrReplaceRecords "scores" batch34 after_batch12 =
    (inr tt, <["scores" := set_rows scores_table
                 [[VInt 1; VText "a"; VReal (1#2)%Q]; [VInt 2; VText "b"; VReal (1#10)%Q];
                  [VInt 3; VText "c"; VReal (3#10)%Q]; [VInt 4; VText "d"; VReal (2#5)%Q]]]> after_batch12).
Proof.
  apply (InsertOrReplaceRecords_disjoint_union after_batch12 "scores"
           (set_rows scores_table
              [[VInt 1; VText "a"; VReal (1#2)%Q]; [VInt 2; VText "b"; VReal (1#10)%Q]]) batch34);
    first [reflexivity | decide_concrete].
Defined.

Lemma InsertOrReplaceRecords_rowid_witness :
  InsertOrReplaceRecords "scores" batch3 after_batch1 =
    (inr tt, <["scores" := set_rows scores_table
                 [[VInt 1; VText "a"; VReal (1#2)%Q]; [VInt 2; VText "c"; VReal (1#4)%Q]]]> after_batch1).
Proof.
  apply (InsertOrReplaceRecords_rowid after_batch1 "scores"
           (set_rows scores_table [[VInt 1; VText "a"; VReal (1#2)%Q]]) batch3 [VNull; VText "c"; VReal (1#4)%Q] 0);
    first [reflexivity | decide_concrete | vm_compute; congruence].
Defined.

Lemma InsertOrReplaceRecords_replaces_whole_row_witness :
  exists t' r, InsertOrReplaceRecords "scores" batch_name_only after_batch1 =
                 (inr tt, <["scores" := t']> after_batch1) /\
    rows_with_key scores_table [VInt 1] (t_rows t') = [r] /\
    forall c, c ∉ record_names batch_name_only -> cell scores_table r c = VNull.
Proof.
  apply (InsertOrReplaceRecords_replaces_whole_row after_batch1 "scores"
           (set_rows scores_table [[VInt 1; VText "a"; VReal (1#2)%Q]]) batch_name_only [VInt 1]);
    first [reflexivity | decide_concrete | discriminate].
Defined.

Lemma CreateTableIfNotExists_creates_witness :
  CreateTableIfNotExists "scores" scores_schema ["id"] ∅ =
    (inr tt, <["scores" := Table ((fun p => (p.1, _sql_type_name (Series p.2 []))) <$> scores_schema)
                             ["id"] []]> ∅).
Proof.
  apply CreateTableIfNotExists_creates; first [reflexivity | decide_concrete | discriminate].
Defined.

Lemma CreateTableIfNotExists_idempotent_witness :
  CreateTableIfNotExists "scores" [("other", Bool)] []
    (snd (CreateTableIfNotExists "scores" scores_schema ["id"] ∅)) =
  (inr tt, snd (CreateTableIfNotExists "scores" scores_schema ["id"] ∅)).
Proof.
  apply (CreateTableIfNotExists_idempotent ∅ _ "scores" scores_schema ["id"]);
    [repeat constructor|vm_compute; reflexivity].
Defined.


Lemma InsertOrReplaceRecords_legacy_equivalence_witness :
  InsertOrReplaceRecords "scores" batch2 ∅ =
    (inr tt, <["scores" := set_rows (legacy_table batch2) (frame_records batch2)]> ∅) /\
  (do _ <- CreateTableIfNotExists "scores" (frame_column_types batch2) (index_key <$> (f_index batch2).*1);
   InsertOrReplaceRecords "scores" batch2)%se ∅ =
    (inr tt, <["scores" := set_rows (legacy_table batch2) (frame_records batch2)]> ∅).
Proof.
  apply InsertOrReplaceRecords_legacy_equivalence; first [reflexivity | decide_concrete | lia].
Defined.

Lemma InsertOrReplaceRecords_legacy_duplicate_keys_witness :
  InsertOrReplaceRecords "scores" batch_dup ∅ =
    (inl (SqliteError (UniqueFailed "scores")), <["scores" := legacy_table batch_dup]> ∅).
Proof.
  apply InsertOrReplaceRecords_legacy_duplicate_keys; first [reflexivity | decide_concrete | lia].
Defined.

Lemma InsertOrReplaceRecords_legacy_unnamed_index_witness :
  InsertOrReplaceRecords "t" unnamed_frame ∅ = (inl (SqliteError (NoColumnNamed "t" "None")), ∅).
Proof.
  apply (InsertOrReplaceRecords_legacy_unnamed_index ∅ "t" unnamed_frame (Series Int64 [VInt 0]));
    first [reflexivity | decide_concrete].
Defined.

Lemma legacy_insert_statement_roundtrip_witness :
  exists sql, insert_statement "my table" (record_names batch_spaced) = inr sql /\
    sql_parse sql = Some (InsertStmt Plain "my table" (record_names batch_spaced)
                            (length (record_names batch_spaced))).
Proof. apply legacy_insert_statement_roundtrip; decide_concrete. Defined.

Lemma CreateTableIfNotExists_blank_name_witness :
  CreateTableIfNotExists ("my" +:+ " " +:+ "scores") scores_schema ["id"] ∅ =
    (inl (SqliteError SyntaxError), ∅).
Proof. apply CreateTableIfNotExists_blank_name; first [reflexivity | decide_concrete]. Defined.

Lemma spaced_column_written_once_witness :
  InsertOrReplaceRecords "scores" batch_spaced ∅ =
    (inr tt, <["scores" := set_rows (legacy_table batch_spaced) (frame_records batch_spaced)]> ∅) /\
  InsertOrReplaceRecords "scores" batch_spaced
    (<["scores" := set_rows (legacy_table batch_spaced) (frame_records batch_spaced)]> ∅) =
    (inl (SqliteError SyntaxError),
     <["scores" := set_rows (legacy_table batch_spaced) (frame_records batch_spaced)]> ∅).
Proof.
  apply (spaced_column_written_once ∅ "scores" batch_spaced ["id"] "my" "score" []);
    first [reflexivity | decide_concrete | lia].
Defined.

Lemma CreateTableIfNotExists_empty_column_witness :
  CreateTableIfNotExists "scores" (scores_schema ++ [(EmptyString, Float64)]) ["id"] after_batch1 =
    (inl EmptyNameError, after_batch1).
Proof. apply CreateTableIfNotExists_empty_column; decide_concrete. Defined.

Lemma InsertOrReplaceRecords_legacy_index_clash_witness :
  InsertOrReplaceRecords "scores" batch1 ix_taken =
    (inl (SqliteError (TableNamed ("ix_" +:+ "scores" +:+ "_" +:+ String.concat "_" (_index_name batch1)))),
     <["scores" := legacy_table batch1]> ix_taken).
Proof.
  apply (InsertOrReplaceRecords_legacy_index_clash ix_taken "scores" batch1 log_table);
    first [reflexivity | decide_concrete].
Defined.
End Witnesses.
End PandasSqlite.
