(* ===== verification/Race.v ===== *)
(** Concurrent callers of the helper on one store.

    Each call of [pandas_sqlite.py] is a sequence of store operations,
    and two callers sharing a store interleave them.  A caller is a
    [thread]: the call and its program point, the next store operation
    it issues.  The points are the code's own:

    - [CreateTableIfNotExists] (lines 27-31): the [SQLiteTable] prints
      its statements, then [table.create()] asks the catalog whether the
      table exists ([CStart]), then [_execute_create] runs its CREATE
      statements one by one ([CCreate k]: statement [k] next);
    - [InsertOrReplaceRecords] (lines 53-67): the catalog query of line 54
      ([WStart]); on the existing-table path the transaction of lines
      59-60 ([WWrite]); on the legacy path the [exists()] query of
      [table.create()] ([WCheck]), its CREATE TABLE and CREATE INDEX
      ([WCreate k]: statement [k] next) and the [table.insert()] of line
      67 ([WInsert]).

    Every operation is atomic: SQLite runs one statement, or one
    transaction, at a time.  sqlite3 commits each CREATE as it runs, so
    the CREATE statements of one call are separate operations, and
    another caller may run between the CREATE TABLE and the CREATE
    INDEX.  A [world] is the store, the threads and the trace of the
    operations run so far; [step] runs the next operation of any one
    thread.  The theorems: a caller about to run the existing-table
    transaction always finds its table, whatever ran since its check;
    two provisioners, or two legacy writers, of one absent table that
    both pass the [exists()] check race, and the loser's CREATE TABLE
    raises "table already exists". *)

From S2P Require Import Prelude Values Frame Statement Ddl Store PandasSqlite.
Import Frame Statement Ddl Store PandasSqlite.

Module Race.

(** Program points of [CreateTableIfNotExists]. *)
Inductive create_pc :=
  | CStart              (* [table.create()]: [self.exists()] next *)
  | CCreate (k : nat).  (* the table was absent: statement [k] of [_execute_create] next *)

(** Program points of [InsertOrReplaceRecords]. *)
Inductive write_pc :=
  | WStart              (* line 54: [db.has_table(name)] next *)
  | WWrite              (* the table existed: lines 55-60, one transaction, next *)
  | WCheck              (* the table was absent: [table.create()]'s [self.exists()] next *)
  | WCreate (k : nat)   (* still absent: statement [k] of [_execute_create] next *)
  | WInsert.            (* created: [table.insert()] of line 67 next *)

(** A caller: a call at one of its program points, or a call that has
    returned or raised. *)
Inductive thread :=
  | TCreate (name : string) (column_types : list (string * dtype)) (keys : list string)
      (pc : create_pc)
  | TWrite (name : string) (df : frame) (pc : write_pc)
  | TDone (r : exn + unit).

Abbreviation store := (gmap string table).

Section Threads.
Context `{!Engine}.

(** The arguments [SQLiteTable] derives for the CREATE TABLE of each
    call: lines 27-30 for the provisioner, lines 63-65 for the legacy
    path. *)
Definition provisioned_schema (column_types : list (string * dtype)) : list (string * sql_type) :=
  column_names_and_types false (_EmptyFrame column_types).

Definition legacy_schema (df : frame) : list (string * sql_type) := column_names_and_types true df.

Definition legacy_keys (df : frame) : list string := index_key <$> (f_index df).*1.

(** Statement [k] of [_execute_create]'s loop [for stmt in self.table:
    conn.execute(stmt)]; each one commits as it runs.  [more] is true when
    a statement follows. *)
Definition execute_create_at (stmts : list string) (k : nat) : SE store exn bool :=
  match stmts !! k with
  | Some st => (do _ <- execute_ddl st; ret (bool_decide (S k < length stmts)))%se
  | None => ret false
  end%se.

(** The next store operation of a thread and the point it leads to; a
    returned call has none. *)
Definition op (t : thread) : option (SE store exn thread) :=
  match t with
  | TCreate name ct keys CStart =>
      Some (do _ <- se_lift (_create_table_setup name (provisioned_schema ct) keys []);
            do s <- se_get;
            ret (if has_table s name then TDone (inr tt) else TCreate name ct keys (CCreate 0)))%se
  | TCreate name ct keys (CCreate k) =>
      Some (do stmts <- se_lift (_create_table_setup name (provisioned_schema ct) keys []);
            do more <- execute_create_at stmts k;
            ret (if more then TCreate name ct keys (CCreate (S k)) else TDone (inr tt)))%se
  | TWrite name df WStart =>
      Some (do s <- se_get;
            ret (if has_table s name then TWrite name df WWrite else TWrite name df WCheck))%se
  | TWrite name df WWrite =>
      Some (do _ <- se_lift (_create_table_setup name (legacy_schema df) [] (_index_name df));
            do kd <- se_lift (insert_data df);
            let insert_statement := _InsertOrReplaceStatement name kd.1 in
            do _ <- run_transaction (executemany insert_statement (zip_columns kd.2));
            ret (TDone (inr tt)))%se
  | TWrite name df WCheck =>
      Some (do _ <- se_lift (_create_table_setup name (legacy_schema df) (legacy_keys df) (_index_name df));
            do s <- se_get;
            if has_table s name then throw (TableExistsError name)
            else ret (TWrite name df (WCreate 0)))%se
  | TWrite name df (WCreate k) =>
      Some (do stmts <- se_lift (_create_table_setup name (legacy_schema df) (legacy_keys df)
                                   (_index_name df));
            do more <- execute_create_at stmts k;
            ret (TWrite name df (if more then WCreate (S k) else WInsert)))%se
  | TWrite name df WInsert =>
      Some (do _ <- sqlite_table_insert name df; ret (TDone (inr tt)))%se
  | TDone _ => None
  end.

(** Running an operation: an exception ends the call. *)
Definition run_op (m : SE store exn thread) (s : store) : thread * store * bool :=
  match m s with
  | (inl e, s') => (TDone (inl e), s', false)
  | (inr t', s') => (t', s', true)
  end.

(** ** Interleavings *)

(** An entry of the trace: which thread ran, from which point, and
    whether its operation succeeded. *)
Definition event : Type := nat * thread * bool.

Record world := World {
  w_store : store;
  w_threads : list thread;
  w_trace : list event
}.

(** Thread [i] runs its next operation. *)
Definition step_at (i : nat) (w : world) : option world :=
  match w_threads w !! i with
  | None => None
  | Some t =>
      match op t with
      | None => None
      | Some m =>
          let '(t', s', ok) := run_op m (w_store w) in
          Some (World s' (<[i := t']> (w_threads w)) (w_trace w ++ [(i, t, ok)]))
      end
  end.

Inductive step : world -> world -> Prop :=
  | step_thread i w w' : step_at i w = Some w' -> step w w'.

(** A schedule: the threads in the order they run; a thread that has
    returned is skipped. *)
Fixpoint run_schedule (sched : list nat) (w : world) : world :=
  match sched with
  | [] => w
  | i :: sched' =>
      match step_at i w with
      | Some w' => run_schedule sched' w'
      | None => run_schedule sched' w
      end
  end.

(** A world where every call is about to start and nothing ran yet. *)
Definition at_start (t : thread) : bool :=
  match t with
  | TCreate _ _ _ CStart | TWrite _ _ WStart => true
  | _ => false
  end.

Definition initial (w : world) : Prop := Forall (fun t => at_start t = true) (w_threads w) /\ w_trace w = [].

(** ** Two callers of the scenario racing *)

(** Two provisioners of the scores table on an empty store. *)
Definition provisioners_race : world :=
  World ∅ [TCreate "scores" scores_schema ["id"] CStart; TCreate "scores" scores_schema ["id"] CStart] [].

(** Two legacy writers of the scores table on an empty store. *)
Definition legacy_race : world :=
  World ∅ [TWrite "scores" batch1 WStart; TWrite "scores" batch2 WStart] [].

(** Two writers of the provisioned scores table. *)
Definition upsert_race : world :=
  World after_batch1 [TWrite "scores" batch2 WStart; TWrite "scores" batch3 WStart] [].

End Threads.

(** ** Steps of a world *)

Section Steps.
Context `{!Engine}.

Lemma step_inv w w' : step w w' ->
  exists i t m t' s' ok, w_threads w !! i = Some t /\ op t = Some m /\
    run_op m (w_store w) = (t', s', ok) /\
    w' = World s' (<[i := t']> (w_threads w)) (w_trace w ++ [(i, t, ok)]).
Proof.
  intros [i w0 w1 Hs]. unfold step_at in Hs.
  destruct (w_threads w0 !! i) as [t|] eqn:Ht; [|discriminate].
  destruct (op t) as [m|] eqn:Hm; [|discriminate].
  destruct (run_op m (w_store w0)) as [[t' s'] ok] eqn:Hr. injection Hs as <-. eauto 10.
Qed.

(** Thread [i] at [t] runs operation [m] of [t]. *)
Lemma step_at_run i w t m t' s' ok :
  w_threads w !! i = Some t -> op t = Some m -> run_op m (w_store w) = (t', s', ok) ->
  step_at i w = Some (World s' (<[i := t']> (w_threads w)) (w_trace w ++ [(i, t, ok)])).
Proof. intros Ht Hm Hr. unfold step_at. by rewrite Ht, Hm, Hr. Qed.

Lemma run_op_state m s t' s' ok : run_op m s = (t', s', ok) -> exists r, m s = (r, s').
Proof. unfold run_op. destruct (m s) as [[e|a] s0]; intros [= _ <- _]; eauto. Qed.

(** A successful operation either leaves the call at its next point or
    ends it without an exception; a failed one ends it with one. *)
Lemma run_op_ok m s t' s' ok : run_op m s = (t', s', ok) ->
  (ok = true /\ m s = (inr t', s')) \/ (ok = false /\ exists e, t' = TDone (inl e) /\ m s = (inl e, s')).
Proof. unfold run_op. destruct (m s) as [[e|a] s0]; intros [= <- <- <-]; eauto. Qed.

Lemma run_op_bind {A} (m : SE store exn A) (k : A -> SE store exn thread) s :
  run_op (do a <- m; k a)%se s =
    match m s with (inl e, s') => (TDone (inl e), s', false) | (inr a, s') => run_op (k a) s' end.
Proof. unfold run_op; se_unfold. by destruct (m s) as [[e|a] s']. Qed.

(** A statement of the CREATE loop runs the statement. *)
Lemma execute_create_at_run stmts k st s :
  stmts !! k = Some st ->
  execute_create_at stmts k s =
    match execute_ddl st s with
    | (inl e, s') => (inl e, s')
    | (inr _, s') => (inr (bool_decide (S k < length stmts)), s')
    end.
Proof. intros Hk. unfold execute_create_at. rewrite Hk. se_unfold. by destruct (execute_ddl st s) as [[] ?]. Qed.

Lemma execute_create_at_preserve (P : store -> Prop) stmts k s r s' :
  (forall name cols pk s0 r0 s1, P s0 -> create_table name cols pk s0 = (r0, s1) -> P s1) ->
  P s -> execute_create_at stmts k s = (r, s') -> P s'.
Proof.
  intros Hc Hs. unfold execute_create_at. destruct (stmts !! k) as [st|]; se_unfold; [|by intros [= _ <-]].
  destruct (execute_ddl st s) as [[e|u] s0] eqn:Hst; intros [= _ <-];
    (eapply execute_ddl_preserve; [|exact Hs|exact Hst]); eauto.
Qed.

Section OpPreserve.
  Context (P : store -> Prop).
  Hypothesis exec_row_P : forall st params s r s', P s -> exec_row st params s = (r, s') -> P s'.
  Hypothesis create_table_P :
    forall name cols pk s r s', P s -> create_table name cols pk s = (r, s') -> P s'.

(** Every operation of every thread keeps a property of the store that
    each executed row and each CREATE TABLE keep. *)
Lemma op_preserve t m s t' s' ok : op t = Some m -> P s -> run_op m s = (t', s', ok) -> P s'.
Proof.
  intros Hop Hs Hrun. apply run_op_state in Hrun as [r Hm]. revert Hm.
  destruct t as [name ct keys []|name df []|?]; try discriminate Hop; injection Hop as <-; se_unfold.
  - destruct (_create_table_setup _ _ _ _); by intros [= _ <-].
  - destruct (_create_table_setup _ _ _ _) as [e|stmts]; [by intros [= _ <-]|].
    destruct (execute_create_at stmts _ s) as [[e|u] s0] eqn:Hc; intros [= _ <-];
      (eapply execute_create_at_preserve; [|exact Hs|exact Hc]); eauto.
  - by intros [= _ <-].
  - destruct (_create_table_setup _ _ _ _) as [e|?]; [by intros [= _ <-]|].
    destruct (insert_data df) as [e|kd]; [by intros [= _ <-]|].
    destruct (run_transaction _ s) as [[e|u] s0] eqn:Hc; intros [= _ <-];
      (eapply run_transaction_preserve; [|exact Hs|exact Hc]);
      intros; (eapply executemany_preserve; [|exact Hs|eassumption]); eauto.
  - destruct (_create_table_setup _ _ _ _); [by intros [= _ <-]|].
    by destruct (has_table s name); intros [= _ <-].
  - destruct (_create_table_setup _ _ _ _) as [e|stmts]; [by intros [= _ <-]|].
    destruct (execute_create_at stmts _ s) as [[e|u] s0] eqn:Hc; intros [= _ <-];
      (eapply execute_create_at_preserve; [|exact Hs|exact Hc]); eauto.
  - destruct (sqlite_table_insert name df s) as [[e|u] s0] eqn:Hc; intros [= _ <-];
      eapply sqlite_table_insert_preserve; eauto.
Qed.

Lemma rtc_step_preserve w w' : rtc step w w' -> P (w_store w) -> P (w_store w').
Proof.
  induction 1 as [w|w1 w2 w3 Hs _ IH]; [done|]. intros HP. apply IH.
  apply step_inv in Hs as (i & t & m & t' & s' & ok & _ & Hop & Hrun & ->).
  by eapply op_preserve.
Qed.
End OpPreserve.

(** Each step keeps every table with its columns and key. *)
Lemma step_schema w w' : step w w' -> schema_kept (w_store w) (w_store w').
Proof.
  intros Hs. apply (rtc_step_preserve (schema_kept (w_store w)) ) with w; [| |by apply rtc_once|apply schema_kept_refl].
  - intros st params s r s' Hk Hr. eapply schema_kept_trans; [exact Hk|by eapply exec_row_schema].
  - intros name cols pk s r s' Hk Hr. eapply schema_kept_trans; [exact Hk|by eapply create_table_schema].
Qed.

Lemma has_table_kept s s' name : schema_kept s s' -> has_table s name = true -> has_table s' name = true.
Proof.
  unfold has_table. rewrite !bool_decide_eq_true. intros Hk [t Ht].
  destruct (Hk name t Ht) as (t' & -> & _). by eexists.
Qed.

(** The only operation that leads to the existing-table transaction is
    the catalog query of line 54, and it saw the table. *)
Lemma op_to_write t m s name df s' ok :
  op t = Some m -> run_op m s = (TWrite name df WWrite, s', ok) ->
  t = TWrite name df WStart /\ has_table s name = true /\ s' = s.
Proof.
  intros Hop Hrun. apply run_op_ok in Hrun as [[-> Hm]|[_ (e & ? & _)]]; [|done]. revert Hm.
  destruct t as [? ? ? []|? ? []|?]; try discriminate Hop; injection Hop as <-; se_unfold;
    repeat case_match; intros; simplify_eq; auto.
Qed.

Lemma writers_step w w' : step w w' ->
  (forall i name df, w_threads w !! i = Some (TWrite name df WWrite) -> has_table (w_store w) name = true) ->
  forall i name df, w_threads w' !! i = Some (TWrite name df WWrite) -> has_table (w_store w') name = true.
Proof.
  intros Hst Hinv i name df Hi. pose proof (step_schema _ _ Hst) as Hk.
  apply step_inv in Hst as (j & t & m & t' & s' & ok & Hj & Hop & Hrun & ->). simpl in *.
  apply list_lookup_insert_Some in Hi as [(<- & -> & _)|(_ & Hi)].
  - by destruct (op_to_write _ _ _ _ _ _ _ Hop Hrun) as (_ & ? & ->).
  - eapply has_table_kept; eauto.
Qed.

Lemma rtc_step_inv (Inv : world -> Prop) w w' :
  (forall w1 w2, step w1 w2 -> Inv w1 -> Inv w2) -> rtc step w w' -> Inv w -> Inv w'.
Proof. intros Hstep Hr. induction Hr; eauto. Qed.

Lemma initial_not_at (w : world) i t : initial w -> w_threads w !! i = Some t -> at_start t = true.
Proof. intros [Hstart _] Hi. rewrite Forall_lookup in Hstart. eauto. Qed.

(** Thread [i] at [t] takes its next step; what the operation computes
    is left to rewrite. *)
Lemma step_at_op i w t m :
  w_threads w !! i = Some t -> op t = Some m ->
  step_at i w = let '(t', s', ok) := run_op m (w_store w) in
                Some (World s' (<[i := t']> (w_threads w)) (w_trace w ++ [(i, t, ok)])).
Proof. intros Ht Hm. unfold step_at. by rewrite Ht, Hm. Qed.

Lemma run_schedule_rtc sched w : rtc step w (run_schedule sched w).
Proof.
  revert w. induction sched as [|i sched IH]; intros w; simpl; [done|].
  destruct (step_at i w) as [w'|] eqn:Hs; [|done]. eapply rtc_l; [by econstructor|apply IH].
Qed.

End Steps.

(** ** The theorems of the race model *)

Section Claims.
Context `{!Engine}.

(** C18: the check of line 54 and the transaction of lines 59-60 are not
    atomic, yet a caller about to run the transaction always finds its
    table: whatever the other callers did in between, no table is ever
    dropped. *)
Theorem existing_path_table_present w0 w i name df :
  initial w0 -> rtc step w0 w -> w_threads w !! i = Some (TWrite name df WWrite) ->
  has_table (w_store w) name = true.
Proof.
  intros Hinit Hr. revert i name df.
  apply (rtc_step_inv (fun w => forall i name df, w_threads w !! i = Some (TWrite name df WWrite) ->
                                  has_table (w_store w) name = true) w0); [|done|].
  - intros w1 w2 Hs. by apply writers_step.
  - intros i name df Hi. by pose proof (initial_not_at _ _ _ Hinit Hi).
Qed.

(** One step of a schedule on a world with explicit threads. *)
Ltac race_step :=
  cbn [run_schedule]; erewrite step_at_op by reflexivity;
  cbn [w_store w_threads w_trace]; unfold run_op, execute_create_at; se_unfold.

(** C17: [CreateTableIfNotExists] is not idempotent under a race: when
    two callers provision the same absent table and both pass the
    [exists()] check before either creates it, the first creates the
    table and the second raises "table already exists" (spec section
    4.1 says provisioning an existing table never raises). *)
Theorem CreateTableIfNotExists_race s name ct1 keys1 ct2 keys2 s1 :
  has_table s name = false -> CreateTableIfNotExists name ct1 keys1 s = (inr tt, s1) ->
  ct2 <> [] -> Forall (fun c => valid_name c = true) (ct2.*1 ++ keys2) ->
  (keys2 = [] \/ simple_ident name = true) ->
  let w := run_schedule [0; 1; 0; 1]
             (World s [TCreate name ct1 keys1 CStart; TCreate name ct2 keys2 CStart] []) in
  w_threads w = [TDone (inr tt); TDone (inl (SqliteError (TableAlreadyExists name)))] /\ w_store w = s1.
Proof.
  intros Hs Hc Hne2 Hv2 Hk2. pose proof (CreateTableIfNotExists_inr _ _ _ _ _ Hc) as [Hn Hin].
  pose proof (empty_frame_setup name ct2 keys2 Hn Hv2) as Hset2.
  unfold CreateTableIfNotExists, sqlite_table_create in Hc. se_unfold.
  destruct (_create_table_setup _ _ _ _) as [e|stmts1] eqn:Hset1; [discriminate|].
  destruct (_create_table_setup_inr _ _ _ _ _ Hset1) as [_ (rest & -> & Hrest)].
  rewrite (Hrest eq_refl) in Hset1, Hc. rewrite Hs in Hc. cbn [se_iter] in Hc. se_unfold.
  destruct (execute_ddl _ s) as [[e|[]] s0] eqn:Hrun1; simplify_eq.
  race_step. unfold provisioned_schema. rewrite Hset1, Hs. cbv beta iota.
  race_step. unfold provisioned_schema. rewrite Hset2, Hs. cbv beta iota.
  race_step. unfold provisioned_schema. rewrite Hset1. cbn [lookup list_lookup]. rewrite Hrun1. cbv beta iota.
  race_step. unfold provisioned_schema. rewrite Hset2. cbn [lookup list_lookup].
  rewrite execute_ddl_create_text;
    [|unfold column_names_and_types; rewrite app_nil_l; intros Hnil;
      apply fmap_nil_inv in Hnil; by apply (FrameFacts._EmptyFrame_nonempty ct2)|done].
  rewrite create_table_exists by done. split; reflexivity.
Qed.

(** The statements the legacy path prints for a frame whose names escape. *)
Lemma legacy_setup name df :
  simple_ident name = true -> frame_wf df -> Forall (fun c => valid_name c = true) (record_names df) ->
  Forall (fun c => valid_name c = true) (legacy_keys df) ->
  _create_table_setup name (legacy_schema df) (legacy_keys df) (_index_name df) =
    inr [create_text name (legacy_schema df) (legacy_keys df); index_text name (_index_name df)].
Proof.
  intros Hid Hwf Hv Hk. unfold legacy_schema.
  rewrite record_names_setup by auto using simple_ident_valid, _index_name_valid.
  by rewrite bool_decide_eq_false_2 by (by apply _index_name_ne).
Qed.

(** C16: two legacy writers racing on one new table.  When two callers
    write frames to the same absent table and both pass [table.create()]'s
    [exists()] check before either creates it, the first one's CREATE
    TABLE and CREATE INDEX commit and its insert runs, so it ends as it
    would alone; the second one's CREATE TABLE fails and that call raises
    "table already exists", a creation conflict (spec section 5), not the
    [ValueError] of [if_exists='fail'].  The store is the one the first
    call alone leaves. *)
Theorem legacy_race_conflict s name df1 df2 :
  s !! name = None -> frame_wf df1 -> index_named df1 -> NoDup (record_names df1) ->
  legacy_names_ok s name df1 ->
  frame_wf df2 -> Forall (fun c => valid_name c = true) (record_names df2) ->
  Forall (fun c => valid_name c = true) (legacy_keys df2) ->
  let w := run_schedule [0; 1; 0; 1; 0; 1; 0; 0]
             (World s [TWrite name df1 WStart; TWrite name df2 WStart] []) in
  w_threads w = [TDone (InsertOrReplaceRecords name df1 s).1;
                 TDone (inl (SqliteError (TableAlreadyExists name)))] /\
  w_store w = (InsertOrReplaceRecords name df1 s).2.
Proof.
  intros Hs Hwf1 Hn1 Hnd1 Hln1 Hwf2 Hv2 Hk2. pose proof Hln1 as (Hid & Hv1 & _).
  assert (Hfree : has_table s name = false) by (unfold has_table; rewrite Hs; by apply bool_decide_eq_false_2; intros []).
  assert (Hk1 : Forall (fun c => valid_name c = true) (legacy_keys df1))
    by (unfold legacy_keys; rewrite <-_index_name_named by done; by apply _index_name_valid).
  pose proof (legacy_setup name df1 Hid Hwf1 Hv1 Hk1) as Hset1.
  pose proof (legacy_setup name df2 Hid Hwf2 Hv2 Hk2) as Hset2.
  rewrite InsertOrReplaceRecords_legacy_created by done.
  race_step. rewrite Hfree. cbv beta iota.
  race_step. rewrite Hfree. cbv beta iota.
  race_step. rewrite Hset1, Hfree. cbv beta iota.
  race_step. rewrite Hset2, Hfree. cbv beta iota.
  race_step. rewrite Hset1. cbn [lookup list_lookup].
  unfold legacy_schema, legacy_keys. rewrite legacy_create_ok by done. cbv beta iota.
  race_step. rewrite Hset2. cbn [lookup list_lookup]. unfold legacy_schema.
  rewrite execute_ddl_create_text;
    [|intros Hnil; apply (record_names_ne df2 Hwf2); by rewrite <-column_names_true, Hnil|by right].
  rewrite create_table_exists by (by rewrite lookup_insert_eq). cbv beta iota.
  race_step. rewrite Hset1. cbn [lookup list_lookup]. rewrite legacy_index_ok by done. cbv beta iota.
  race_step. destruct (sqlite_table_insert name df1 _) as [[e|[]] s2]; split; reflexivity.
Qed.

End Claims.

(** ** Witnesses on the scenario *)

Section Witnesses.

Lemma existing_path_table_present_witness :
  has_table (w_store (run_schedule [0] upsert_race)) "scores" = true.
Proof.
  apply (existing_path_table_present upsert_race _ 0 "scores" batch2);
    [split; [decide_concrete|reflexivity]|apply run_schedule_rtc|vm_compute; reflexivity].
Defined.

Lemma CreateTableIfNotExists_race_witness :
  let w := run_schedule [0; 1; 0; 1] provisioners_race in
  w_threads w = [TDone (inr tt); TDone (inl (SqliteError (TableAlreadyExists "scores")))] /\
  w_store w = (CreateTableIfNotExists "scores" scores_schema ["id"] ∅).2.
Proof.
  apply (CreateTableIfNotExists_race ∅ "scores" scores_schema ["id"] scores_schema ["id"]);
    [reflexivity|vm_compute; reflexivity|discriminate|repeat constructor|right; reflexivity].
Defined.

Lemma legacy_race_conflict_witness :
  let w := run_schedule [0; 1; 0; 1; 0; 1; 0; 0] legacy_race in
  w_threads w = [TDone (InsertOrReplaceRecords "scores" batch1 ∅).1;
                 TDone (inl (SqliteError (TableAlreadyExists "scores")))] /\
  w_store w = (InsertOrReplaceRecords "scores" batch1 ∅).2.
Proof.
  apply (legacy_race_conflict ∅ "scores" batch1 batch2); first [reflexivity | decide_concrete].
Defined.

End Witnesses.
End Race.
